(** * surya/detection.py: batching, tile reassembly and the detection pipeline

    A shallow embedding of [surya/detection.py].  Python integers are [Z],
    list positions are [nat], Python lists are Rocq lists, exceptions are an
    explicit error type.  The external collaborators (network, image codec,
    heatmap post-processing) are gathered in one record of opaque functions.
    Part I holds the definitions, Part II the lemmas and theorems. *)

From Stdlib Require Import ZArith List Bool Lia String.
From stdpp Require Import base list gmap.
Import ListNotations.
Local Open Scope Z_scope.

(* ================================================================== *)
(** * Part I: definitions *)
(* ================================================================== *)

(** ** Exceptions and a small error monad *)

Inductive exn : Type :=
| AssertionError
| RuntimeError
| IndexError
| ValueError.

Inductive res (A : Type) : Type :=
| Ok (a : A)
| Raise (e : exn).
Arguments Ok {A} a.
Arguments Raise {A} e.

Definition rbind {A B : Type} (m : res A) (f : A -> res B) : res B :=
  match m with
  | Ok a => f a
  | Raise e => Raise e
  end.

#[global] Instance res_ret : MRet res := @Ok.
#[global] Instance res_bind : MBind res := fun A B f m => rbind m f.

(** A subscript [l[i]]: [IndexError] when out of range. *)
Definition subscript {A : Type} (l : list A) (i : nat) : res A :=
  match l !! i with
  | Some x => Ok x
  | None => Raise IndexError
  end.

(** An item assignment [l[i] = x]: [IndexError] when out of range. *)
Definition assign {A : Type} (l : list A) (i : nat) (x : A) : res (list A) :=
  if (i <? length l)%nat then Ok (<[i := x]> l) else Raise IndexError.

(** ** [surya.settings.settings]: the fields read by this module *)

Record Settings : Type := {
  DETECTOR_BATCH_SIZE : option Z;
  TORCH_DEVICE_MODEL : string;
  DETECTOR_POSTPROCESSING_CPU_WORKERS : Z;
  DETECTOR_MIN_PARALLEL_THRESH : Z;
  IN_STREAMLIT : bool
}.

(** [get_batch_size], lines 20-28. *)
Definition get_batch_size (settings : Settings) : Z :=
  match DETECTOR_BATCH_SIZE settings with
  | Some batch_size => batch_size
  | None =>
      let batch_size := 8 in
      let batch_size :=
        if String.eqb (TORCH_DEVICE_MODEL settings) "mps" then 8 else batch_size in
      let batch_size :=
        if String.eqb (TORCH_DEVICE_MODEL settings) "cuda" then 36 else batch_size in
      batch_size
  end.

(** ** The Batch Planner: the planning loop of [batch_detection], lines 45-58 *)

Record plan_state : Type := {
  batches : list (list nat);
  current_batch : list nat;
  current_batch_size : Z
}.

Definition plan_init : plan_state :=
  {| batches := []; current_batch := []; current_batch_size := 0 |}.

(** One iteration of [for i in range(len(images))], lines 49-55.
    [splits_per_image] has one entry per image, so the subscript is in range;
    [nth]'s default is never read. *)
Definition plan_step (splits_per_image : list Z) (batch_size : Z)
    (st : plan_state) (i : nat) : plan_state :=
  let st1 :=
    if current_batch_size st + nth i splits_per_image 0 >? batch_size then
      {| batches :=
           if (0 <? length (current_batch st))%nat
           then batches st ++ [current_batch st]
           else batches st;
         current_batch := [];
         current_batch_size := 0 |}
    else st in
  {| batches := batches st1;
     current_batch := current_batch st1 ++ [i];
     current_batch_size := current_batch_size st1 + nth i splits_per_image 0 |}.

Definition plan_loop (splits_per_image : list Z) (batch_size : Z) (n : nat)
    : plan_state :=
  fold_left (plan_step splits_per_image batch_size) (seq 0 n) plan_init.

(** Lines 45-58 as a whole: the loop, then the flush of the last batch. *)
Definition plan_batches (splits_per_image : list Z) (batch_size : Z)
    : list (list nat) :=
  let st := plan_loop splits_per_image batch_size (length splits_per_image) in
  if (0 <? length (current_batch st))%nat
  then batches st ++ [current_batch st]
  else batches st.

(** The tile count of one batch, as the loop accounts for it. *)
Definition batch_tiles (splits_per_image : list Z) (b : list nat) : Z :=
  fold_right (fun i acc => nth i splits_per_image 0 + acc) 0 b.

(** A batch respects the budget, or it is the single image that alone
    exceeds it. *)
Definition within_budget (splits_per_image : list Z) (batch_size : Z)
    (b : list nat) : Prop :=
  batch_tiles splits_per_image b <= batch_size \/
  exists i, b = [i] /\ batch_size < nth i splits_per_image 0.

(** ** Loops and comprehensions that may raise *)

(** [[f(x) for x in l]] where [f] may raise: the first exception wins. *)
Fixpoint rmap {A B : Type} (f : A -> res B) (l : list A) : res (list B) :=
  match l with
  | [] => Ok []
  | x :: l' => y ← f x; ys ← rmap f l'; Ok (y :: ys)
  end.

(** [for x in l: acc = f(acc, x)] where the body may raise. *)
Fixpoint rfold {A B : Type} (f : B -> A -> res B) (l : list A) (acc : B)
    : res B :=
  match l with
  | [] => Ok acc
  | x :: l' => acc' ← f acc x; rfold f l' acc'
  end.

(** [enumerate(l)]. *)
Definition enumerate {A : Type} (l : list A) : list (nat * A) :=
  imap pair l.

(** ** Images, tiles and the processor *)

(** [processor.size["height"]] and [processor.size["width"]]: the fixed input
    window of the network, which is also the canonical heatmap resolution. *)
Record processor : Type := {
  size_height : Z;
  size_width : Z
}.

(** A PIL image: its [size] is [(width, height)]; the pixel payload is
    opaque. *)
Record image (P : Type) : Type := {
  im_width : Z;
  im_height : Z;
  im_mode : string;
  im_data : P
}.
Arguments im_width {P} _.
Arguments im_height {P} _.
Arguments im_mode {P} _.
Arguments im_data {P} _.

Definition size {P : Type} (im : image P) : Z * Z := (im_width im, im_height im).

(** An element of the input list: an [Image.Image] or any other object. *)
Inductive pyobj (P : Type) : Type :=
| PyImage (im : image P)
| PyOther (repr : string).
Arguments PyImage {P} im.
Arguments PyOther {P} repr.

(** [isinstance(image, Image.Image)]. *)
Definition isinstance_Image {P : Type} (o : pyobj P) : bool :=
  match o with
  | PyImage _ => true
  | PyOther _ => false
  end.

Definition as_image {P : Type} (o : pyobj P) : option (image P) :=
  match o with
  | PyImage im => Some im
  | PyOther _ => None
  end.

(** Modelled from the spec: the tiles that [split_image] returns are not
    described by the sources at hand.  The spec has a tile be a window-high
    strip of its source image, here starting at row [tile_top], of which the
    first [tile_valid_height] rows are image rows and the rest is padding. *)
Record tile (P : Type) : Type := {
  tile_source : image P;
  tile_top : Z;
  tile_valid_height : Z;
  tile_window_height : Z
}.
Arguments tile_source {P} _.
Arguments tile_top {P} _.
Arguments tile_valid_height {P} _.
Arguments tile_window_height {P} _.

(** ** The Tiler ([surya.input.processing], not part of this module) *)

(** Modelled from the spec: [ceil(H / W)], computed on integers through
    floor division. *)
Definition ceil_div (a b : Z) : Z := - ((- a) / b).

(** Modelled from the spec: [get_total_splits] is missing from the sources at
    hand.  The spec makes [countTiles] a pure function of the image height and
    the window height, the number of window-high strips needed to cover the
    image. *)
Definition get_total_splits (sz : Z * Z) (proc : processor) : Z :=
  ceil_div (snd sz) (size_height proc).

(** Modelled from the spec: [split_image] is missing from the sources at hand.
    The spec has the tiles cover the image top to bottom without horizontal
    splitting, every tile one window high, the last one padded when the
    remainder is shorter; it returns the tiles and, in parallel, their valid
    heights. *)
Definition split_image {P : Type} (im : image P) (proc : processor)
    : list (tile P) * list Z :=
  let window := size_height proc in
  let img_height := im_height im in
  let num_splits := get_total_splits (size im) proc in
  let parts :=
    map (fun i : nat =>
           let top := Z.of_nat i * window in
           let bottom := Z.min (top + window) img_height in
           {| tile_source := im;
              tile_top := top;
              tile_valid_height := bottom - top;
              tile_window_height := window |})
        (seq 0 (Z.to_nat num_splits)) in
  (parts, map tile_valid_height parts).

(** ** Tensors and heatmaps *)

(** A two-dimensional array: its rows and its column count, [a.shape[1]],
    which an array has even when it has no row. *)
Record ndarray2 (A : Type) : Type := {
  nd_cols : nat;
  nd_rows : list (list A)
}.
Arguments nd_cols {A} _.
Arguments nd_rows {A} _.

(** The logits tensor [[tiles, channels, rows, cols]].  The trailing shape is
    explicit; the entries are a total function, so that [logits[i][k]] is
    defined for every tile and channel (the model contract: one slice per
    tile and per label). *)
Record tensor (A : Type) : Type := {
  t_rows : Z;
  t_cols : Z;
  t_at : nat -> nat -> nat -> nat -> A
}.
Arguments t_rows {A} _.
Arguments t_cols {A} _.
Arguments t_at {A} _ _ _ _ _.

(** [list(logits.shape[2:])]. *)
Definition shape2 {A : Type} (t : tensor A) : list Z := [t_rows t; t_cols t].

(** [logits[i][k]]: the heatmap of tile [i] for channel [k]. *)
Definition tile_heatmap {A : Type} (t : tensor A) (i k : nat) : ndarray2 A :=
  {| nd_cols := Z.to_nat (t_cols t);
     nd_rows :=
       map (fun r => map (fun c => t_at t i k r c) (seq 0 (Z.to_nat (t_cols t))))
           (seq 0 (Z.to_nat (t_rows t))) |}.

(** [a[:height, :]], with Python's reading of a negative bound; the
    column count is kept. *)
Definition slice_rows {A : Type} (height : Z) (a : ndarray2 A) : ndarray2 A :=
  {| nd_cols := nd_cols a;
     nd_rows :=
       if height <? 0
       then firstn (length (nd_rows a) - Z.to_nat (- height)) (nd_rows a)
       else firstn (Z.to_nat height) (nd_rows a) |}.

(** [np.vstack([a, b])]: the rows of [a], then the rows of [b]; NumPy
    refuses operands of different column counts with a [ValueError]. *)
Definition vstack {A : Type} (a b : ndarray2 A) : res (ndarray2 A) :=
  if (nd_cols a =? nd_cols b)%nat
  then Ok {| nd_cols := nd_cols a; nd_rows := nd_rows a ++ nd_rows b |}
  else Raise ValueError.

(** [list(reversed(a.shape))]: [[cols, rows]]. *)
Definition reversed_shape {A : Type} (a : ndarray2 A) : list Z :=
  [Z.of_nat (nd_cols a); Z.of_nat (length (nd_rows a))].

(** ** A finite generator *)

Inductive gen (A : Type) : Type :=
| GYield (x : A) (rest : gen A)
| GStop
| GRaise (e : exn).
Arguments GYield {A} x rest.
Arguments GStop {A}.
Arguments GRaise {A} e.

(** The values a generator yields before it stops or raises. *)
Fixpoint gen_items {A : Type} (g : gen A) : list A :=
  match g with
  | GYield x g' => x :: gen_items g'
  | GStop => []
  | GRaise _ => []
  end.

(** The generator is exhausted without raising. *)
Fixpoint gen_ok {A : Type} (g : gen A) : Prop :=
  match g with
  | GYield _ g' => gen_ok g'
  | GStop => True
  | GRaise _ => False
  end.

(** The producer's steps a generator still accounts for: resuming it and
    putting what it yields, then the sentinel. *)
Fixpoint gen_steps {A : Type} (g : gen A) : nat :=
  match g with
  | GYield _ g' => (3 + gen_steps g')%nat
  | GStop => 3%nat
  | GRaise _ => 1%nat
  end.

(** ** The external collaborators *)

Record externals : Type := {
  px : Type;             (* a logit, [np.float32] *)
  pixels : Type;         (* the pixel payload of a PIL image *)
  pixel_values : Type;   (* one prepared tile, a [3 x H x W] tensor *)
  polygon_boxes : Type;  (* what [get_and_clean_boxes] returns *)
  column_lines : Type;   (* what [get_vertical_lines] returns *)
  gray_image : Type;     (* what [Image.fromarray] returns *)
  (* [image.convert(mode)] on the payload; the size is unchanged *)
  convert_data : string -> pixels -> pixels;
  prepare_image_detection : tile pixels -> processor -> pixel_values;
  (* [model(pixel_values=batch).logits] *)
  model_logits : list pixel_values -> tensor px;
  (* [model.config.num_labels] *)
  num_labels : nat;
  (* the entries computed by [F.interpolate(..., mode='bilinear')] *)
  bilinear : tensor px -> Z -> Z -> nat -> nat -> nat -> nat -> px;
  (* [Image.fromarray((a * 255).astype(np.uint8))] *)
  fromarray_uint8 : ndarray2 px -> gray_image;
  get_and_clean_boxes : ndarray2 px -> list Z -> Z * Z -> polygon_boxes;
  get_vertical_lines : ndarray2 px -> list Z -> Z * Z -> column_lines
}.

Section Detection.
Variable E : externals.

(** [image.convert("RGB")]. *)
Definition convert (mode : string) (im : image (pixels E)) : image (pixels E) :=
  {| im_width := im_width im;
     im_height := im_height im;
     im_mode := mode;
     im_data := convert_data E mode (im_data im) |}.

(** [torch.stack(image_splits, dim=0)]: an empty list is refused. *)
Definition torch_stack (image_splits : list (pixel_values E))
    : res (list (pixel_values E)) :=
  match image_splits with
  | [] => Raise RuntimeError
  | _ => Ok image_splits
  end.

(** [F.interpolate(logits, size=[h, w], mode='bilinear')]. *)
Definition interpolate (logits : tensor (px E)) (h w : Z) : tensor (px E) :=
  {| t_rows := h; t_cols := w; t_at := bilinear E logits h w |}.

(** The Inference Adapter, lines 80-84. *)
Definition adapt_logits (proc : processor) (logits : tensor (px E))
    : tensor (px E) :=
  let correct_shape := [size_height proc; size_width proc] in
  let current_shape := shape2 logits in
  if decide (current_shape <> correct_shape)
  then interpolate logits (size_height proc) (size_width proc)
  else logits.

(** Lines 64-71: the tiles of a batch, with the parallel lists of the
    in-batch image index and of the valid height of every tile. *)
Definition split_batch_step (proc : processor)
    (acc : list (tile (pixels E)) * list nat * list Z)
    (entry : nat * image (pixels E))
    : list (tile (pixels E)) * list nat * list Z :=
  let '(image_splits, split_index, split_heights) := acc in
  let '(image_idx, img) := entry in
  let '(image_parts, split_height) := split_image img proc in
  (image_splits ++ image_parts,
   split_index ++ repeat image_idx (length image_parts),
   split_heights ++ split_height).

Definition split_batch (proc : processor) (batch_images : list (image (pixels E)))
    : list (tile (pixels E)) * list nat * list Z :=
  fold_left (split_batch_step proc) (enumerate batch_images) ([], [], []).

(** Line 102: [heatmaps[k] = np.vstack([heatmaps[k], pred_heatmaps[k]])]. *)
Definition stack_channel (pred_heatmaps heatmaps : list (ndarray2 (px E)))
    (k : nat) : res (list (ndarray2 (px E))) :=
  a ← subscript heatmaps k;
  b ← subscript pred_heatmaps k;
  stacked ← vstack a b;
  assign heatmaps k stacked.

(** Lines 101-102: [for k in range(heatmap_count)]. *)
Definition stack_channels (heatmap_count : nat)
    (heatmaps pred_heatmaps : list (ndarray2 (px E)))
    : res (list (ndarray2 (px E))) :=
  rfold (stack_channel pred_heatmaps) (seq 0 heatmap_count) heatmaps.

(** One iteration of the Tile Reassembler, lines 88-103. *)
Definition reassemble_step (proc : processor) (heatmap_count : nat)
    (logits : tensor (px E)) (preds : list (list (ndarray2 (px E))))
    (entry : nat * (nat * Z)) : res (list (list (ndarray2 (px E)))) :=
  let '(i, (idx, height)) := entry in
  if (length preds <=? idx)%nat then
    Ok (preds ++ [map (fun k => tile_heatmap logits i k) (seq 0 heatmap_count)])
  else
    heatmaps ← subscript preds idx;
    let pred_heatmaps :=
      map (fun k => tile_heatmap logits i k) (seq 0 heatmap_count) in
    let pred_heatmaps :=
      if height <? size_height proc
      then map (slice_rows height) pred_heatmaps
      else pred_heatmaps in
    heatmaps ← stack_channels heatmap_count heatmaps pred_heatmaps;
    assign preds idx heatmaps.

(** The Tile Reassembler, lines 87-103. *)
Definition reassemble (proc : processor) (heatmap_count : nat)
    (logits : tensor (px E)) (split_index : list nat) (split_heights : list Z)
    : res (list (list (ndarray2 (px E)))) :=
  rfold (reassemble_step proc heatmap_count logits)
        (enumerate (combine split_index split_heights)) [].

(** What the generator yields: the per-image heatmaps of one batch and the
    original sizes of its images. *)
Definition item : Type := list (list (ndarray2 (px E))) * list (Z * Z).

(** The body of the batch loop, lines 61-105. *)
Definition detect_batch (proc : processor) (heatmap_count : nat)
    (images : list (image (pixels E))) (orig_sizes : list (Z * Z))
    (batch_image_idxs : list nat) : res item :=
  batch_images ←
    rmap (fun j => im ← subscript images j; Ok (convert "RGB" im))
         batch_image_idxs;
  let '(image_splits, split_index, split_heights) :=
    split_batch proc batch_images in
  let image_splits :=
    map (fun img => prepare_image_detection E img proc) image_splits in
  batch ← torch_stack image_splits;
  let logits := adapt_logits proc (model_logits E batch) in
  preds ← reassemble proc heatmap_count logits split_index split_heights;
  sizes ← rmap (subscript orig_sizes) batch_image_idxs;
  Ok (preds, sizes).

(** The batch loop as a generator: a batch that raises ends the stream. *)
Fixpoint batch_loop (body : list nat -> res item) (bs : list (list nat))
    : gen item :=
  match bs with
  | [] => GStop
  | b :: bs' =>
      match body b with
      | Ok it => GYield it (batch_loop body bs')
      | Raise e => GRaise e
      end
  end.

(** [batch_detection], lines 31-105. *)
Definition batch_detection (settings : Settings)
    (images : list (pyobj (pixels E))) (proc : processor)
    (batch_size : option Z) : gen item :=
  if negb (forallb isinstance_Image images) then GRaise AssertionError
  else
    let images := omap as_image images in
    let batch_size :=
      match batch_size with
      | None => get_batch_size settings
      | Some b => b
      end in
    let heatmap_count := num_labels E in
    let orig_sizes := map size images in
    let splits_per_image :=
      map (fun sz => get_total_splits sz proc) orig_sizes in
    let batches := plan_batches splits_per_image batch_size in
    batch_loop (detect_batch proc heatmap_count images orig_sizes) batches.

(** ** Post-processing *)

Record TextDetectionResult : Type := {
  bboxes : polygon_boxes E;
  vertical_lines : column_lines E;
  heatmap : gray_image E;
  affinity_map : gray_image E;
  image_bbox : list Z
}.

(** [parallel_get_lines], lines 108-124.  The unpacking
    [heatmap, affinity_map = preds] needs exactly two heatmaps. *)
Definition parallel_get_lines (preds : list (ndarray2 (px E)))
    (orig_sizes : Z * Z) : res TextDetectionResult :=
  match preds with
  | [heatmap_arr; affinity_arr] =>
      let heat_img := fromarray_uint8 E heatmap_arr in
      let aff_img := fromarray_uint8 E affinity_arr in
      let affinity_size := reversed_shape affinity_arr in
      let heatmap_size := reversed_shape heatmap_arr in
      Ok {| bboxes := get_and_clean_boxes E heatmap_arr heatmap_size orig_sizes;
            vertical_lines :=
              get_vertical_lines E affinity_arr affinity_size orig_sizes;
            heatmap := heat_img;
            affinity_map := aff_img;
            image_bbox := [0; 0; fst orig_sizes; snd orig_sizes] |}
  | _ => Raise ValueError
  end.

(** Lines 161-162: the in-process comprehension over
    [zip(preds, orig_sizes)]. *)
Definition postprocess_sequential (batch : item)
    : res (list TextDetectionResult) :=
  let '(preds, orig_sizes) := batch in
  rmap (fun '(pred, orig_size) => parallel_get_lines pred orig_size)
       (combine preds orig_sizes).

(** [executor.map(f, xs, ys)] collected by [list]: the calls are issued for
    the zipped arguments and the results are delivered in the order of the
    arguments, whichever worker finishes first; an exception of a call is
    re-raised when its result is reached. *)
Definition executor_map {A B C : Type} (f : A -> B -> res C)
    (xs : list A) (ys : list B) : res (list C) :=
  rmap (fun '(x, y) => f x y) (combine xs ys).

(** The same with the pool spelled out.  Job [i] is the call on the [i]-th
    pair of arguments; the workers finish the jobs in the order
    [completion], each result being kept under the number of its job; the
    results are then taken by job number.  [None]: some job is still to be
    finished and the caller waits. *)
Definition finish_jobs {C : Type} (jobs : list (res C)) (completion : list nat)
    : gmap nat (res C) :=
  fold_left (fun done i =>
               match jobs !! i with
               | Some r => <[i := r]> done
               | None => done
               end)
            completion ∅.

Definition executor_map_completed {A B C : Type} (completion : list nat)
    (f : A -> B -> res C) (xs : list A) (ys : list B) : option (res (list C)) :=
  let jobs := map (fun '(x, y) => f x y) (combine xs ys) in
  let done := finish_jobs jobs completion in
  finished ← mapM (fun i => done !! i) (seq 0 (length jobs));
  Some (rmap (fun r => r) finished).

(** Line 150: the fan-out over the worker pool. *)
Definition postprocess_parallel (batch : item)
    : res (list TextDetectionResult) :=
  let '(preds, orig_sizes) := batch in
  executor_map parallel_get_lines preds orig_sizes.

End Detection.

Arguments bboxes {E} _.
Arguments vertical_lines {E} _.
Arguments heatmap {E} _.
Arguments affinity_map {E} _.
Arguments image_bbox {E} _.

(** ** The pipeline of [batch_text_detection], lines 127-178

    Two threads and the main thread share the state below.  Each thread is a
    deterministic program; a step of the system is a step of one of them, and
    the interleaving is arbitrary.  A blocking call ([put] on a full queue,
    [get] on an empty one, [join] on a running thread) is a step that is not
    enabled.  What a thread does between two queue operations touches
    nothing another thread reads before the joins ([results] is extended by
    the consumer only, under [result_lock], and read by the main thread
    after [consumer.join()]), so it is one step. *)

(** [Queue(maxsize=4)]. *)
Definition maxsize : nat := 4.

(** Where [inference_producer] stands (lines 136-139). *)
Inductive producer_pc (I : Type) : Type :=
| PNext                (* about to resume [detection_generator] *)
| PPut (batch : I)     (* at [batch_queue.put(batch)] *)
| PPutNone             (* at [batch_queue.put(None)] *)
| PDone                (* returned *)
| PCrashed (e : exn).  (* ended by an exception *)
Arguments PNext {I}.
Arguments PPut {I} batch.
Arguments PPutNone {I}.
Arguments PDone {I}.
Arguments PCrashed {I} e.

(** Where [postprocessing_consumer] stands (lines 141-165). *)
Inductive consumer_pc : Type :=
| CEnter               (* at [if parallelize] *)
| CLoop (pool : bool)  (* at [batch_queue.get()]; [pool]: inside the [with] *)
| CDone                (* returned *)
| CCrashed (e : exn).  (* ended by an exception *)

(** What an observer of one run sees. *)
Inductive event : Type :=
| EvInfer                      (* the generator ran one batch through the model *)
| EvPut (sentinel : bool)      (* a [put] went through *)
| EvPoolOpen (max_workers : Z) (* [ProcessPoolExecutor(max_workers=...)] *)
| EvPoolMap (calls : nat)      (* one [executor.map] over a batch *)
| EvInProcess (calls : nat)    (* one in-process comprehension over a batch *)
| EvPoolClose.                 (* the [with] block was left *)

Inductive actor : Type := Producer | Consumer | Main.

Section Pipeline.
Variable E : externals.

Record pipeline : Type := {
  detection_generator : gen (item E);
  batch_queue : list (option (item E));
  producer : producer_pc (item E);
  consumer : consumer_pc;
  results : list (TextDetectionResult E);
  returned : option (list (TextDetectionResult E));
  trace : list event
}.

(** Line 133. *)
Definition parallelize (settings : Settings) (n_images : nat) : bool :=
  negb (IN_STREAMLIT settings) &&
  (DETECTOR_MIN_PARALLEL_THRESH settings <=? Z.of_nat n_images).

(** Line 132. *)
Definition max_workers (settings : Settings) (n_images : nat) : Z :=
  Z.min (DETECTOR_POSTPROCESSING_CPU_WORKERS settings) (Z.of_nat n_images).

Definition producer_finished (s : pipeline) : bool :=
  match producer s with
  | PDone | PCrashed _ => true
  | _ => false
  end.

Definition consumer_finished (s : pipeline) : bool :=
  match consumer s with
  | CDone | CCrashed _ => true
  | _ => false
  end.

(** One step of [inference_producer]. *)
Definition inference_producer (s : pipeline) : option pipeline :=
  match producer s with
  | PNext =>
      match detection_generator s with
      | GYield batch g =>
          Some {| detection_generator := g;
                  batch_queue := batch_queue s;
                  producer := PPut batch;
                  consumer := consumer s;
                  results := results s;
                  returned := returned s;
                  trace := trace s ++ [EvInfer] |}
      | GStop =>
          Some {| detection_generator := GStop;
                  batch_queue := batch_queue s;
                  producer := PPutNone;
                  consumer := consumer s;
                  results := results s;
                  returned := returned s;
                  trace := trace s |}
      | GRaise e =>
          Some {| detection_generator := GRaise e;
                  batch_queue := batch_queue s;
                  producer := PCrashed e;
                  consumer := consumer s;
                  results := results s;
                  returned := returned s;
                  trace := trace s |}
      end
  | PPut batch =>
      if (length (batch_queue s) <? maxsize)%nat then
        Some {| detection_generator := detection_generator s;
                batch_queue := batch_queue s ++ [Some batch];
                producer := PNext;
                consumer := consumer s;
                results := results s;
                returned := returned s;
                trace := trace s ++ [EvPut false] |}
      else None
  | PPutNone =>
      if (length (batch_queue s) <? maxsize)%nat then
        Some {| detection_generator := detection_generator s;
                batch_queue := batch_queue s ++ [None];
                producer := PDone;
                consumer := consumer s;
                results := results s;
                returned := returned s;
                trace := trace s ++ [EvPut true] |}
      else None
  | PDone => None
  | PCrashed _ => None
  end.

(** The post-processing of one batch: line 150 inside the pool, lines
    161-162 outside. *)
Definition postprocess (pool : bool) (batch : item E)
    : res (list (TextDetectionResult E)) :=
  if pool then postprocess_parallel E batch else postprocess_sequential E batch.

(** Leaving the [with] block closes the pool, on [break] and on an
    exception alike. *)
Definition leave_pool (pool : bool) : list event :=
  if pool then [EvPoolClose] else [].

(** One step of [postprocessing_consumer].  The pool is created with
    [max_workers] workers, which [ProcessPoolExecutor] refuses with a
    [ValueError] unless positive. *)
Definition postprocessing_consumer (par : bool) (workers : Z) (s : pipeline)
    : option pipeline :=
  match consumer s with
  | CEnter =>
      if par then
        if 0 <? workers then
          Some {| detection_generator := detection_generator s;
                  batch_queue := batch_queue s;
                  producer := producer s;
                  consumer := CLoop true;
                  results := results s;
                  returned := returned s;
                  trace := trace s ++ [EvPoolOpen workers] |}
        else
          Some {| detection_generator := detection_generator s;
                  batch_queue := batch_queue s;
                  producer := producer s;
                  consumer := CCrashed ValueError;
                  results := results s;
                  returned := returned s;
                  trace := trace s |}
      else
        Some {| detection_generator := detection_generator s;
                batch_queue := batch_queue s;
                producer := producer s;
                consumer := CLoop false;
                results := results s;
                returned := returned s;
                trace := trace s |}
  | CLoop pool =>
      match batch_queue s with
      | [] => None
      | None :: q =>
          Some {| detection_generator := detection_generator s;
                  batch_queue := q;
                  producer := producer s;
                  consumer := CDone;
                  results := results s;
                  returned := returned s;
                  trace := trace s ++ leave_pool pool |}
      | Some batch :: q =>
          match postprocess pool batch with
          | Ok batch_results =>
              Some {| detection_generator := detection_generator s;
                      batch_queue := q;
                      producer := producer s;
                      consumer := CLoop pool;
                      results := results s ++ batch_results;
                      returned := returned s;
                      trace :=
                        trace s ++
                        [if pool then EvPoolMap (length batch_results)
                         else EvInProcess (length batch_results)] |}
          | Raise e =>
              Some {| detection_generator := detection_generator s;
                      batch_queue := q;
                      producer := producer s;
                      consumer := CCrashed e;
                      results := results s;
                      returned := returned s;
                      trace := trace s ++ leave_pool pool |}
          end
      end
  | CDone => None
  | CCrashed _ => None
  end.

(** The main thread, lines 175-178: both joins, then [return results]. *)
Definition main_step (s : pipeline) : option pipeline :=
  match returned s with
  | Some _ => None
  | None =>
      if producer_finished s && consumer_finished s then
        Some {| detection_generator := detection_generator s;
                batch_queue := batch_queue s;
                producer := producer s;
                consumer := consumer s;
                results := results s;
                returned := Some (results s);
                trace := trace s |}
      else None
  end.

Definition actor_step (par : bool) (workers : Z) (a : actor) (s : pipeline)
    : option pipeline :=
  match a with
  | Producer => inference_producer s
  | Consumer => postprocessing_consumer par workers s
  | Main => main_step s
  end.

(** The state in which both threads have just been started, for a given
    generator. *)
Definition started (g : gen (item E)) : pipeline :=
  {| detection_generator := g;
     batch_queue := [];
     producer := PNext;
     consumer := CEnter;
     results := [];
     returned := None;
     trace := [] |}.

(** One step of the system, by some thread. *)
Definition step (par : bool) (workers : Z) (s s' : pipeline) : Prop :=
  exists a, actor_step par workers a s = Some s'.

(** The states some interleaving reaches. *)
Inductive reachable (par : bool) (workers : Z) (s0 : pipeline)
    : pipeline -> Prop :=
| reach_start : reachable par workers s0 s0
| reach_step s s' :
    reachable par workers s0 s -> step par workers s s' ->
    reachable par workers s0 s'.

(** A run under a given schedule; a thread that cannot move is skipped. *)
Fixpoint run (par : bool) (workers : Z) (schedule : list actor) (s : pipeline)
    : pipeline :=
  match schedule with
  | [] => s
  | a :: schedule' =>
      match actor_step par workers a s with
      | Some s' => run par workers schedule' s'
      | None => run par workers schedule' s
      end
  end.

(** [batch_text_detection] is the system started on the generator of
    [batch_detection]; it returns what [returned] holds when the main
    thread has moved. *)
Definition batch_text_detection (settings : Settings)
    (images : list (pyobj (pixels E))) (proc : processor)
    (batch_size : option Z) : pipeline :=
  started (batch_detection E settings images proc batch_size).

(** A bound on the steps the system can still take. *)
Definition steps_left (s : pipeline) : nat :=
  (match producer s with
   | PNext => gen_steps (detection_generator s)
   | PPut _ => 2 + gen_steps (detection_generator s)
   | PPutNone => 2
   | PDone => 0
   | PCrashed _ => 0
   end +
   length (batch_queue s) +
   match consumer s with CEnter => 1 | _ => 0 end +
   match returned s with None => 1 | Some _ => 0 end)%nat.

(** What the call returns for the values of [parallelize] and
    [max_workers] it computes: [rs] is returned on some interleaving, no
    interleaving returns anything else, and no interleaving is stuck before
    the return or runs forever. *)
Definition always_returns (par : bool) (workers : Z) (s0 : pipeline)
    (rs : list (TextDetectionResult E)) : Prop :=
  (exists s, reachable par workers s0 s /\ returned s = Some rs) /\
  (forall s r, reachable par workers s0 s -> returned s = Some r -> r = rs) /\
  (forall s, reachable par workers s0 s -> returned s = None ->
             exists s', step par workers s s') /\
  (forall s s', reachable par workers s0 s -> step par workers s s' ->
                (steps_left s' < steps_left s)%nat).

End Pipeline.

Arguments detection_generator {E} _.
Arguments batch_queue {E} _.
Arguments producer {E} _.
Arguments consumer {E} _.
Arguments results {E} _.
Arguments returned {E} _.
Arguments trace {E} _.

(** ** Vocabulary of the statements *)

Definition zsum (l : list Z) : Z := fold_right Z.add 0 l.

(** What the reassembler does to a tile that continues an image: the padding
    rows are cut when the valid height is below the window height. *)
Definition trim_padding {A : Type} (window height : Z) (a : ndarray2 A)
    : ndarray2 A :=
  if height <? window then slice_rows height a else a.

(** The heatmaps of one image whose tiles are the slices [off], [off + 1],
    ... of the logits and have the valid heights [heights]: per channel, the
    whole slice of the first tile, then the slices of the following tiles,
    each without its padding. *)
Definition image_heatmaps {A : Type} (window : Z) (heatmap_count : nat)
    (logits : tensor A) (off : nat) (heights : list Z) : list (ndarray2 A) :=
  map (fun k =>
         {| nd_cols := Z.to_nat (t_cols logits);
            nd_rows :=
              nd_rows (tile_heatmap logits off k) ++
              concat (imap (fun t h =>
                              nd_rows (trim_padding window h
                                         (tile_heatmap logits (off + S t) k)))
                           (tail heights)) |})
      (seq 0 heatmap_count).

(** The same with the first tile treated like the others: every tile of the
    image without its padding. *)
Definition all_tiles_trimmed {A : Type} (window : Z) (heatmap_count : nat)
    (logits : tensor A) (off : nat) (heights : list Z) : list (ndarray2 A) :=
  map (fun k =>
         {| nd_cols := Z.to_nat (t_cols logits);
            nd_rows :=
              concat (imap (fun t h =>
                              nd_rows (trim_padding window h
                                         (tile_heatmap logits (off + t) k)))
                           heights) |})
      (seq 0 heatmap_count).

(** The heatmaps of the images of one batch, given the valid heights of the
    tiles of each image, the first tile of the batch being slice [off]. *)
Fixpoint batch_heatmaps {A : Type} (window : Z) (heatmap_count : nat)
    (logits : tensor A) (off : nat) (hss : list (list Z))
    : list (list (ndarray2 A)) :=
  match hss with
  | [] => []
  | hs :: hss' =>
      image_heatmaps window heatmap_count logits off hs ::
      batch_heatmaps window heatmap_count logits (off + length hs) hss'
  end.

(** The loop entries [(i, (idx, height))] of the reassembler for the images
    of one batch: image [p] first, its first tile being slice [off]. *)
Fixpoint batch_entries (off p : nat) (hss : list (list Z))
    : list (nat * (nat * Z)) :=
  match hss with
  | [] => []
  | hs :: hss' =>
      imap (fun t h => ((off + t)%nat, (p, h))) hs ++
      batch_entries (off + length hs) (S p) hss'
  end.

(** The number of tiles of the images before position [p] of a batch. *)
Definition tile_offset (hss : list (list Z)) (p : nat) : nat :=
  length (concat (take p hss)).

(** [[0, 0, width, height]], the full bounding box of an image of size
    [(width, height)]. *)
Definition bbox_of (sz : Z * Z) : list Z := [0; 0; fst sz; snd sz].

(** What the producer puts on the queue for a generator: what it yields,
    then the sentinel unless the generator raises. *)
Fixpoint to_push {A : Type} (g : gen A) : list (option A) :=
  match g with
  | GYield x g' => Some x :: to_push g'
  | GStop => [None]
  | GRaise _ => []
  end.

Section PipelineVocabulary.
Variable E : externals.

(** What the producer has still to put. *)
Definition pending (s : pipeline E) : list (option (item E)) :=
  match producer s with
  | PNext => to_push (detection_generator s)
  | PPut batch => Some batch :: to_push (detection_generator s)
  | PPutNone => [None]
  | PDone => []
  | PCrashed _ => []
  end.

(** The results of the batches [bs], batch after batch. *)
Definition postprocess_all (pool : bool) (bs : list (item E))
    : res (list (TextDetectionResult E)) :=
  rs ← rmap (postprocess E pool) bs; Ok (concat rs).

(** Nothing in the run can raise: the generator is exhausted normally,
    every batch it yields post-processes, and the pool, if any, can be
    created. *)
Definition run_safe (par : bool) (workers : Z) (g : gen (item E)) : Prop :=
  gen_ok g /\
  (exists rs, postprocess_all par (gen_items g) = Ok rs) /\
  (par = true -> 0 < workers).

(** The entries the consumer has taken from the queue so far, as the
    consumer's position and the results account for them. *)
Definition consumer_view (par : bool) (workers : Z) (g0 : gen (item E))
    (s : pipeline E) (consumed : list (option (item E))) : Prop :=
  match consumer s with
  | CEnter => consumed = [] /\ results s = []
  | CLoop pool =>
      pool = par /\
      exists bs, consumed = map Some bs /\
                 postprocess_all par bs = Ok (results s)
  | CDone =>
      exists bs, consumed = map Some bs ++ [None] /\
                 postprocess_all par bs = Ok (results s)
  | CCrashed _ =>
      (par = true /\ workers <= 0) \/
      (exists bs b e, consumed = map Some (bs ++ [b]) /\
                      postprocess E par b = Raise e)
  end.

(** The invariant of the stream: what was taken, what is queued and what
    is still to be put make up, in this order, what the generator
    dictates. *)
Definition stream_inv (par : bool) (workers : Z) (g0 : gen (item E))
    (s : pipeline E) : Prop :=
  exists consumed,
    consumed ++ batch_queue s ++ pending s = to_push g0 /\
    consumer_view par workers g0 s consumed.

End PipelineVocabulary.

(** ** Reading a trace *)

Definition is_put (e : event) : bool :=
  match e with EvPut _ => true | _ => false end.

Definition is_put_batch (e : event) : bool :=
  match e with EvPut false => true | _ => false end.

Definition is_infer (e : event) : bool :=
  match e with EvInfer => true | _ => false end.

(** The events of the consumer: the pool and the calls of the extractor. *)
Definition is_consumer_event (e : event) : bool :=
  match e with
  | EvPoolOpen _ | EvPoolMap _ | EvInProcess _ | EvPoolClose => true
  | _ => false
  end.

Definition is_batch {A : Type} (o : option A) : bool :=
  match o with Some _ => true | None => false end.

(** The [put] of a queue entry. *)
Definition put_event {A : Type} (o : option A) : event :=
  EvPut (negb (is_batch o)).

Definition open_pool (pool : bool) (workers : Z) : list event :=
  if pool then [EvPoolOpen workers] else [].

(** The post-processing of one batch of [calls] images. *)
Definition batch_event (pool : bool) (calls : nat) : event :=
  if pool then EvPoolMap calls else EvInProcess calls.

(** The events of a consumer that went through its loop: the pool, if any,
    is opened once, serves every batch, and is closed at the end. *)
Definition consumer_session (pool : bool) (workers : Z) (calls : list nat)
    : list event :=
  open_pool pool workers ++ map (batch_event pool) calls ++ leave_pool pool.

Section TraceVocabulary.
Variable E : externals.

(** The batches put so far that the consumer has not yet taken. *)
Definition batches_queued (s : pipeline E) : nat :=
  length (List.filter is_batch (batch_queue s)).

Definition batches_put (s : pipeline E) : nat :=
  length (List.filter is_put_batch (trace s)).

(** The invariant of the trace: the puts made and the puts to come are the
    puts the generator dictates; the generator was resumed once per item it
    no longer holds; the consumer opened the pool only on the pool path,
    before its first batch, and post-processed every batch it took in the
    way of its path. *)
Definition trace_inv (par : bool) (workers : Z) (g0 : gen (item E))
    (s : pipeline E) : Prop :=
  List.filter is_put (trace s) ++ map put_event (pending E s)
    = map put_event (to_push g0) /\
  (length (List.filter is_infer (trace s)) +
     length (gen_items (detection_generator s))
   = length (gen_items g0))%nat /\
  exists calls : list nat,
    match consumer s with
    | CEnter =>
        List.filter is_consumer_event (trace s) = [] /\
        calls = [] /\ batches_queued s = batches_put s
    | CLoop pool =>
        pool = par /\
        List.filter is_consumer_event (trace s)
          = open_pool par workers ++ map (batch_event par) calls /\
        (length calls + batches_queued s = batches_put s)%nat
    | CDone =>
        List.filter is_consumer_event (trace s)
          = consumer_session par workers calls /\
        (length calls + batches_queued s = batches_put s)%nat
    | CCrashed _ =>
        List.filter is_consumer_event (trace s) = [] \/
        List.filter is_consumer_event (trace s)
          = consumer_session par workers calls
    end.

End TraceVocabulary.

(** ** A concrete instance, for evaluating the definitions

    The network is replaced by a table whose entry names its own position
    (tile, channel, row, column), so that every row of a result can be
    traced to the tile it comes from; the window is 4 rows of 2 columns. *)

Definition demo_externals : externals :=
  {| px := Z;
     pixels := unit;
     pixel_values := Z;
     polygon_boxes := list Z;
     column_lines := list Z;
     gray_image := nat;
     convert_data := fun _ d => d;
     prepare_image_detection := fun t _ => tile_valid_height t;
     model_logits := fun _ =>
       {| t_rows := 4;
          t_cols := 2;
          t_at := fun i k r c => Z.of_nat (1000 * i + 100 * k + 10 * r + c) |};
     num_labels := 2;
     bilinear := fun t _ _ i k _ _ => t_at t i k 0%nat 0%nat;
     fromarray_uint8 := fun a => length (nd_rows a);
     get_and_clean_boxes := fun _ sz _ => sz;
     get_vertical_lines := fun _ sz _ => sz |}.

Definition demo_processor : processor := {| size_height := 4; size_width := 2 |}.

Definition demo_image (height : Z) : image unit :=
  {| im_width := 2; im_height := height; im_mode := "L"; im_data := tt |}.

Definition demo_logits : tensor Z :=
  adapt_logits demo_externals demo_processor (model_logits demo_externals []).

Definition demo_settings : Settings :=
  {| DETECTOR_BATCH_SIZE := Some 4;
     TORCH_DEVICE_MODEL := "cpu";
     DETECTOR_POSTPROCESSING_CPU_WORKERS := 8;
     DETECTOR_MIN_PARALLEL_THRESH := 3;
     IN_STREAMLIT := false |}.

Definition demo_images : list (image unit) :=
  [demo_image 7; demo_image 3; demo_image 9].

(** A schedule that lets the three threads move in turn, [n] times. *)
Definition round_robin (n : nat) : list actor :=
  concat (repeat [Producer; Consumer; Main] n).

(** ** Vocabulary of the further properties *)

(** *** The planner *)

(** Every pair of neighbours of a list is related. *)
Definition adjacent {A : Type} (R : A -> A -> Prop) (l : list A) : Prop :=
  forall k x y, l !! k = Some x -> l !! S k = Some y -> R x y.

(** The image that opens batch [c] would not have fitted into batch [b]. *)
Definition next_overflows (splits_per_image : list Z) (batch_size : Z)
    (b c : list nat) : Prop :=
  match c with
  | j :: _ => batch_size < batch_tiles splits_per_image b + nth j splits_per_image 0
  | [] => True
  end.

(** *** What the generator yields *)

(** A heatmap of shape [(rows, cols)]: [rows] rows of [cols] entries. *)
Definition heatmap_shaped {A : Type} (rows cols : Z) (a : ndarray2 A) : Prop :=
  length (nd_rows a) = Z.to_nat rows /\
  Forall (fun row => length row = Z.to_nat cols) (nd_rows a) /\
  nd_cols a = Z.to_nat cols.

Section GeneratorVocabulary.
Variable E : externals.

(** Line 62 for the batch of the images [a], ..., [a + m - 1]: these
    images, each converted to RGB. *)
Definition batch_images_of (images : list (image (pixels E))) (a m : nat)
    : list (image (pixels E)) :=
  map (convert E "RGB") (take m (drop a images)).

(** Lines 64-71: the tiles of these images, image after image. *)
Definition batch_tiles_of (proc : processor) (images : list (image (pixels E)))
    (a m : nat) : list (tile (pixels E)) :=
  concat (map (fun im => fst (split_image im proc)) (batch_images_of images a m)).

(** Lines 73-84: the logits of the network on the prepared tiles, brought
    to the shape of the processor. *)
Definition batch_logits (proc : processor) (images : list (image (pixels E)))
    (a m : nat) : tensor (px E) :=
  adapt_logits E proc
    (model_logits E
       (map (fun t => prepare_image_detection E t proc)
            (batch_tiles_of proc images a m))).

(** Lines 87-105: what the generator yields for this batch, the heatmaps
    reassembled image by image and the original sizes of the images. *)
Definition batch_item (proc : processor) (images : list (image (pixels E)))
    (a m : nat) : item E :=
  (batch_heatmaps (size_height proc) (num_labels E)
     (batch_logits proc images a m) 0
     (map (fun im => snd (split_image im proc)) (batch_images_of images a m)),
   take m (drop a (map size images))).

(** The same for a batch given as the list of its indices, a range. *)
Definition item_of_batch (proc : processor) (images : list (image (pixels E)))
    (b : list nat) : item E :=
  batch_item proc images (hd 0%nat b) (length b).

(** An item pairs every original size [(w, h)] with [heatmap_count]
    heatmaps of [max h H] rows of [W] entries, [H] and [W] being the
    height and the width of the processor. *)
Definition item_shaped (proc : processor) (heatmap_count : nat) (it : item E)
    : Prop :=
  Forall2 (fun hms (sz : Z * Z) =>
             length hms = heatmap_count /\
             Forall (heatmap_shaped (Z.max (snd sz) (size_height proc))
                                    (size_width proc)) hms)
          (fst it) (snd it).

End GeneratorVocabulary.

(** *** The account of the consumer *)

Section AccountVocabulary.
Variable E : externals.

(** What the consumer has taken and what it has made of it, in every
    position, the ones it reaches by an exception included. *)
Definition consumer_account (par : bool) (workers : Z) (s : pipeline E)
    (consumed : list (option (item E))) : Prop :=
  match consumer s with
  | CEnter => consumed = [] /\ results s = []
  | CLoop pool =>
      pool = par /\ (par = true -> 0 < workers) /\
      exists bs, consumed = map Some bs /\
                 postprocess_all E par bs = Ok (results s)
  | CDone =>
      (par = true -> 0 < workers) /\
      exists bs, consumed = map Some bs ++ [None] /\
                 postprocess_all E par bs = Ok (results s)
  | CCrashed e =>
      (par = true /\ workers <= 0 /\ e = ValueError /\
       consumed = [] /\ results s = []) \/
      ((par = true -> 0 < workers) /\
       exists bs b, consumed = map Some (bs ++ [b]) /\
                    postprocess_all E par bs = Ok (results s) /\
                    postprocess E par b = Raise e)
  end.

(** What was taken, what is queued and what is still to be put make up,
    in this order, what the generator dictates. *)
Definition account_inv (par : bool) (workers : Z) (g0 : gen (item E))
    (s : pipeline E) : Prop :=
  exists consumed,
    consumed ++ batch_queue s ++ pending E s = to_push g0 /\
    consumer_account par workers s consumed.

End AccountVocabulary.

(** *** Backpressure *)

(** The post-processing of one batch, on either path. *)
Definition is_postprocess (e : event) : bool :=
  match e with
  | EvPoolMap _ | EvInProcess _ => true
  | _ => false
  end.

Section BackpressureVocabulary.
Variable E : externals.

(** The batches the model has been run on and the batches post-processed
    so far. *)
Definition inferred (s : pipeline E) : nat :=
  length (List.filter is_infer (trace s)).

Definition postprocessed (s : pipeline E) : nat :=
  length (List.filter is_postprocess (trace s)).

(** The batch the producer holds between the generator and the queue. *)
Definition in_hand (s : pipeline E) : nat :=
  match producer s with
  | PPut _ => 1
  | _ => 0
  end.

End BackpressureVocabulary.

(** *** Batchings compared *)

(** The images in the first [k] batches of a plan. *)
Definition images_before (plan : list (list nat)) (k : nat) : nat :=
  length (concat (take k plan)).

(** The tiles of the first [i] images. *)
Definition tiles_before (splits_per_image : list Z) (i : nat) : Z :=
  zsum (take i splits_per_image).

(** *** Further instances *)

(** The same network with a single label. *)
Definition demo_externals_one_label : externals :=
  {| px := Z;
     pixels := unit;
     pixel_values := Z;
     polygon_boxes := list Z;
     column_lines := list Z;
     gray_image := nat;
     convert_data := fun _ d => d;
     prepare_image_detection := fun t _ => tile_valid_height t;
     model_logits := fun _ =>
       {| t_rows := 4;
          t_cols := 2;
          t_at := fun i k r c => Z.of_nat (1000 * i + 100 * k + 10 * r + c) |};
     num_labels := 1;
     bilinear := fun t _ _ i k _ _ => t_at t i k 0%nat 0%nat;
     fromarray_uint8 := fun a => length (nd_rows a);
     get_and_clean_boxes := fun _ sz _ => sz;
     get_vertical_lines := fun _ sz _ => sz |}.

(** The settings of a host that leaves no worker to the pool. *)
Definition demo_settings_no_workers : Settings :=
  {| DETECTOR_BATCH_SIZE := Some 4;
     TORCH_DEVICE_MODEL := "cpu";
     DETECTOR_POSTPROCESSING_CPU_WORKERS := 0;
     DETECTOR_MIN_PARALLEL_THRESH := 3;
     IN_STREAMLIT := false |}.

(** An image of seven rows followed by one without any row. *)
Definition demo_images_one_empty : list (image unit) :=
  [demo_image 7; demo_image 0].

(** *** The session of the consumer *)

Section SessionVocabulary.
Variable E : externals.

(** The events of the consumer, read against the batches it has taken:
    one post-processing per batch, of as many calls as the batch yields
    results. *)
Definition consumer_events (par : bool) (workers : Z) (s : pipeline E)
    (consumed : list (option (item E))) : Prop :=
  match consumer s with
  | CEnter =>
      consumed = [] /\ List.filter is_consumer_event (trace s) = []
  | CLoop pool =>
      pool = par /\
      exists bs rss,
        consumed = map Some bs /\
        rmap (postprocess E par) bs = Ok rss /\
        List.filter is_consumer_event (trace s)
        = open_pool par workers ++ map (batch_event par) (map length rss)
  | CDone =>
      exists bs rss,
        consumed = map Some bs ++ [None] /\
        rmap (postprocess E par) bs = Ok rss /\
        List.filter is_consumer_event (trace s)
        = consumer_session par workers (map length rss)
  | CCrashed _ => True
  end.

Definition session_inv (par : bool) (workers : Z) (g0 : gen (item E))
    (s : pipeline E) : Prop :=
  exists consumed,
    consumed ++ batch_queue s ++ pending E s = to_push g0 /\
    consumer_events par workers s consumed.

End SessionVocabulary.

(** *** The result of one image *)

Section ResultVocabulary.
Variable E : externals.

(** The tiles of the images [a], ..., [a + p - 1], counted: the position,
    among the tiles of a batch that starts at image [a], of the first tile
    of the image at position [p] of the batch. *)
Definition tiles_offset (proc : processor) (images : list (image (pixels E)))
    (a p : nat) : nat :=
  length (batch_tiles_of E proc images a p).

End ResultVocabulary.

(** The settings of a host whose parallel threshold is zero. *)
Definition demo_settings_eager : Settings :=
  {| DETECTOR_BATCH_SIZE := Some 4;
     TORCH_DEVICE_MODEL := "cpu";
     DETECTOR_POSTPROCESSING_CPU_WORKERS := 8;
     DETECTOR_MIN_PARALLEL_THRESH := 0;
     IN_STREAMLIT := false |}.

(** An image followed by the path of one. *)
Definition demo_images_and_path : list (pyobj unit) :=
  [PyImage (demo_image 7); PyOther "page-2.png"].

(* ================================================================== *)
(** * Part II: lemmas and theorems *)
(* ================================================================== *)

(** ** The Batch Planner *)

Lemma batch_tiles_app splits b1 b2 :
  batch_tiles splits (b1 ++ b2) = batch_tiles splits b1 + batch_tiles splits b2.
Proof.
  unfold batch_tiles. induction b1 as [|i b1 IH]; simpl; [reflexivity|].
  rewrite IH. lia.
Qed.

Lemma batch_tiles_single splits i :
  batch_tiles splits [i] = nth i splits 0.
Proof. unfold batch_tiles; simpl. lia. Qed.

Lemma plan_loop_S splits batch_size n :
  plan_loop splits batch_size (S n) =
  plan_step splits batch_size (plan_loop splits batch_size n) n.
Proof.
  unfold plan_loop. rewrite seq_S, fold_left_app. reflexivity.
Qed.

(** The loop invariant after [n] images. *)
Record plan_inv (splits : list Z) (batch_size : Z) (n : nat)
    (st : plan_state) : Prop := {
  inv_order : concat (batches st) ++ current_batch st = seq 0 n;
  inv_nonempty : Forall (fun b => b <> []) (batches st);
  inv_closed : Forall (within_budget splits batch_size) (batches st);
  inv_size : current_batch_size st = batch_tiles splits (current_batch st);
  inv_open : current_batch st = [] \/
             within_budget splits batch_size (current_batch st)
}.

Lemma plan_loop_inv splits batch_size n :
  plan_inv splits batch_size n (plan_loop splits batch_size n).
Proof.
  induction n as [|n IH].
  - split; simpl; auto.
  - rewrite plan_loop_S. destruct IH as [Ho Hn Hc Hs Hop].
    set (st := plan_loop splits batch_size n) in *.
    assert (Hone : within_budget splits batch_size [n] \/
                   nth n splits 0 <= batch_size).
    { destruct (Z_le_gt_dec (nth n splits 0) batch_size); [right; lia|].
      left. right. exists n. split; [reflexivity | lia]. }
    assert (Hfresh : @nil nat ++ [n] = [] \/
                     within_budget splits batch_size ([] ++ [n])).
    { right. destruct Hone as [H|H]; [exact H|].
      left. unfold batch_tiles; simpl. lia. }
    unfold plan_step.
    destruct (current_batch_size st + nth n splits 0 >? batch_size) eqn:Hgt.
    + (* the running batch is closed *)
      destruct (current_batch st) as [|j cur] eqn:Hcur;
        cbn [length Nat.ltb Nat.leb batches current_batch current_batch_size].
      * split; cbn [batches current_batch current_batch_size]; auto.
        -- rewrite seq_S, <- Ho, Nat.add_0_l, <- app_assoc. reflexivity.
        -- unfold batch_tiles; simpl. lia.
      * split; cbn [batches current_batch current_batch_size].
        -- rewrite concat_app, seq_S, <- Ho, Nat.add_0_l. simpl.
           rewrite app_nil_r. reflexivity.
        -- apply Forall_app; split; auto.
        -- apply Forall_app; split; auto.
           constructor; auto.
           destruct Hop as [Hop|Hop]; [discriminate | exact Hop].
        -- unfold batch_tiles; simpl. lia.
        -- exact Hfresh.
    + (* the image joins the running batch *)
      assert (Hle : current_batch_size st + nth n splits 0 <= batch_size).
      { rewrite Z.gtb_ltb in Hgt. apply Z.ltb_ge in Hgt. exact Hgt. }
      split; cbn [batches current_batch current_batch_size]; auto.
      * rewrite app_assoc, Ho, seq_S. reflexivity.
      * rewrite batch_tiles_app, batch_tiles_single, Hs. reflexivity.
      * right. left. rewrite batch_tiles_app, batch_tiles_single, <- Hs.
        exact Hle.
Qed.

Lemma plan_batches_inv splits batch_size :
  let plan := plan_batches splits batch_size in
  concat plan = seq 0 (length splits) /\
  Forall (fun b => b <> []) plan /\
  Forall (within_budget splits batch_size) plan.
Proof.
  unfold plan_batches.
  destruct (plan_loop_inv splits batch_size (length splits))
    as [Ho Hn Hc Hs Hop].
  set (st := plan_loop splits batch_size (length splits)) in *.
  destruct (current_batch st) as [|j cur] eqn:Hcur; cbn [length Nat.ltb Nat.leb].
  - rewrite app_nil_r in Ho. auto.
  - rewrite concat_app. simpl. rewrite app_nil_r. split; [exact Ho|].
    split; apply Forall_app; split; auto.
    constructor; auto.
    destruct Hop as [Hop|Hop]; [discriminate | exact Hop].
Qed.

(** Two batches of a duplicate-free concatenation share no element. *)
Lemma concat_NoDup_unique {A : Type} (l : list (list A)) :
  NoDup (concat l) ->
  forall (k1 k2 : nat) (b1 b2 : list A) (x : A),
    l !! k1 = Some b1 -> l !! k2 = Some b2 ->
    In x b1 -> In x b2 -> k1 = k2.
Proof.
  induction l as [|b l IH]; intros Hnd k1 k2 b1 b2 x H1 H2 Hx1 Hx2.
  - destruct k1; discriminate.
  - simpl in Hnd. apply NoDup_app in Hnd as (Hb & Hdisj & Hl).
    assert (Hin : forall k b', l !! k = Some b' -> In x b' -> In x (concat l)).
    { intros k b' Hk Hb'. apply in_concat. exists b'. split; [|exact Hb'].
      apply list_elem_of_In. eapply list_elem_of_lookup_2. exact Hk. }
    destruct k1 as [|k1], k2 as [|k2]; simpl in H1, H2.
    + reflexivity.
    + injection H1 as <-. exfalso.
      apply (Hdisj x); [apply list_elem_of_In; exact Hx1|].
      apply list_elem_of_In. eapply Hin; eauto.
    + injection H2 as <-. exfalso.
      apply (Hdisj x); [apply list_elem_of_In; exact Hx2|].
      apply list_elem_of_In. eapply Hin; eauto.
    + f_equal. eapply IH; eauto.
Qed.

(** C1.  For every list of per-image tile counts and every budget (in
    particular every positive one), the batches planned by the loop of
    [batch_detection], concatenated, are exactly the image indices
    [0, 1, ..., n-1] in input order, each image once; no batch is empty; an
    image belongs to one batch only, so its tiles are never divided between
    two batches; and every batch either keeps its total tile count within the
    budget or is a single image whose tile count alone exceeds the budget. *)
Theorem C1_batch_planner (splits_per_image : list Z) (batch_size : Z) :
  let plan := plan_batches splits_per_image batch_size in
  concat plan = seq 0 (length splits_per_image) /\
  Forall (fun b => b <> []) plan /\
  (forall (k1 k2 : nat) (b1 b2 : list nat) (i : nat),
      plan !! k1 = Some b1 -> plan !! k2 = Some b2 ->
      In i b1 -> In i b2 -> k1 = k2) /\
  Forall (fun b =>
            batch_tiles splits_per_image b <= batch_size \/
            exists i, b = [i] /\ batch_size < nth i splits_per_image 0) plan.
Proof.
  intros plan.
  destruct (plan_batches_inv splits_per_image batch_size) as (Ho & Hn & Hb).
  fold plan in Ho, Hn, Hb.
  repeat split; auto.
  apply concat_NoDup_unique. rewrite Ho. apply NoDup_seq.
Qed.

(** The scenario of C4: ten images, tile counts 3, 3 and eight times 1. *)
Definition scenario_splits : list Z := [3; 3; 1; 1; 1; 1; 1; 1; 1; 1].

(** C4, as stated, fails: the second batch is not image 1 alone.  After image
    1 (3 tiles) the running total is 3, and image 2 adds 1 tile, which
    reaches the budget of 4 without exceeding it, so image 2 joins image 1. *)
Lemma C4_counterexample :
  plan_batches scenario_splits 4 <> [[0]; [1]; [2; 3; 4; 5]; [6; 7; 8; 9]]%nat /\
  plan_batches scenario_splits 4 !! 1%nat = Some [1; 2]%nat.
Proof. split; [discriminate | reflexivity]. Qed.

(** C4, amended.  On that input with a budget of 4 tiles the planner produces
    exactly four batches, [[0]], [[1; 2]], [[3; 4; 5; 6]] and [[7; 8; 9]]:
    every image once, in input order, and every batch within the budget. *)
Theorem C4_scenario_batches :
  plan_batches scenario_splits 4 = [[0]; [1; 2]; [3; 4; 5; 6]; [7; 8; 9]]%nat /\
  length (plan_batches scenario_splits 4) = 4%nat /\
  concat (plan_batches scenario_splits 4) = seq 0 10 /\
  Forall (fun b => batch_tiles scenario_splits b <= 4)
         (plan_batches scenario_splits 4).
Proof.
  repeat split.
  repeat constructor; vm_compute; discriminate.
Qed.

(** ** The Tiler *)

Lemma zsum_app l1 l2 : zsum (l1 ++ l2) = zsum l1 + zsum l2.
Proof. unfold zsum. induction l1; simpl; lia. Qed.

(** [ceil_div a b] is the least [n] with [a <= n * b]. *)
Lemma ceil_div_spec a b :
  0 < b -> (ceil_div a b - 1) * b < a <= ceil_div a b * b.
Proof.
  intros Hb. unfold ceil_div.
  pose proof (Z.div_mod (- a) b ltac:(lia)) as Hdm.
  pose proof (Z.mod_pos_bound (- a) b Hb) as Hmod.
  nia.
Qed.

Lemma ceil_div_unique a b n :
  0 < b -> (n - 1) * b < a <= n * b -> ceil_div a b = n.
Proof.
  intros Hb Hn. pose proof (ceil_div_spec a b Hb) as Hc. nia.
Qed.

Lemma ceil_div_nonneg a b : 0 < b -> 0 <= a -> 0 <= ceil_div a b.
Proof. intros Hb Ha. pose proof (ceil_div_spec a b Hb). nia. Qed.

Lemma ceil_div_pos a b : 0 < b -> 0 < a -> 0 < ceil_div a b.
Proof. intros Hb Ha. pose proof (ceil_div_spec a b Hb). nia. Qed.

Section Tiler.
Context {P : Type}.

Lemma split_image_parts (im : image P) proc :
  snd (split_image im proc) = map tile_valid_height (fst (split_image im proc)).
Proof. reflexivity. Qed.

Lemma split_image_length (im : image P) proc :
  length (fst (split_image im proc)) =
    Z.to_nat (get_total_splits (size im) proc) /\
  length (snd (split_image im proc)) =
    Z.to_nat (get_total_splits (size im) proc).
Proof.
  unfold split_image; simpl. rewrite !length_map, length_seq. auto.
Qed.

(** The valid heights of the first [m] tiles add up to the rows they
    cover. *)
Lemma valid_heights_prefix (img_height window : Z) (m : nat) :
  0 < window -> 0 <= img_height ->
  (Z.of_nat m - 1) * window < img_height ->
  zsum (map (fun i : nat =>
               Z.min (Z.of_nat i * window + window) img_height
               - Z.of_nat i * window) (seq 0 m))
  = Z.min (Z.of_nat m * window) img_height.
Proof.
  intros Hw Hh. induction m as [|m IH]; intros Hm.
  - simpl. lia.
  - rewrite seq_S, map_app, zsum_app, IH by nia.
    cbn [map zsum fold_right]. rewrite Nat.add_0_l. nia.
Qed.

Lemma split_image_heights (im : image P) proc :
  snd (split_image im proc) =
  map (fun i : nat =>
         Z.min (Z.of_nat i * size_height proc + size_height proc) (im_height im)
         - Z.of_nat i * size_height proc)
      (seq 0 (Z.to_nat (get_total_splits (size im) proc))).
Proof. unfold split_image; simpl. rewrite map_map. reflexivity. Qed.

Lemma split_image_sum (im : image P) proc :
  0 < size_height proc -> 0 <= im_height im ->
  zsum (snd (split_image im proc)) = im_height im.
Proof.
  intros Hw Hh. rewrite split_image_heights.
  unfold get_total_splits; simpl.
  pose proof (ceil_div_spec (im_height im) (size_height proc) Hw) as Hc.
  pose proof (ceil_div_nonneg _ _ Hw Hh) as Hn.
  rewrite valid_heights_prefix; rewrite ?Z2Nat.id; lia.
Qed.

(** C5.  For an image of height [H >= 0] and a window height [W > 0], the
    tile count [get_total_splits] is [ceil(H / W)], the integer [n] with
    [(n - 1) * W < H <= n * W]; tiling the image produces exactly [n] tiles
    and [n] valid heights, one per tile, and the valid heights add up to
    [H]. *)
Theorem C5_tile_count (im : image P) (proc : processor) :
  0 < size_height proc -> 0 <= im_height im ->
  let n := get_total_splits (size im) proc in
  (n - 1) * size_height proc < im_height im <= n * size_height proc /\
  n = (im_height im + size_height proc - 1) / size_height proc /\
  length (fst (split_image im proc)) = Z.to_nat n /\
  snd (split_image im proc) = map tile_valid_height (fst (split_image im proc)) /\
  zsum (snd (split_image im proc)) = im_height im.
Proof.
  intros Hw Hh n.
  pose proof (ceil_div_spec (im_height im) (size_height proc) Hw) as Hc.
  split; [exact Hc|]. split.
  - unfold n, get_total_splits; simpl.
    apply Z.div_unique_pos with
      (r := im_height im + size_height proc - 1
            - size_height proc * ceil_div (im_height im) (size_height proc));
      lia.
  - split; [apply split_image_length|].
    split; [apply split_image_parts | apply split_image_sum; assumption].
Qed.

Lemma split_image_bounds (im : image P) proc :
  0 < size_height proc -> 0 <= im_height im ->
  Forall (fun h => 0 < h <= size_height proc) (snd (split_image im proc)).
Proof.
  intros Hw Hh. rewrite split_image_heights.
  apply Forall_map, List.Forall_forall. intros i Hi. apply in_seq in Hi.
  unfold get_total_splits in Hi; cbn in Hi.
  pose proof (ceil_div_spec (im_height im) (size_height proc) Hw) as Hc.
  pose proof (ceil_div_nonneg _ _ Hw Hh) as Hn.
  cbn. nia.
Qed.

(** An image with at least one row has a first tile, of valid height
    [min W H]. *)
Lemma split_image_first (im : image P) proc :
  0 < size_height proc -> 0 < im_height im ->
  exists rest,
    snd (split_image im proc)
    = Z.min (size_height proc) (im_height im) :: rest.
Proof.
  intros Hw Hh. rewrite split_image_heights.
  pose proof (ceil_div_pos (im_height im) (size_height proc) Hw Hh) as Hn.
  unfold get_total_splits; cbn [snd size].
  destruct (Z.to_nat (ceil_div (im_height im) (size_height proc)))
    as [|m] eqn:Hm; [lia|].
  cbn [seq map]. eexists. f_equal. lia.
Qed.

Lemma split_image_nonempty (im : image P) proc :
  0 < size_height proc -> 0 < im_height im ->
  snd (split_image im proc) <> [].
Proof.
  intros Hw Hh. destruct (split_image_first im proc Hw Hh) as [rest ->].
  discriminate.
Qed.

(** One row short of [k] windows: [k] tiles, the last with [W - 1] valid
    rows. *)
Lemma split_image_one_row_short (im : image P) proc (k : Z) :
  2 <= size_height proc -> 1 <= k ->
  im_height im = k * size_height proc - 1 ->
  get_total_splits (size im) proc = k /\
  last (snd (split_image im proc)) = Some (size_height proc - 1).
Proof.
  intros Hw Hk HH.
  assert (Hn : get_total_splits (size im) proc = k).
  { unfold get_total_splits; cbn [snd size].
    apply ceil_div_unique; nia. }
  split; [exact Hn|].
  rewrite split_image_heights, Hn.
  replace (Z.to_nat k) with (S (Z.to_nat (k - 1))) by lia.
  rewrite seq_S, map_app. cbn [map]. rewrite last_snoc. f_equal.
  rewrite Nat.add_0_l, Z2Nat.id by lia. nia.
Qed.

End Tiler.

(** ** The Inference Adapter *)

Section Adapter.
Variable E : externals.

Lemma adapt_logits_shape proc (logits : tensor (px E)) :
  shape2 (adapt_logits E proc logits) = [size_height proc; size_width proc].
Proof.
  unfold adapt_logits. destruct (decide _) as [Hne|Heq].
  - reflexivity.
  - destruct (decide (shape2 logits = [size_height proc; size_width proc]));
      [assumption | contradiction].
Qed.

Lemma adapt_logits_rows proc (logits : tensor (px E)) :
  t_rows (adapt_logits E proc logits) = size_height proc.
Proof.
  pose proof (adapt_logits_shape proc logits) as H.
  unfold shape2 in H. congruence.
Qed.

Lemma tile_heatmap_length {A : Type} (t : tensor A) i k :
  length (nd_rows (tile_heatmap t i k)) = Z.to_nat (t_rows t).
Proof. cbn [tile_heatmap nd_rows]. rewrite length_map, length_seq. reflexivity. Qed.

Lemma tile_heatmap_width {A : Type} (t : tensor A) i k :
  Forall (fun row => length row = Z.to_nat (t_cols t))
         (nd_rows (tile_heatmap t i k)).
Proof.
  cbn [tile_heatmap nd_rows]. apply Forall_map, Forall_forall. intros r _.
  rewrite length_map, length_seq. reflexivity.
Qed.

Lemma tile_heatmap_cols {A : Type} (t : tensor A) i k :
  nd_cols (tile_heatmap t i k) = Z.to_nat (t_cols t).
Proof. reflexivity. Qed.

(** C7.  The logits that leave the Inference Adapter have the canonical
    shape [[processor height, processor width]]: they are the bilinear
    resampling to that shape when the native shape differs and the native
    logits themselves when it does not, and every per-tile, per-channel
    heatmap cut from them has processor-height rows of processor-width
    entries, its column count being the processor width. *)
Theorem C7_canonical_resolution (proc : processor) (logits : tensor (px E)) :
  let out := adapt_logits E proc logits in
  shape2 out = [size_height proc; size_width proc] /\
  (shape2 logits <> [size_height proc; size_width proc] ->
   out = interpolate E logits (size_height proc) (size_width proc)) /\
  (shape2 logits = [size_height proc; size_width proc] -> out = logits) /\
  (forall i k : nat,
      length (nd_rows (tile_heatmap out i k)) = Z.to_nat (size_height proc) /\
      Forall (fun row => length row = Z.to_nat (size_width proc))
             (nd_rows (tile_heatmap out i k)) /\
      nd_cols (tile_heatmap out i k) = Z.to_nat (size_width proc)).
Proof.
  intros out. pose proof (adapt_logits_shape proc logits) as Hs.
  fold out in Hs.
  split; [exact Hs|]. split; [|split].
  - intros Hne. unfold out, adapt_logits.
    destruct (decide _); [reflexivity | contradiction].
  - intros Heq. unfold out, adapt_logits.
    destruct (decide _); [contradiction | reflexivity].
  - intros i k. unfold shape2 in Hs.
    assert (t_rows out = size_height proc) as Hr by congruence.
    assert (t_cols out = size_width proc) as Hc by congruence.
    rewrite <- Hr, <- Hc.
    split; [apply tile_heatmap_length|].
    split; [apply tile_heatmap_width | apply tile_heatmap_cols].
Qed.

End Adapter.

(** ** The Tile Reassembler *)

Lemma rfold_app {A B : Type} (f : B -> A -> res B) (l1 l2 : list A) (acc : B) :
  rfold f (l1 ++ l2) acc = rbind (rfold f l1 acc) (rfold f l2).
Proof.
  revert acc. induction l1 as [|x l1 IH]; intros acc; simpl; [reflexivity|].
  destruct (f acc x); simpl; [apply IH | reflexivity].
Qed.

Lemma lookup_map_seq {A : Type} (G : nat -> A) (n j : nat) :
  (j < n)%nat -> map G (seq 0 n) !! j = Some (G j).
Proof.
  intros Hj. change (map G (seq 0 n)) with (G <$> seq 0 n).
  rewrite list_lookup_fmap, lookup_seq_lt by exact Hj. reflexivity.
Qed.

Lemma map_seq_ext {A : Type} (F G : nat -> A) (n : nat) :
  (forall k, (k < n)%nat -> F k = G k) -> map F (seq 0 n) = map G (seq 0 n).
Proof.
  intros H. apply map_ext_in. intros k Hk. apply in_seq in Hk. apply H. lia.
Qed.

Lemma insert_map_seq {A : Type} (G : nat -> A) (n j : nat) (v : A) :
  <[j := v]> (map G (seq 0 n)) =
  map (fun k => if decide (k = j) then v else G k) (seq 0 n).
Proof.
  apply list_eq. intros i.
  destruct (decide (i < n)%nat) as [Hi|Hi].
  - rewrite lookup_map_seq by exact Hi.
    destruct (decide (i = j)) as [->|Hne].
    + rewrite list_lookup_insert_eq; [reflexivity|].
      rewrite length_map, length_seq. exact Hi.
    + rewrite list_lookup_insert_ne by congruence.
      apply lookup_map_seq. exact Hi.
  - rewrite !lookup_ge_None_2; [reflexivity | |].
    + rewrite length_map, length_seq. lia.
    + rewrite length_insert, length_map, length_seq. lia.
Qed.

Section Reassembler.
Variable E : externals.
Variable proc : processor.
Variable heatmap_count : nat.
Variable logits : tensor (px E).

Local Abbreviation array := (ndarray2 (px E)).

Let window := size_height proc.
Local Abbreviation width := (Z.to_nat (t_cols logits)).

Lemma array_eta (a : array) :
  {| nd_cols := nd_cols a; nd_rows := nd_rows a |} = a.
Proof. destruct a; reflexivity. Qed.

Lemma stack_channel_map (G B : nat -> array) (j : nat) :
  (j < heatmap_count)%nat ->
  nd_cols (G j) = nd_cols (B j) ->
  stack_channel E (map B (seq 0 heatmap_count))
                (map G (seq 0 heatmap_count)) j
  = Ok (map (fun k => if decide (k = j)
                      then {| nd_cols := nd_cols (G j);
                              nd_rows := nd_rows (G j) ++ nd_rows (B j) |}
                      else G k)
            (seq 0 heatmap_count)).
Proof.
  intros Hj Hcols. unfold stack_channel, subscript.
  rewrite !lookup_map_seq by exact Hj. cbn. unfold vstack.
  rewrite Hcols, Nat.eqb_refl. cbn. unfold assign.
  rewrite length_map, length_seq.
  destruct (j <? heatmap_count)%nat eqn:Hlt;
    [|apply Nat.ltb_ge in Hlt; lia].
  rewrite insert_map_seq. reflexivity.
Qed.

(** The channel loop stacks channel by channel. *)
Lemma stack_channels_map (A B : nat -> array) :
  (forall k, (k < heatmap_count)%nat -> nd_cols (A k) = nd_cols (B k)) ->
  stack_channels E heatmap_count (map A (seq 0 heatmap_count))
                 (map B (seq 0 heatmap_count))
  = Ok (map (fun k => {| nd_cols := nd_cols (A k);
                         nd_rows := nd_rows (A k) ++ nd_rows (B k) |})
            (seq 0 heatmap_count)).
Proof.
  intros Hcols. unfold stack_channels.
  assert (Hgen : forall m j, (j + m = heatmap_count)%nat ->
    rfold (stack_channel E (map B (seq 0 heatmap_count))) (seq j m)
          (map (fun k => if decide (k < j)%nat
                         then {| nd_cols := nd_cols (A k);
                                 nd_rows := nd_rows (A k) ++ nd_rows (B k) |}
                         else A k)
               (seq 0 heatmap_count))
    = Ok (map (fun k => {| nd_cols := nd_cols (A k);
                           nd_rows := nd_rows (A k) ++ nd_rows (B k) |})
              (seq 0 heatmap_count))).
  { induction m as [|m IH]; intros j Hj.
    - simpl. f_equal. apply map_seq_ext. intros k Hk.
      destruct (decide (k < j)%nat); [reflexivity | lia].
    - cbn [seq rfold]. rewrite stack_channel_map.
      + cbn. rewrite <- (IH (S j)) by lia. f_equal.
        apply map_seq_ext. intros k Hk.
        destruct (decide (k = j)) as [->|Hne].
        * destruct (decide (j < j)%nat); [lia|].
          destruct (decide (j < S j)%nat); [reflexivity | lia].
        * destruct (decide (k < j)%nat), (decide (k < S j)%nat);
            try reflexivity; lia.
      + lia.
      + destruct (decide (j < j)%nat); [lia|]. apply Hcols. lia. }
  rewrite <- (Hgen heatmap_count 0%nat) by lia. reflexivity.
Qed.

Lemma trim_padding_cols (height : Z) (a : array) :
  nd_cols (trim_padding window height a) = nd_cols a.
Proof. unfold trim_padding. destruct (height <? window); reflexivity. Qed.

Lemma pred_heatmaps_trim (i : nat) (height : Z) :
  (if height <? size_height proc
   then map (slice_rows height)
            (map (fun k => tile_heatmap logits i k) (seq 0 heatmap_count))
   else map (fun k => tile_heatmap logits i k) (seq 0 heatmap_count))
  = map (fun k => trim_padding window height (tile_heatmap logits i k))
        (seq 0 heatmap_count).
Proof.
  unfold trim_padding, window.
  destruct (height <? size_height proc); [apply map_map | reflexivity].
Qed.

(** A tile that continues image [p] is trimmed and stacked under what the
    image has accumulated. *)
Lemma reassemble_step_following (p i : nat) (height : Z)
    (done : list (list array)) (A : nat -> array) :
  length done = p ->
  (forall k, nd_cols (A k) = width) ->
  reassemble_step E proc heatmap_count logits
                  (done ++ [map A (seq 0 heatmap_count)]) (i, (p, height))
  = Ok (done ++
        [map (fun k =>
                {| nd_cols := width;
                   nd_rows :=
                     nd_rows (A k) ++
                     nd_rows (trim_padding window height
                                (tile_heatmap logits i k)) |})
             (seq 0 heatmap_count)]).
Proof.
  intros Hp Hcols. unfold reassemble_step.
  rewrite length_app. cbn [length].
  destruct (length done + 1 <=? p)%nat eqn:Hle;
    [apply Nat.leb_le in Hle; lia|].
  unfold subscript at 1.
  rewrite lookup_app_r by lia.
  replace (p - length done)%nat with 0%nat by lia. cbn.
  rewrite pred_heatmaps_trim, stack_channels_map
    by (intros k _; rewrite trim_padding_cols, Hcols; reflexivity).
  cbn.
  unfold assign. rewrite length_app. cbn [length].
  destruct (p <? length done + 1)%nat eqn:Hlt;
    [|apply Nat.ltb_ge in Hlt; lia].
  f_equal. replace p with (length done + 0)%nat by lia.
  rewrite insert_app_r. cbn. do 2 f_equal.
  apply map_seq_ext. intros k _. rewrite Hcols. reflexivity.
Qed.

(** The first tile of image [p] opens its accumulator, untrimmed. *)
Lemma reassemble_step_first (p i : nat) (height : Z)
    (done : list (list array)) :
  length done = p ->
  reassemble_step E proc heatmap_count logits done (i, (p, height))
  = Ok (done ++ [map (fun k => tile_heatmap logits i k) (seq 0 heatmap_count)]).
Proof.
  intros Hp. unfold reassemble_step.
  destruct (length done <=? p)%nat eqn:Hle;
    [reflexivity | apply Nat.leb_gt in Hle; lia].
Qed.

Lemma following_tiles (p : nat) (done : list (list array)) :
  length done = p ->
  forall (rest : list Z) (start : nat) (A : nat -> array),
    (forall k, nd_cols (A k) = width) ->
    rfold (reassemble_step E proc heatmap_count logits)
          (imap (fun t h => ((start + t)%nat, (p, h))) rest)
          (done ++ [map A (seq 0 heatmap_count)])
    = Ok (done ++
          [map (fun k =>
                  {| nd_cols := width;
                     nd_rows :=
                       nd_rows (A k) ++
                       concat (imap (fun t h =>
                                       nd_rows (trim_padding window h
                                                  (tile_heatmap logits
                                                     (start + t) k)))
                                    rest) |})
               (seq 0 heatmap_count)]).
Proof.
  intros Hp. induction rest as [|h rest IH]; intros start A Hcols.
  - cbn. do 2 f_equal. f_equal. apply map_seq_ext. intros k _.
    rewrite app_nil_r, <- (Hcols k). symmetry. apply array_eta.
  - rewrite imap_cons. cbn [rfold].
    rewrite reassemble_step_following by assumption. cbn.
    rewrite (imap_ext _ (fun t h0 => ((S start + t)%nat, (p, h0))))
      by (intros; cbn; do 2 f_equal; lia).
    rewrite IH by (intros k; reflexivity).
    do 2 f_equal. f_equal. apply map_seq_ext. intros k _.
    cbn [nd_rows]. rewrite <- app_assoc. do 3 f_equal.
    f_equal. apply imap_ext. intros; cbn. do 3 f_equal. lia.
Qed.

(** The tiles of one image: the first opens the image, the others follow. *)
Lemma one_image (p : nat) (done : list (list array)) (off : nat)
    (hs : list Z) :
  length done = p -> hs <> [] ->
  rfold (reassemble_step E proc heatmap_count logits)
        (imap (fun t h => ((off + t)%nat, (p, h))) hs) done
  = Ok (done ++ [image_heatmaps window heatmap_count logits off hs]).
Proof.
  intros Hp Hne. destruct hs as [|h0 rest]; [contradiction|].
  rewrite imap_cons. cbn [rfold].
  rewrite reassemble_step_first by exact Hp. cbn.
  rewrite (imap_ext _ (fun t h => ((S off + t)%nat, (p, h))))
    by (intros; cbn; do 2 f_equal; lia).
  rewrite following_tiles by (try exact Hp; intros k; reflexivity).
  do 2 f_equal. f_equal. unfold image_heatmaps. apply map_seq_ext.
  intros k _. cbn [tail]. f_equal.
  f_equal; [rewrite Nat.add_0_r; reflexivity|].
  f_equal. apply imap_ext. intros; cbn. do 3 f_equal. lia.
Qed.

Lemma batch_heatmaps_length off hss :
  length (batch_heatmaps window heatmap_count logits off hss) = length hss.
Proof.
  revert off. induction hss as [|hs hss IH]; intros off; simpl; auto.
Qed.

(** The reassembler over the tiles of a batch in which every image has at
    least one tile. *)
Lemma reassemble_entries (hss : list (list Z)) :
  Forall (fun hs => hs <> []) hss ->
  forall (off p : nat) (done : list (list array)),
    length done = p ->
    rfold (reassemble_step E proc heatmap_count logits)
          (batch_entries off p hss) done
    = Ok (done ++ batch_heatmaps window heatmap_count logits off hss).
Proof.
  induction 1 as [|hs hss Hhs _ IH]; intros off p done Hp.
  - cbn. rewrite app_nil_r. reflexivity.
  - cbn [batch_entries batch_heatmaps].
    rewrite rfold_app, one_image by assumption. cbn [rbind].
    rewrite IH by (rewrite length_app; cbn; lia).
    rewrite <- app_assoc. reflexivity.
Qed.

(** The three parallel lists built by lines 64-71. *)
Lemma split_batch_spec (batch_images : list (image (pixels E))) :
  split_batch E proc batch_images =
  (concat (map (fun im => fst (split_image im proc)) batch_images),
   concat (imap (fun q im => repeat q (length (snd (split_image im proc))))
                batch_images),
   concat (map (fun im => snd (split_image im proc)) batch_images)).
Proof.
  unfold split_batch, enumerate.
  assert (Hgen : forall ims b a1 a2 a3,
    fold_left (split_batch_step E proc)
              (imap (fun n im => ((b + n)%nat, im)) ims) (a1, a2, a3)
    = (a1 ++ concat (map (fun im => fst (split_image im proc)) ims),
       a2 ++ concat (imap (fun q im =>
                             repeat (b + q)%nat
                                    (length (snd (split_image im proc)))) ims),
       a3 ++ concat (map (fun im => snd (split_image im proc)) ims))).
  { induction ims as [|im ims IH]; intros b a1 a2 a3.
    - cbn. rewrite !app_nil_r. reflexivity.
    - rewrite !imap_cons. cbn [fold_left map concat].
      rewrite (imap_ext _ (fun n im0 => ((S b + n)%nat, im0)))
        by (intros; cbn; f_equal; lia).
      unfold split_batch_step at 2.
      destruct (split_image im proc) as [parts heights] eqn:Hsp.
      rewrite IH. cbn [fst snd].
      assert (Hlen : length parts = length heights).
      { pose proof (split_image_length im proc) as [H1 H2].
        rewrite Hsp in H1, H2. cbn [fst snd] in H1, H2. congruence. }
      rewrite <- !app_assoc, Hlen, Nat.add_0_r.
      match goal with
      | |- context [imap ?F ims] =>
          match goal with
          | |- context [imap (?G ∘ S) ims] =>
              rewrite (imap_ext F (G ∘ S) ims)
                by (intros; cbn; f_equal; lia)
          end
      end.
      reflexivity. }
  apply (Hgen batch_images 0%nat [] [] []).
Qed.

Lemma combine_app_eq {A B : Type} (l1 l2 : list A) (k1 k2 : list B) :
  length l1 = length k1 ->
  combine (l1 ++ l2) (k1 ++ k2) = combine l1 k1 ++ combine l2 k2.
Proof.
  revert k1. induction l1 as [|x l1 IH]; intros [|y k1] Hl;
    try discriminate; cbn; [reflexivity|].
  f_equal. apply IH. cbn in Hl. lia.
Qed.

Lemma image_entries (off p : nat) (hs : list Z) :
  imap (fun n x => ((off + n)%nat, x)) (combine (repeat p (length hs)) hs)
  = imap (fun t h => ((off + t)%nat, (p, h))) hs.
Proof.
  revert off. induction hs as [|h hs IH]; intros off; [reflexivity|].
  cbn [length repeat combine]. rewrite !imap_cons. f_equal.
  rewrite (imap_ext _ (fun n x => ((S off + n)%nat, x)))
    by (intros; cbn; f_equal; lia).
  rewrite IH. apply imap_ext. intros; cbn. f_equal. lia.
Qed.

(** The zipped and enumerated lists are the entries image by image. *)
Lemma enumerate_batch_entries (hss : list (list Z)) (off p : nat) :
  imap (fun n x => ((off + n)%nat, x))
       (combine (concat (imap (fun q hs => repeat (p + q)%nat (length hs)) hss))
                (concat hss))
  = batch_entries off p hss.
Proof.
  revert off p. induction hss as [|hs hss IH]; intros off p; [reflexivity|].
  rewrite imap_cons. cbn [concat batch_entries].
  rewrite combine_app_eq by apply repeat_length.
  rewrite imap_app, Nat.add_0_r, image_entries. f_equal.
  rewrite length_combine, repeat_length, Nat.min_id.
  rewrite <- IH.
  rewrite (imap_ext _ (fun n x => ((off + length hs + n)%nat, x)))
    by (intros; cbn; f_equal; lia).
  do 3 f_equal. apply imap_ext. intros; cbn. f_equal. lia.
Qed.

(** The reassembler on the tiles of a batch of images each of which has at
    least one tile: one entry per image, in order, each built from the
    slices of that image's tiles only. *)
Lemma reassemble_batch (batch_images : list (image (pixels E))) :
  Forall (fun im => snd (split_image im proc) <> []) batch_images ->
  reassemble E proc heatmap_count logits
             (snd (fst (split_batch E proc batch_images)))
             (snd (split_batch E proc batch_images))
  = Ok (batch_heatmaps window heatmap_count logits 0
          (map (fun im => snd (split_image im proc)) batch_images)).
Proof.
  intros Hne. rewrite split_batch_spec. cbn [fst snd].
  unfold reassemble, enumerate.
  set (hss := map (fun im => snd (split_image im proc)) batch_images).
  assert (Hidx :
    imap (fun q im => repeat q (length (snd (split_image im proc)))) batch_images
    = imap (fun q hs => repeat (0 + q)%nat (length hs)) hss).
  { unfold hss. change (map ?f ?l) with (f <$> l).
    rewrite imap_fmap. reflexivity. }
  rewrite Hidx.
  rewrite (imap_ext pair (fun n x => ((0 + n)%nat, x))) by reflexivity.
  rewrite enumerate_batch_entries.
  rewrite reassemble_entries; [reflexivity | | reflexivity].
  unfold hss. apply Forall_map. exact Hne.
Qed.

Lemma batch_heatmaps_lookup (hss : list (list Z)) :
  forall (off p : nat) (hs : list Z),
    hss !! p = Some hs ->
    batch_heatmaps window heatmap_count logits off hss !! p
    = Some (image_heatmaps window heatmap_count logits
              (off + tile_offset hss p) hs).
Proof.
  unfold tile_offset.
  induction hss as [|hs0 hss IH]; intros off p hs Hp; [discriminate|].
  destruct p as [|p]; cbn in Hp |- *.
  - injection Hp as <-. rewrite Nat.add_0_r. reflexivity.
  - rewrite (IH _ _ _ Hp), length_app. do 2 f_equal. lia.
Qed.

Lemma trim_padding_rows (height : Z) (a : array) :
  length (nd_rows a) = Z.to_nat window -> 0 <= height <= window ->
  length (nd_rows (trim_padding window height a)) = Z.to_nat height /\
  (height < window ->
   nd_rows (trim_padding window height a)
   = firstn (Z.to_nat height) (nd_rows a)).
Proof.
  intros Ha Hh. unfold trim_padding, slice_rows.
  destruct (height <? window) eqn:Hlt.
  - apply Z.ltb_lt in Hlt. cbn [nd_rows].
    destruct (height <? 0) eqn:Hneg; [apply Z.ltb_lt in Hneg; lia|].
    split; [|reflexivity]. rewrite length_firstn, Ha. lia.
  - apply Z.ltb_ge in Hlt. split; [|lia].
    rewrite Ha. f_equal. lia.
Qed.

Lemma concat_imap_rows (f : nat -> Z -> list (list (px E))) (l : list Z) :
  Forall (fun h => 0 <= h) l ->
  (forall t h, In h l -> length (f t h) = Z.to_nat h) ->
  length (concat (imap f l)) = Z.to_nat (zsum l).
Proof.
  revert f. induction l as [|h l IH]; intros f Hpos Hf; [reflexivity|].
  apply Forall_cons_1 in Hpos as [Hh Hl].
  rewrite imap_cons. cbn [concat zsum fold_right].
  rewrite length_app, Hf by (left; reflexivity).
  rewrite IH; [| exact Hl | intros; apply Hf; right; assumption].
  assert (0 <= zsum l).
  { clear -Hl. induction Hl; cbn; [lia|]. unfold zsum in IHHl. lia. }
  unfold zsum in *. lia.
Qed.

(** The rows of a reassembled heatmap: the whole first slice, then the
    valid rows of the following tiles. *)
Lemma image_heatmaps_rows (off : nat) (h0 : Z) (rest : list Z) :
  t_rows logits = window -> 0 <= window ->
  Forall (fun h => 0 <= h <= window) rest ->
  Forall (fun a => length (nd_rows a) = Z.to_nat (window + zsum rest))
         (image_heatmaps window heatmap_count logits off (h0 :: rest)).
Proof.
  intros Hrows Hw Hrest. unfold image_heatmaps.
  apply Forall_map, Forall_forall. intros k _. cbn [tail nd_rows].
  rewrite length_app, tile_heatmap_length, Hrows.
  rewrite concat_imap_rows.
  - assert (0 <= zsum rest).
    { clear -Hrest. induction Hrest; cbn; [lia|]. unfold zsum in IHHrest. lia. }
    lia.
  - eapply Forall_impl; [exact Hrest|]. cbn. lia.
  - intros t h Hin. apply trim_padding_rows.
    + rewrite tile_heatmap_length, Hrows. reflexivity.
    + rewrite List.Forall_forall in Hrest. apply Hrest. exact Hin.
Qed.

End Reassembler.

Section ReassembledBatch.
Variable E : externals.
Variable proc : processor.
Variable heatmap_count : nat.

(** C2, amended.  In the reassembly of a batch whose images all have at
    least one row, the window being of positive height, the entry of every
    image is, per channel, the whole
    heatmap of its first tile followed by the heatmaps of its other tiles,
    each cut to its valid height when that is below the window height.  For
    an image at least one window high this is every tile of the image cut
    to its valid height, and the image is reassembled to exactly as many
    rows as it has; in particular an image of [k] windows less one row,
    [k >= 2], has a last tile of valid height [W - 1] and no padded row is
    left in its heatmaps. *)
Theorem C2_following_tiles_trimmed (raw : tensor (px E))
    (batch_images : list (image (pixels E))) :
  0 < size_height proc ->
  Forall (fun im => 0 < im_height im) batch_images ->
  let canonical := adapt_logits E proc raw in
  let hss := map (fun im => snd (split_image im proc)) batch_images in
  exists preds,
    reassemble E proc heatmap_count canonical
               (snd (fst (split_batch E proc batch_images)))
               (snd (split_batch E proc batch_images)) = Ok preds /\
    length preds = length batch_images /\
    (forall i k h, 0 <= h < size_height proc ->
       nd_rows (trim_padding (size_height proc) h (tile_heatmap canonical i k))
       = firstn (Z.to_nat h) (nd_rows (tile_heatmap canonical i k)) /\
       nd_cols (trim_padding (size_height proc) h (tile_heatmap canonical i k))
       = nd_cols (tile_heatmap canonical i k)) /\
    forall p im, batch_images !! p = Some im ->
      let hms := image_heatmaps (size_height proc) heatmap_count canonical
                   (tile_offset hss p) (snd (split_image im proc)) in
      preds !! p = Some hms /\
      (size_height proc <= im_height im ->
       hms = all_tiles_trimmed (size_height proc) heatmap_count canonical
               (tile_offset hss p) (snd (split_image im proc)) /\
       Forall (fun a => length (nd_rows a) = Z.to_nat (im_height im)) hms) /\
      (forall k, 2 <= size_height proc -> 2 <= k ->
         im_height im = k * size_height proc - 1 ->
         last (snd (split_image im proc)) = Some (size_height proc - 1) /\
         Forall (fun a => length (nd_rows a) = Z.to_nat (im_height im)) hms).
Proof.
  intros Hw Hims canonical hss.
  eexists. split; [|split; [|split]].
  - apply reassemble_batch.
    eapply Forall_impl; [exact Hims|]. cbn. intros im Him.
    apply split_image_nonempty; assumption.
  - rewrite batch_heatmaps_length, length_map. reflexivity.
  - intros i k h Hh. unfold trim_padding, slice_rows.
    destruct (h <? size_height proc) eqn:Hlt; [|apply Z.ltb_ge in Hlt; lia].
    cbn [nd_rows nd_cols].
    destruct (h <? 0) eqn:Hneg; [apply Z.ltb_lt in Hneg; lia|].
    split; reflexivity.
  - intros p im Hp hms.
    assert (Him : 0 < im_height im).
    { rewrite List.Forall_forall in Hims. apply Hims.
      apply list_elem_of_In. eapply list_elem_of_lookup_2. exact Hp. }
    assert (Hrows : size_height proc <= im_height im ->
              hms = all_tiles_trimmed (size_height proc) heatmap_count canonical
                      (tile_offset hss p) (snd (split_image im proc)) /\
              Forall (fun a => length (nd_rows a) = Z.to_nat (im_height im))
                     hms).
    { intros Hle. unfold hms.
      destruct (split_image_first im proc Hw Him) as [rest Hrest].
      split.
      { rewrite Hrest, Z.min_l by exact Hle.
        unfold image_heatmaps, all_tiles_trimmed.
        apply map_seq_ext. intros k _. rewrite imap_cons. cbn [concat tail].
        unfold trim_padding at 2. rewrite Z.ltb_irrefl, Nat.add_0_r.
        reflexivity. }
      pose proof (split_image_sum im proc Hw ltac:(lia)) as Hsum.
      pose proof (split_image_bounds im proc Hw ltac:(lia)) as Hb.
      rewrite Hrest in Hsum, Hb |- *.
      apply Forall_cons_1 in Hb as [_ Hb].
      cbn [zsum fold_right] in Hsum.
      replace (im_height im) with (size_height proc + zsum rest)
        by (unfold zsum; lia).
      apply image_heatmaps_rows.
      - apply adapt_logits_rows.
      - lia.
      - eapply Forall_impl; [exact Hb|]. cbn. lia. }
    split; [|split].
    + unfold hms. rewrite <- (Nat.add_0_l (tile_offset hss p)).
      apply batch_heatmaps_lookup. unfold hss.
      change (map ?f ?l) with (f <$> l).
      rewrite list_lookup_fmap, Hp. reflexivity.
    + exact Hrows.
    + intros k Hw2 Hk HH. split; [|apply Hrows; nia].
      apply (split_image_one_row_short im proc k); lia.
Qed.

End ReassembledBatch.

(** C2 holds at an image of two windows less one row: seven rows, tiles of
    valid heights 4 and 3, and heatmaps of seven rows. *)
Lemma C2_following_tiles_trimmed_witness :
  0 < size_height demo_processor /\
  Forall (fun im : image unit => 0 < im_height im) [demo_image 7] /\
  exists preds,
    reassemble demo_externals demo_processor 2 demo_logits
               (snd (fst (split_batch demo_externals demo_processor [demo_image 7])))
               (snd (split_batch demo_externals demo_processor [demo_image 7]))
    = Ok preds /\
    Forall (Forall (fun a => length (nd_rows a) = 7%nat)) preds.
Proof.
  assert (H1 : 0 < size_height demo_processor) by (cbn; lia).
  assert (H2 : Forall (fun im : image unit => 0 < im_height im) [demo_image 7])
    by (repeat constructor).
  split; [exact H1|]. split; [exact H2|].
  destruct (C2_following_tiles_trimmed demo_externals demo_processor 2
              (model_logits demo_externals []) [demo_image 7] H1 H2)
    as (preds & Hre & _ & _ & Himg).
  exists preds. split; [exact Hre|].
  destruct (Himg 0%nat (demo_image 7) eq_refl) as (Hp & _ & Hk).
  destruct (Hk 2 ltac:(cbn; lia) ltac:(lia) eq_refl) as [_ Hrows].
  destruct preds as [|hms [|? ?]]; try discriminate.
  injection Hp as ->. constructor; [exact Hrows | constructor].
Defined.

(** C2, as stated, fails at an image one row short of one window (3 rows,
    window of 4).  Its only tile has valid height 3 = W - 1; being the first
    tile of its image it opens the accumulator as it is, so the reassembled
    heatmap is not the trimmed one: it keeps its 4 rows, the padded row
    [[30; 31]] included.  It fails as well in a batch that holds an image
    without rows: such an image has no tile, so after it every tile finds
    the list of entries no longer than its image index and opens an entry
    of its own; for an image without rows followed by one of seven rows,
    the second tile of the latter, of valid height 3, is neither trimmed
    nor stacked and makes up the second entry, four rows high. *)
Lemma C2_counterexample :
  (im_height (demo_image 3) = 1 * size_height demo_processor - 1 /\
   snd (split_image (demo_image 3) demo_processor) = [3] /\
   reassemble demo_externals demo_processor 2 demo_logits
              (snd (fst (split_batch demo_externals demo_processor [demo_image 3])))
              (snd (split_batch demo_externals demo_processor [demo_image 3]))
   <> Ok [all_tiles_trimmed 4 2 demo_logits 0 [3]] /\
   exists a b,
     reassemble demo_externals demo_processor 2 demo_logits
                (snd (fst (split_batch demo_externals demo_processor [demo_image 3])))
                (snd (split_batch demo_externals demo_processor [demo_image 3]))
     = Ok [[a; b]] /\
     nd_rows a = [[0; 1]; [10; 11]; [20; 21]; [30; 31]] /\
     length (nd_rows a) = 4%nat /\
     nd_rows a <> firstn 3 (nd_rows (tile_heatmap demo_logits 0 0))) /\
  (let batch_images := [demo_image 0; demo_image 7] in
   snd (fst (split_batch demo_externals demo_processor batch_images))
   = [1; 1]%nat /\
   snd (split_batch demo_externals demo_processor batch_images) = [4; 3] /\
   reassemble demo_externals demo_processor 2 demo_logits
              (snd (fst (split_batch demo_externals demo_processor batch_images)))
              (snd (split_batch demo_externals demo_processor batch_images))
   = Ok [map (tile_heatmap demo_logits 0) [0; 1]%nat;
         map (tile_heatmap demo_logits 1) [0; 1]%nat] /\
   Forall (fun a : ndarray2 Z => length (nd_rows a) = 4%nat)
          (map (tile_heatmap demo_logits 1) [0; 1]%nat)).
Proof.
  split.
  - split; [reflexivity|]. split; [reflexivity|].
    split; [vm_compute; discriminate|].
    eexists. eexists. split; [vm_compute; reflexivity|].
    split; [reflexivity|]. split; [reflexivity|].
    vm_compute. discriminate.
  - split; [reflexivity|]. split; [reflexivity|].
    split; [vm_compute; reflexivity|].
    repeat constructor.
Qed.

(** ** The pipeline *)

Lemma rmap_app {A B : Type} (f : A -> res B) (l1 l2 : list A) :
  rmap f (l1 ++ l2) =
  rbind (rmap f l1) (fun ys1 => rbind (rmap f l2) (fun ys2 => Ok (ys1 ++ ys2))).
Proof.
  induction l1 as [|x l1 IH]; cbn.
  - destruct (rmap f l2); reflexivity.
  - destruct (f x); cbn; [|reflexivity].
    rewrite IH. destruct (rmap f l1); cbn; [|reflexivity].
    destruct (rmap f l2); reflexivity.
Qed.

(** Case analysis on one step of the system. *)
Ltac step_cases H :=
  let a := fresh "a" in
  destruct H as [a H]; destruct a; cbn in H;
  [ unfold inference_producer in H | unfold postprocessing_consumer in H | unfold main_step in H ];
  cbn in H;
  repeat match type of H with
         | context [match ?x with _ => _ end] => destruct x eqn:?
         end;
  try discriminate;
  injection H as <-; subst; cbn in *.

(** Boolean tests in the hypotheses, as propositions. *)
Ltac tests :=
  repeat match goal with
         | H : (_ <? _)%nat = true |- _ => apply Nat.ltb_lt in H
         | H : (_ <? _)%nat = false |- _ => apply Nat.ltb_ge in H
         | H : (_ <=? _)%nat = true |- _ => apply Nat.leb_le in H
         | H : (_ <=? _)%nat = false |- _ => apply Nat.leb_gt in H
         | H : (_ <? _)%Z = true |- _ => apply Z.ltb_lt in H
         | H : (_ <? _)%Z = false |- _ => apply Z.ltb_ge in H
         | H : _ && _ = true |- _ => apply andb_true_iff in H; destruct H
         end.

Section PipelineInvariants.
Variable E : externals.
Variable par : bool.
Variable workers : Z.
Variable s0 : pipeline E.

Lemma reachable_inv (I : pipeline E -> Prop) :
  I s0 ->
  (forall s s', I s -> step E par workers s s' -> I s') ->
  forall s, reachable E par workers s0 s -> I s.
Proof.
  intros H0 Hstep s Hr. induction Hr as [|s s' _ IH Hs]; [exact H0|].
  eapply Hstep; eauto.
Qed.

(** Every step uses up some of the steps left. *)
Lemma step_decreases (s s' : pipeline E) :
  step E par workers s s' -> (steps_left E s' < steps_left E s)%nat.
Proof.
  intros H. destruct s as [g q pp cp rs ret tr].
  unfold steps_left. step_cases H; rewrite ?length_app; cbn; lia.
Qed.

(** The queue never holds more than [maxsize] entries. *)
Lemma queue_bounded (s : pipeline E) :
  (length (batch_queue s0) <= maxsize)%nat ->
  reachable E par workers s0 s ->
  (length (batch_queue s) <= maxsize)%nat.
Proof.
  intros H0 Hr. revert s Hr.
  apply (reachable_inv (fun s => (length (batch_queue s) <= maxsize)%nat));
    [exact H0|].
  intros s s' Hs H. destruct s as [g q pp cp rs ret tr].
  step_cases H; rewrite ?length_app; cbn; tests; unfold maxsize in *; lia.
Qed.

(** The main thread returns only after both joins, and returns the
    results as they then are. *)
Lemma returned_after_joins (s : pipeline E) :
  returned s0 = None ->
  reachable E par workers s0 s ->
  forall r, returned s = Some r ->
    r = results s /\
    producer_finished E s = true /\ consumer_finished E s = true.
Proof.
  intros H0 Hr. revert s Hr.
  apply (reachable_inv (fun s => forall r, returned s = Some r ->
           r = results s /\
           producer_finished E s = true /\ consumer_finished E s = true));
    [rewrite H0; discriminate|].
  intros s s' Hs H. destruct s as [g q pp cp rs ret tr].
  unfold producer_finished, consumer_finished in *.
  step_cases H; intros r Hr; try (apply Hs in Hr; cbn in Hr);
    try (destruct Hr as (? & ? & ?); discriminate);
    try discriminate.
  injection Hr as <-. tests. auto.
Qed.

End PipelineInvariants.

Section Stream.
Variable E : externals.
Variable workers : Z.
Variable g0 : gen (item E).

Lemma postprocess_all_snoc (par : bool) (bs : list (item E)) (b : item E) rs rb :
  postprocess_all E par bs = Ok rs ->
  postprocess E par b = Ok rb ->
  postprocess_all E par (bs ++ [b]) = Ok (rs ++ rb).
Proof.
  unfold postprocess_all. intros Hbs Hb.
  change (rbind (rmap (postprocess E par) bs) (fun rs => Ok (concat rs)) = Ok rs)
    in Hbs.
  change (rbind (rmap (postprocess E par) (bs ++ [b]))
                (fun rs => Ok (concat rs)) = Ok (rs ++ rb)).
  rewrite rmap_app. destruct (rmap (postprocess E par) bs) as [rss|];
    cbn in Hbs |- *; [|discriminate].
  injection Hbs as <-. rewrite Hb. cbn.
  rewrite concat_app. cbn. rewrite app_nil_r. reflexivity.
Qed.

Lemma stream_inv_reachable (par : bool) (s : pipeline E) :
  reachable E par workers (started E g0) s ->
  stream_inv E par workers g0 s.
Proof.
  revert s. apply reachable_inv.
  - exists []. split; [reflexivity|]. split; reflexivity.
  - intros s s' (consumed & Heq & Hview) H.
    destruct s as [g q pp cp rs ret tr].
    unfold stream_inv, consumer_view, pending in *. cbn in Heq, Hview.
    step_cases H.
    all: try (exists consumed; split; [|exact Hview]; 
              rewrite <- ?app_assoc; cbn; exact Heq).
    + (* the pool is created *)
      destruct Hview as [-> ->]. exists []. split; [exact Heq|].
      split; [reflexivity|]. exists []. split; reflexivity.
    + (* the pool is refused *)
      exists consumed. split; [exact Heq|]. left. tests. split; [reflexivity | lia].
    + (* the in-process path *)
      destruct Hview as [-> ->]. exists []. split; [exact Heq|].
      split; [reflexivity|]. exists []. split; reflexivity.
    + (* a batch, through the pool *)
      destruct Hview as (<- & bs & -> & Hbs).
      exists (map Some (bs ++ [i])). split.
      * rewrite map_app, <- app_assoc. exact Heq.
      * split; [reflexivity|]. exists (bs ++ [i]). split; [reflexivity|].
        apply postprocess_all_snoc; assumption.
    + (* a batch, in process *)
      destruct Hview as (<- & bs & -> & Hbs).
      exists (map Some (bs ++ [i])). split.
      * rewrite map_app, <- app_assoc. exact Heq.
      * split; [reflexivity|]. exists (bs ++ [i]). split; [reflexivity|].
        apply postprocess_all_snoc; assumption.
    + (* a batch whose post-processing raises *)
      destruct Hview as (-> & bs & -> & Hbs).
      exists (map Some (bs ++ [i])). split.
      * rewrite map_app, <- app_assoc. exact Heq.
      * right. exists bs, i, e. split; [reflexivity | assumption].
    + (* the sentinel *)
      destruct Hview as (-> & bs & -> & Hbs).
      exists (map Some bs ++ [None]). split.
      * rewrite <- app_assoc. exact Heq.
      * exists bs. split; [reflexivity | assumption].
Qed.

Lemma to_push_ok (g : gen (item E)) :
  gen_ok g -> to_push g = map Some (gen_items g) ++ [None].
Proof.
  induction g as [x g IH| |e]; cbn; intros Hok;
    [rewrite IH by exact Hok; reflexivity | reflexivity | contradiction].
Qed.

(** The sentinel is the last entry of a stream that has one. *)
Lemma sentinel_last (bs items : list (item E)) (rest : list (option (item E))) :
  map Some bs ++ None :: rest = map Some items ++ [None] ->
  bs = items /\ rest = [].
Proof.
  revert items. induction bs as [|b bs IH]; intros [|x items] H; cbn in H.
  - injection H as ->. auto.
  - discriminate.
  - injection H as _ H. destruct bs; discriminate.
  - injection H as -> H. destruct (IH _ H) as [-> ->]. auto.
Qed.

Lemma sentinel_missing (bs items : list (item E)) :
  map Some bs <> map Some items ++ [None].
Proof.
  revert items. induction bs as [|b bs IH]; intros [|x items] H; cbn in H;
    try discriminate.
  injection H as _ H. exact (IH _ H).
Qed.

Lemma taken_from_stream (bs items : list (item E)) (b : item E)
    (rest : list (option (item E))) :
  map Some (bs ++ [b]) ++ rest = map Some items ++ [None] -> In b items.
Proof.
  revert items. induction bs as [|b' bs IH]; intros [|x items] H; cbn in H;
    try discriminate.
  - injection H as -> _. left. reflexivity.
  - injection H as _ H. right. exact (IH _ H).
Qed.

Lemma rmap_ok_in {A B : Type} (f : A -> res B) (l : list A) (ys : list B) (x : A) :
  rmap f l = Ok ys -> In x l -> exists y, f x = Ok y.
Proof.
  revert ys. induction l as [|a l IH]; intros ys H Hin; [contradiction|].
  cbn in H. destruct (f a) as [y|] eqn:Hfa; cbn in H; [|discriminate].
  destruct (rmap f l) as [ys'|]; cbn in H; [|discriminate].
  destruct Hin as [->|Hin]; [eauto | eapply IH; eauto].
Qed.

(** A generator that does not raise never crashes the producer. *)
Lemma producer_safe (par : bool) (s : pipeline E) :
  gen_ok g0 ->
  reachable E par workers (started E g0) s ->
  gen_ok (detection_generator s) /\ forall e, producer s <> PCrashed e.
Proof.
  intros Hok Hr. revert s Hr.
  apply (reachable_inv E par workers (started E g0)
           (fun s => gen_ok (detection_generator s) /\
                     forall e, producer s <> PCrashed e)).
  - split; [exact Hok | discriminate].
  - intros s s' [Hg Hp] H. destruct s as [g q pp cp rs ret tr].
    step_cases H; try (split; [assumption | discriminate]);
      try (split; [assumption | exact Hp]); try contradiction.
Qed.

(** In a safe run the consumer never crashes. *)
Lemma consumer_safe (par : bool) (s : pipeline E) :
  run_safe E par workers g0 ->
  reachable E par workers (started E g0) s ->
  forall e, consumer s <> CCrashed e.
Proof.
  intros (Hok & [rs Hrs] & Hw) Hr e Hc.
  destruct (stream_inv_reachable par s Hr) as (consumed & Heq & Hview).
  unfold consumer_view in Hview. rewrite Hc in Hview.
  destruct Hview as [[Hpar Hle]|(bs & b & e' & -> & Hb)].
  - specialize (Hw Hpar). lia.
  - rewrite (to_push_ok g0 Hok) in Heq.
    apply taken_from_stream in Heq.
    unfold postprocess_all in Hrs.
    destruct (rmap (postprocess E par) (gen_items g0)) as [rss|] eqn:Hm;
      [|discriminate].
    destruct (rmap_ok_in _ _ _ _ Hm Heq) as [y Hy]. congruence.
Qed.

(** What a safe run returns, if it returns. *)
Lemma safe_run_result (par : bool) (s : pipeline E) rs r :
  run_safe E par workers g0 ->
  postprocess_all E par (gen_items g0) = Ok rs ->
  reachable E par workers (started E g0) s ->
  returned s = Some r ->
  r = rs /\ producer s = PDone /\ consumer s = CDone /\ batch_queue s = [].
Proof.
  intros Hsafe Hrs Hr Hret.
  destruct (returned_after_joins E par workers (started E g0) s eq_refl Hr r Hret)
    as (-> & Hp & Hc).
  destruct (producer_safe par s (proj1 Hsafe) Hr) as [_ Hpc].
  pose proof (consumer_safe par s Hsafe Hr) as Hcc.
  destruct (stream_inv_reachable par s Hr) as (consumed & Heq & Hview).
  unfold producer_finished in Hp. unfold consumer_finished in Hc.
  unfold consumer_view in Hview. unfold pending in Heq.
  destruct (producer s) eqn:Hprod; try discriminate;
    [|exfalso; eapply Hpc; reflexivity].
  destruct (consumer s) eqn:Hcons; try discriminate;
    [|exfalso; eapply Hcc; reflexivity].
  destruct Hview as (bs & -> & Hbs).
  rewrite (to_push_ok g0 (proj1 Hsafe)), app_nil_r, <- app_assoc in Heq.
  apply sentinel_last in Heq as [-> Hq].
  repeat split; auto. congruence.
Qed.

(** A safe run is never stuck before the return. *)
Lemma safe_run_progress (par : bool) (s : pipeline E) :
  run_safe E par workers g0 ->
  reachable E par workers (started E g0) s ->
  returned s = None ->
  exists s', step E par workers s s'.
Proof.
  intros Hsafe Hr Hret.
  destruct (producer_safe par s (proj1 Hsafe) Hr) as [Hgok Hpc].
  pose proof (consumer_safe par s Hsafe Hr) as Hcc.
  destruct (stream_inv_reachable par s Hr) as (consumed & Heq & Hview).
  rewrite (to_push_ok g0 (proj1 Hsafe)) in Heq.
  assert (Hcons : (exists s', postprocessing_consumer E par workers s = Some s') \/
                  (consumer s = CDone /\ batch_queue s ++ pending E s = []) \/
                  (exists pool, consumer s = CLoop pool /\ batch_queue s = [])).
  { unfold postprocessing_consumer. unfold consumer_view in Hview.
    destruct (consumer s) as [|pool| |e] eqn:Hc.
    - left. destruct par; [destruct (0 <? workers)|]; eauto.
    - destruct (batch_queue s) as [|[b|] q] eqn:Hq.
      + right. right. eauto.
      + left. destruct (postprocess E pool b); eauto.
      + left. eauto.
    - right. left. split; [reflexivity|].
      destruct Hview as (bs & -> & _).
      rewrite <- app_assoc in Heq. cbn in Heq.
      apply sentinel_last in Heq as [_ Hrest]. exact Hrest.
    - exfalso. eapply Hcc. reflexivity. }
  destruct Hcons as [[s' Hs']|[[Hc Hrest]|[pool [Hc Hq]]]].
  - exists s'. exists Consumer. exact Hs'.
  - (* the consumer is done: so is the producer, and the main thread moves *)
    apply app_eq_nil in Hrest as [Hq Hpend].
    unfold pending in Hpend.
    destruct (producer s) eqn:Hp; try discriminate.
    + destruct (detection_generator s); try discriminate. contradiction.
    + eexists. exists Main. cbn. unfold main_step.
      rewrite Hret. unfold producer_finished, consumer_finished.
      rewrite Hp, Hc. reflexivity.
    + exfalso. eapply Hpc. reflexivity.
  - (* the consumer waits on an empty queue: the producer can move *)
    unfold consumer_view in Hview. rewrite Hc in Hview.
    destruct Hview as (_ & bs & -> & _).
    rewrite Hq in Heq. cbn in Heq. unfold pending in Heq.
    destruct (producer s) eqn:Hp.
    + assert (exists s', inference_producer E s = Some s') as [s' Hs'].
      { unfold inference_producer. rewrite Hp.
        destruct (detection_generator s); eauto. }
      exists s'. exists Producer. exact Hs'.
    + eexists. exists Producer. cbn. unfold inference_producer.
      rewrite Hp, Hq. reflexivity.
    + eexists. exists Producer. cbn. unfold inference_producer.
      rewrite Hp, Hq. reflexivity.
    + rewrite app_nil_r in Heq. exfalso. eapply sentinel_missing. exact Heq.
    + exfalso. eapply Hpc. reflexivity.
Qed.

(** A safe run reaches the return on some interleaving. *)
Lemma safe_run_returns (par : bool) :
  run_safe E par workers g0 ->
  forall (n : nat) (s : pipeline E),
    (steps_left E s <= n)%nat ->
    reachable E par workers (started E g0) s ->
    exists s' r, reachable E par workers (started E g0) s' /\
                 returned s' = Some r.
Proof.
  intros Hsafe. induction n as [|n IH]; intros s Hn Hr.
  - destruct (returned s) as [r|] eqn:Hret; [eauto|].
    destruct (safe_run_progress par s Hsafe Hr Hret) as [s' Hs'].
    apply (step_decreases E par workers) in Hs'. lia.
  - destruct (returned s) as [r|] eqn:Hret; [eauto|].
    destruct (safe_run_progress par s Hsafe Hr Hret) as [s' Hs'].
    apply (IH s').
    + apply (step_decreases E par workers) in Hs'. lia.
    + eapply reach_step; eauto.
Qed.

(** A safe run returns, on every interleaving, the results of the
    yielded batches in the order in which they were yielded. *)
Lemma safe_run_always_returns (par : bool) rs :
  run_safe E par workers g0 ->
  postprocess_all E par (gen_items g0) = Ok rs ->
  always_returns E par workers (started E g0) rs.
Proof.
  intros Hsafe Hrs. split; [|split; [|split]].
  - destruct (safe_run_returns par Hsafe _ (started E g0) (le_n _)
                (reach_start E par workers _)) as (s & r & Hr & Hret).
    exists s. split; [exact Hr|].
    destruct (safe_run_result par s rs r Hsafe Hrs Hr Hret) as [-> _].
    exact Hret.
  - intros s r Hr Hret.
    apply (safe_run_result par s rs r Hsafe Hrs Hr Hret).
  - intros s Hr Hret. apply (safe_run_progress par s Hsafe Hr Hret).
  - intros s s' _ Hs. apply (step_decreases E par workers s s' Hs).
Qed.

End Stream.

(** ** The generator of [batch_detection] on valid input *)

Lemma subscript_lookup {A : Type} (l : list A) (i : nat) (x : A) :
  l !! i = Some x -> subscript l i = Ok x.
Proof. unfold subscript. intros ->. reflexivity. Qed.

Lemma rmap_subscript_seq {A B : Type} (f : A -> B) (l : list A) (m a : nat) :
  (a + m <= length l)%nat ->
  rmap (fun j => x ← subscript l j; Ok (f x)) (seq a m)
  = Ok (map f (take m (drop a l))).
Proof.
  revert a. induction m as [|m IH]; intros a Hle; [reflexivity|].
  cbn [seq rmap].
  destruct (l !! a) as [x|] eqn:Hx;
    [|apply lookup_ge_None_1 in Hx; lia].
  rewrite (subscript_lookup l a x Hx). cbn. rewrite IH by lia. cbn.
  rewrite (drop_S l x a Hx). reflexivity.
Qed.

Lemma rmap_subscript_seq_id {A : Type} (l : list A) (m a : nat) :
  (a + m <= length l)%nat ->
  rmap (subscript l) (seq a m) = Ok (take m (drop a l)).
Proof.
  intros Hle. rewrite <- (map_id (take m (drop a l))).
  rewrite <- (rmap_subscript_seq (fun x => x) l m a Hle).
  clear Hle. generalize (seq a m). intros js.
  induction js as [|j js IH]; cbn; [reflexivity|].
  destruct (subscript l j); cbn; [|reflexivity].
  rewrite IH. reflexivity.
Qed.

(** A prefix of a range is a range. *)
Lemma app_eq_seq (l1 l2 : list nat) (a k : nat) :
  l1 ++ l2 = seq a k ->
  l1 = seq a (length l1) /\ l2 = seq (a + length l1) (k - length l1) /\
  (length l1 <= k)%nat.
Proof.
  revert a k. induction l1 as [|x l1 IH]; intros a k H; cbn in H |- *.
  - rewrite Nat.add_0_r, Nat.sub_0_r. repeat split; [exact H | lia].
  - destruct k as [|k]; [discriminate|]. cbn in H. injection H as -> H.
    destruct (IH _ _ H) as (H1 & H2 & H3).
    rewrite <- H1. replace (a + S (length l1))%nat with (S a + length l1)%nat by lia.
    repeat split; [exact H2 | lia].
Qed.

Section Generator.
Variable E : externals.
Variable proc : processor.
Variable images : list (image (pixels E)).

Hypothesis window_pos : 0 < size_height proc.
Hypothesis images_pos : Forall (fun im => 0 < im_height im) images.

#[local] Opaque split_image.

Lemma image_heatmaps_length {A : Type} window hc (t : tensor A) off hs :
  length (image_heatmaps window hc t off hs) = hc.
Proof. unfold image_heatmaps. rewrite length_map, length_seq. reflexivity. Qed.

Lemma batch_heatmaps_channels {A : Type} window hc (t : tensor A) off hss :
  Forall (fun hms => length hms = hc) (batch_heatmaps window hc t off hss).
Proof.
  revert off. induction hss as [|hs hss IH]; intros off; cbn; constructor;
    [apply image_heatmaps_length | apply IH].
Qed.

(** The body of the batch loop succeeds on a non-empty range of images:
    one entry per image, each with one heatmap per label, and the original
    sizes of these images. *)
Lemma detect_batch_ok (a m : nat) :
  (0 < m)%nat -> (a + m <= length images)%nat ->
  exists preds,
    detect_batch E proc (num_labels E) images (map size images) (seq a m)
    = Ok (preds, take m (drop a (map size images))) /\
    length preds = m /\
    Forall (fun hms => length hms = num_labels E) preds.
Proof using window_pos images_pos.
  intros Hm Hle. unfold detect_batch.
  rewrite rmap_subscript_seq by exact Hle. cbn.
  set (batch_images := map (convert E "RGB") (take m (drop a images))).
  assert (Hlen : length batch_images = m).
  { unfold batch_images. rewrite length_map, length_take, length_drop. lia. }
  assert (Hpos : Forall (fun im => 0 < im_height im) batch_images).
  { unfold batch_images. apply Forall_map. cbn.
    apply Forall_take, Forall_drop. exact images_pos. }
  assert (Hne : Forall (fun im => snd (split_image im proc) <> []) batch_images).
  { eapply Forall_impl; [exact Hpos|]. cbn. intros im Him.
    apply split_image_nonempty; assumption. }
  pose proof (reassemble_batch E proc (num_labels E)) as Hre.
  pose proof (split_batch_spec E proc batch_images) as Hsp.
  destruct (split_batch E proc batch_images)
    as [[image_splits split_index] split_heights] eqn:Hsplit.
  assert (Htiles : image_splits <> []).
  { injection Hsp as -> _ _.
    destruct batch_images as [|im ims]; [cbn in Hlen; lia|].
    apply Forall_cons_1 in Hne as [Him _]. cbn [map concat].
    destruct (split_image_length im proc) as [H1 H2].
    intros Hnil. apply app_eq_nil in Hnil as [Hnil _].
    rewrite Hnil in H1. cbn [length] in H1. rewrite <- H1 in H2.
    destruct (snd (split_image im proc)); [contradiction | discriminate]. }
  unfold torch_stack.
  destruct (map (fun img => prepare_image_detection E img proc) image_splits)
    as [|batch0 batch] eqn:Hprep;
    [destruct image_splits; [contradiction | discriminate]|].
  cbn.
  specialize (Hre (adapt_logits E proc (model_logits E (batch0 :: batch)))
                  batch_images Hne).
  rewrite Hsplit in Hre. cbn [fst snd] in Hre. rewrite Hre. cbn.
  rewrite rmap_subscript_seq_id by (rewrite length_map; exact Hle). cbn.
  eexists. split; [reflexivity|]. split.
  - rewrite batch_heatmaps_length, length_map. exact Hlen.
  - apply batch_heatmaps_channels.
Qed.

Hypothesis two_labels : num_labels E = 2%nat.

(** Post-processing a batch with two heatmaps per image gives one result
    per image, in order, each carrying the bounding box of its image. *)
Lemma postprocess_ok (pool : bool) (preds : list (list (ndarray2 (px E))))
    (sizes : list (Z * Z)) :
  Forall (fun hms => length hms = 2%nat) preds ->
  length preds = length sizes ->
  exists rs, postprocess E pool (preds, sizes) = Ok rs /\
             map image_bbox rs = map bbox_of sizes.
Proof using Type.
  clear. intros Hch Hlen.
  assert (Hgen : exists rs,
             rmap (fun '(pred, orig_size) => parallel_get_lines E pred orig_size)
                  (combine preds sizes) = Ok rs /\
             map image_bbox rs = map bbox_of sizes).
  { set (f := fun pat : list (ndarray2 (px E)) * (Z * Z) =>
                let '(pred, orig_size) := pat in
                parallel_get_lines E pred orig_size).
    revert sizes Hlen. induction Hch as [|hms preds Hhms _ IH];
      intros [|sz sizes] Hlen; try discriminate.
    - exists []. split; reflexivity.
    - destruct (IH sizes ltac:(cbn in Hlen; lia)) as (rs & Hrs & Hbb).
      destruct hms as [|h1 [|h2 [|? ?]]]; try discriminate.
      cbn [combine rmap].
      assert (Hf : exists r, f ([h1; h2], sz) = Ok r /\ image_bbox r = bbox_of sz)
        by (eexists; split; reflexivity).
      destruct Hf as (r & Hf & Hr). rewrite Hf, Hrs. cbn.
      exists (r :: rs). split; [reflexivity|].
      cbn. rewrite Hr, Hbb. reflexivity. }
  destruct pool; exact Hgen.
Qed.

Lemma postprocess_all_cons (pool : bool) (b : item E) (bs : list (item E)) rb rs :
  postprocess E pool b = Ok rb ->
  postprocess_all E pool bs = Ok rs ->
  postprocess_all E pool (b :: bs) = Ok (rb ++ rs).
Proof using Type.
  unfold postprocess_all. intros Hb Hbs. cbn [rmap].
  change (rbind (rmap (postprocess E pool) bs) (fun rs => Ok (concat rs)) = Ok rs)
    in Hbs.
  rewrite Hb. cbn.
  destruct (rmap (postprocess E pool) bs) as [rss|]; cbn in Hbs |- *;
    [|discriminate].
  injection Hbs as <-. reflexivity.
Qed.

(** The batch loop over consecutive non-empty ranges of images. *)
Lemma batch_loop_safe (bs : list (list nat)) :
  forall (a k : nat),
    concat bs = seq a k -> Forall (fun b => b <> []) bs ->
    (a + k <= length images)%nat ->
    let g := batch_loop E
               (detect_batch E proc (num_labels E) images (map size images)) bs in
    gen_ok g /\
    length (gen_items g) = length bs /\
    forall pool, exists rs,
      postprocess_all E pool (gen_items g) = Ok rs /\
      map image_bbox rs = map bbox_of (take k (drop a (map size images))).
Proof using window_pos images_pos two_labels.
  induction bs as [|b bs IH]; intros a k Hcat Hne Hle g.
  - cbn in Hcat. destruct k; [|discriminate].
    cbn. repeat split. intros pool. exists []. split; reflexivity.
  - cbn [concat] in Hcat. apply app_eq_seq in Hcat as (Hb & Hrest & Hlen).
    apply Forall_cons_1 in Hne as [Hbne Hne].
    assert (Hm : (0 < length b)%nat) by (destruct b; [contradiction | cbn; lia]).
    destruct (detect_batch_ok a (length b) Hm ltac:(lia))
      as (preds & Hdet & Hpl & Hch).
    destruct (IH _ _ Hrest Hne ltac:(lia)) as (Hok & Hitems & Hpost).
    unfold g. cbn [batch_loop]. rewrite Hb, Hdet, <- Hb. cbn [gen_ok gen_items].
    split; [exact Hok|]. split; [cbn; f_equal; exact Hitems|].
    intros pool. destruct (Hpost pool) as (rs & Hrs & Hbb).
    destruct (postprocess_ok pool preds (take (length b) (drop a (map size images))))
      as (rb & Hrb & Hbbb).
    { rewrite two_labels in Hch. exact Hch. }
    { rewrite Hpl, length_take, length_drop, length_map. lia. }
    exists (rb ++ rs). split; [apply postprocess_all_cons; assumption|].
    rewrite map_app, Hbb, Hbbb, <- map_app. f_equal.
    rewrite <- (drop_drop (map size images) (length b) a), take_take_drop.
    f_equal. lia.
Qed.

(** [batch_detection] on a list of images: the generator is exhausted
    without raising, it yields one item per planned batch, and the items
    post-process, on either path, to one result per image in input
    order. *)
Lemma batch_detection_valid (settings : Settings) (batch_size : option Z) :
  let g := batch_detection E settings (map PyImage images) proc batch_size in
  gen_ok g /\
  forall pool, exists rs,
    postprocess_all E pool (gen_items g) = Ok rs /\
    map image_bbox rs = map (fun im => bbox_of (size im)) images.
Proof using window_pos images_pos two_labels.
  intros g. unfold g, batch_detection.
  assert (Hall : forallb isinstance_Image (map (@PyImage (pixels E)) images) = true).
  { clear. induction images; cbn; auto. }
  assert (Homap : omap as_image (map (@PyImage (pixels E)) images) = images).
  { clear. induction images as [|im ims IH]; cbn; [reflexivity|].
    f_equal. exact IH. }
  rewrite Hall, Homap. cbn [negb].
  set (splits := map (fun sz => get_total_splits sz proc) (map size images)).
  set (budget := match batch_size with
                 | Some b => b
                 | None => get_batch_size settings
                 end).
  destruct (plan_batches_inv splits budget) as (Hcat & Hne & _).
  assert (Hlen : length splits = length images).
  { unfold splits. rewrite !length_map. reflexivity. }
  rewrite Hlen in Hcat.
  destruct (batch_loop_safe (plan_batches splits budget) 0 (length images)
              Hcat Hne ltac:(lia)) as (Hok & _ & Hpost).
  split; [exact Hok|].
  intros pool. destruct (Hpost pool) as (rs & Hrs & Hbb).
  exists rs. split; [exact Hrs|].
  rewrite Hbb, drop_0, firstn_all2, map_map by (rewrite length_map; lia).
  reflexivity.
Qed.

End Generator.

(** ** The trace of a run *)

Section Trace.
Variable E : externals.
Variable workers : Z.
Variable g0 : gen (item E).

Lemma trace_inv_reachable (par : bool) (s : pipeline E) :
  reachable E par workers (started E g0) s ->
  trace_inv E par workers g0 s.
Proof.
  revert s. apply reachable_inv.
  - split; [cbn; reflexivity|]. split; [cbn; lia|].
    exists []. cbn. auto.
  - intros s s' (Hput & Hinf & calls & Hcons) H.
    destruct s as [g q pp cp rs ret tr].
    unfold trace_inv, pending, batches_queued, batches_put in *.
    cbn in Hput, Hinf, Hcons.
    step_cases H; rewrite ?List.filter_app, ?length_app; cbn.
    all: try match goal with
             | pool : bool |- context [leave_pool ?p] =>
                 is_var p; destruct p; cbn
             end.
    all: (split;
          [rewrite ?app_nil_r in Hput; rewrite ?app_nil_r, <- ?app_assoc;
           cbn; exact Hput
          |split; [lia|]]).
    (* the producer and the main thread leave the consumer's events alone *)
    all: try (exists calls; destruct cp;
              rewrite ?app_nil_r, ?Nat.add_0_r; cbn;
              intuition (auto; lia)).
    + (* the pool is created *)
      destruct Hcons as (Hev & -> & Hq). exists []. rewrite Hev. cbn.
      repeat split. lia.
    + (* the pool is refused *)
      exists []. left. apply Hcons.
    + (* the in-process path *)
      destruct Hcons as (Hev & -> & Hq). exists []. rewrite Hev, ?app_nil_r.
      cbn. repeat split. lia.
    + (* a batch, through the pool *)
      destruct Hcons as (<- & Hev & Hq). exists (calls ++ [length a]).
      rewrite Hev, map_app, length_app. cbn in *.
      repeat split. lia.
    + (* a batch, in process *)
      destruct Hcons as (<- & Hev & Hq). exists (calls ++ [length a]).
      rewrite Hev, map_app, length_app. cbn in *.
      repeat split. lia.
    + (* a failing batch, through the pool *)
      destruct Hcons as (<- & Hev & Hq). exists calls. right.
      rewrite Hev. unfold consumer_session. cbn. rewrite <- ?app_assoc.
      reflexivity.
    + (* a failing batch, in process *)
      destruct Hcons as (<- & Hev & Hq). exists calls. right.
      rewrite Hev. unfold consumer_session. cbn. rewrite ?app_nil_r.
      reflexivity.
    + (* the sentinel, inside the pool *)
      destruct Hcons as (<- & Hev & Hq). exists calls.
      rewrite Hev. unfold consumer_session. cbn. rewrite <- ?app_assoc.
      split; [reflexivity | lia].
    + (* the sentinel, in process *)
      destruct Hcons as (<- & Hev & Hq). exists calls.
      rewrite Hev. unfold consumer_session. cbn. rewrite ?app_nil_r.
      split; [reflexivity | lia].
Qed.

End Trace.

(** ** The worker pool *)

Lemma rmap_map {A B C : Type} (g : A -> B) (f : B -> res C) (l : list A) :
  rmap f (map g l) = rmap (fun x => f (g x)) l.
Proof.
  induction l as [|x l IH]; cbn; [reflexivity|]. rewrite IH. reflexivity.
Qed.

(** The result kept for job [i] is the result of job [i] as soon as some
    worker has finished it, whatever else has been finished, and in
    whatever order. *)
Lemma finish_jobs_lookup {C : Type} (jobs : list (res C)) (completion : list nat)
    (i : nat) :
  In i completion -> finish_jobs jobs completion !! i = jobs !! i.
Proof.
  unfold finish_jobs. intros Hin. apply list_elem_of_In in Hin.
  assert (Hgen : forall (c : list nat) (done : gmap nat (res C)),
    fold_left (fun done i =>
                 match jobs !! i with
                 | Some r => <[i := r]> done
                 | None => done
                 end) c done !! i
    = match (if decide (i ∈ c) then jobs !! i else None) with
      | Some r => Some r
      | None => done !! i
      end).
  { induction c as [|j c IH]; intros done.
    - cbn. destruct (decide (i ∈ [])) as [Hnil|_]; [|reflexivity].
      apply elem_of_nil in Hnil. contradiction.
    - cbn [fold_left]. rewrite IH.
      destruct (decide (i = j)) as [->|Hne].
      + destruct (decide (j ∈ j :: c)) as [_|Hn];
          [|exfalso; apply Hn; apply list_elem_of_here].
        destruct (jobs !! j) as [r|] eqn:Hj.
        * rewrite lookup_insert_eq. destruct (decide (j ∈ c)); reflexivity.
        * destruct (decide (j ∈ c)); reflexivity.
      + assert (Hstep : match jobs !! j with
                        | Some r => <[j := r]> done
                        | None => done
                        end !! i = done !! i).
        { destruct (jobs !! j); [apply lookup_insert_ne; congruence | reflexivity]. }
        rewrite Hstep.
        destruct (decide (i ∈ c)) as [Hc|Hc],
                 (decide (i ∈ j :: c)) as [Hjc|Hjc]; try reflexivity.
        * exfalso. apply Hjc. apply list_elem_of_further. exact Hc.
        * exfalso. apply elem_of_cons in Hjc as [Heq|Hc']; [congruence | contradiction]. }
  rewrite Hgen. destruct (decide (i ∈ completion)); [|contradiction].
  destruct (jobs !! i); [reflexivity | apply lookup_empty].
Qed.

(** [executor.map] delivers the results in the order of the arguments,
    whatever the order in which the workers finish, provided they finish
    every job. *)
Lemma executor_map_order_irrelevant {A B C : Type} (completion : list nat)
    (f : A -> B -> res C) (xs : list A) (ys : list B) :
  (forall i, (i < length (combine xs ys))%nat -> In i completion) ->
  executor_map_completed completion f xs ys = Some (executor_map f xs ys).
Proof.
  intros Hall. unfold executor_map_completed, executor_map.
  set (jobs := map (fun '(x, y) => f x y) (combine xs ys)).
  assert (Hdone : mapM (fun i => finish_jobs jobs completion !! i)
                       (seq 0 (length jobs)) = Some jobs).
  { apply mapM_Some. apply Forall2_same_length_lookup_2.
    - rewrite length_seq. reflexivity.
    - intros i j r Hj Hr. apply lookup_seq in Hj as [-> Hlt].
      rewrite finish_jobs_lookup; [exact Hr|].
      apply Hall. unfold jobs in Hlt. rewrite length_map in Hlt. exact Hlt. }
  rewrite Hdone. cbn. unfold jobs. rewrite rmap_map. reflexivity.
Qed.

(** ** [batch_text_detection] *)

Section Detection_pipeline.
Variable E : externals.

(** The two post-processing paths compute the same results. *)
Lemma postprocess_path_irrelevant (b : item E) :
  postprocess E true b = postprocess E false b.
Proof. destruct b as [preds sizes]. reflexivity. Qed.

Lemma postprocess_all_path_irrelevant (bs : list (item E)) :
  postprocess_all E true bs = postprocess_all E false bs.
Proof. reflexivity. Qed.

(** On a list of images each with at least one row (window of positive
    height, network of two labels), the items the generator yields
    post-process, on either path, to one and the same list of one result
    per image, the i-th result carrying the bounding box of the i-th
    image; a pool delivers for a batch what the in-process comprehension
    computes, in whatever order its workers finish; and the call returns
    this list on every interleaving. *)
Lemma results_carry_input_boxes (settings : Settings)
    (images : list (image (pixels E))) (proc : processor)
    (batch_size : option Z) :
  0 < size_height proc ->
  Forall (fun im => 0 < im_height im) images ->
  num_labels E = 2%nat ->
  exists rs : list (TextDetectionResult E),
    length rs = length images /\
    (forall i im, images !! i = Some im ->
       exists r, rs !! i = Some r /\
                 image_bbox r = [0; 0; im_width im; im_height im]) /\
    (forall pool,
       postprocess_all E pool
         (gen_items (batch_detection E settings (map PyImage images) proc
                       batch_size)) = Ok rs) /\
    (forall (preds : list (list (ndarray2 (px E)))) (orig_sizes : list (Z * Z))
            (completion : list nat),
       (forall i, (i < length (combine preds orig_sizes))%nat ->
                  In i completion) ->
       executor_map_completed completion (parallel_get_lines E) preds orig_sizes
       = Some (postprocess_sequential E (preds, orig_sizes))) /\
    forall (par : bool) (workers : Z),
      (par = true -> 0 < workers) ->
      always_returns E par workers
        (batch_text_detection E settings (map PyImage images) proc batch_size)
        rs.
Proof.
  intros Hw Hims Hlabels.
  destruct (batch_detection_valid E proc images Hw Hims Hlabels settings batch_size)
    as [Hok Hpost].
  destruct (Hpost false) as (rs & Hrs & Hbb).
  exists rs.
  assert (Hlen : length rs = length images).
  { rewrite <- (length_map image_bbox rs), Hbb, length_map. reflexivity. }
  split; [exact Hlen|]. split.
  - intros i im Hi.
    destruct (rs !! i) as [r|] eqn:Hr.
    + exists r. split; [reflexivity|].
      assert (Hnth : map image_bbox rs !! i = Some (image_bbox r)).
      { change (map image_bbox rs) with (image_bbox <$> rs).
        rewrite list_lookup_fmap, Hr. reflexivity. }
      rewrite Hbb in Hnth.
      change (map (fun im => bbox_of (size im)) images)
        with ((fun im => bbox_of (size im)) <$> images) in Hnth.
      rewrite (list_lookup_fmap (fun im => bbox_of (size im)) images i), Hi
        in Hnth.
      cbn in Hnth. injection Hnth as <-. reflexivity.
    + apply lookup_ge_None_1 in Hr. apply lookup_lt_Some in Hi. lia.
  - split; [intros [|]; [rewrite postprocess_all_path_irrelevant|]; exact Hrs|].
    split; [intros preds orig_sizes completion Hall;
            apply executor_map_order_irrelevant; exact Hall|].
    intros par workers Hpool.
    apply safe_run_always_returns.
    + split; [exact Hok|]. split; [|exact Hpool].
      exists rs. destruct par; [rewrite postprocess_all_path_irrelevant|];
        exact Hrs.
    + destruct par; [rewrite postprocess_all_path_irrelevant|]; exact Hrs.
Qed.

End Detection_pipeline.

Section Protocol.
Variable E : externals.

(** A sentinel can only be the last entry a generator makes the producer
    put, and only a generator that does not raise has one. *)
Lemma to_push_sentinel (g : gen (item E)) (l1 l2 : list (option (item E))) :
  l1 ++ None :: l2 = to_push g -> l2 = [] /\ gen_ok g.
Proof.
  revert l1. induction g as [x g IH| |e]; intros l1 H; cbn in H.
  - destruct l1 as [|o l1]; cbn in H; [discriminate|].
    injection H as _ H. exact (IH _ H).
  - destruct l1 as [|o [|o' l1]]; cbn in H; try discriminate.
    injection H as <-. split; [reflexivity | exact I].
  - destruct l1; discriminate.
Qed.



Lemma filter_put_batch_put (tr : list event) :
  List.filter is_put_batch (List.filter is_put tr) = List.filter is_put_batch tr.
Proof.
  induction tr as [|e tr IH]; cbn; [reflexivity|].
  destruct e as [|[|]| | | |]; cbn; rewrite IH; reflexivity.
Qed.






End Protocol.

Section QueueProtocol.
Variable E : externals.

Lemma pending_nil_done (par : bool) (workers : Z) (g0 : gen (item E))
    (s : pipeline E) :
  gen_ok g0 ->
  reachable E par workers (started E g0) s ->
  (producer s = PDone <-> pending E s = []).
Proof.
  intros Hok Hr.
  destruct (producer_safe E workers g0 par s Hok Hr) as [Hg Hpc].
  unfold pending. destruct (producer s) eqn:Hp; split; intros H;
    try discriminate; try reflexivity.
  - destruct (detection_generator s); try discriminate. contradiction.
  - exfalso. eapply Hpc. reflexivity.
Qed.


End QueueProtocol.

Section PoolAndErrors.
Variable E : externals.



(** A generator that raises at once: nothing is ever queued, inferred or
    accumulated. *)
Lemma raise_at_start (e : exn) (par : bool) (workers : Z) (s : pipeline E) :
  reachable E par workers (started E (GRaise e)) s ->
  batch_queue s = [] /\ results s = [] /\
  detection_generator s = GRaise e /\
  (producer s = PNext \/ producer s = PCrashed e).
Proof.
  revert s. apply reachable_inv.
  - cbn. auto.
  - intros s s' (Hq & Hres & Hg & Hp) H.
    destruct s as [g q pp cp rs ret tr]. cbn in Hq, Hres, Hg, Hp.
    step_cases H; try discriminate;
      try (destruct Hp; discriminate); auto.
    injection Hg as ->. auto.
Qed.

Lemma non_image_raises (settings : Settings)
    (images : list (pyobj (pixels E))) (proc : processor)
    (batch_size : option Z) :
  Exists (fun o => isinstance_Image o = false) images ->
  batch_detection E settings images proc batch_size = GRaise AssertionError.
Proof.
  intros Hex. unfold batch_detection.
  assert (Hall : forallb isinstance_Image images = false).
  { induction Hex as [o l Ho|o l _ IH]; cbn.
    - rewrite Ho. reflexivity.
    - rewrite IH. apply andb_false_r. }
  rewrite Hall. reflexivity.
Qed.

(** If some element of the input is not an image, the generator of
    [batch_detection] raises [AssertionError] at once: it yields nothing,
    so that in the pipeline no batch is ever inferred or queued, no result
    is accumulated and nothing but the empty list could be returned.  If
    all elements are images the assertion holds: the generator is the batch
    loop over the planned batches of exactly these images. *)
Lemma input_check_in_generator (settings : Settings)
    (images : list (pyobj (pixels E))) (proc : processor)
    (batch_size : option Z) :
  let g := batch_detection E settings images proc batch_size in
  (Exists (fun o => isinstance_Image o = false) images ->
   g = GRaise AssertionError /\
   gen_items g = [] /\
   forall par workers s,
     reachable E par workers
       (batch_text_detection E settings images proc batch_size) s ->
     batch_queue s = [] /\ results s = [] /\
     List.filter is_infer (trace s) = [] /\
     (forall r, returned s = Some r -> r = [])) /\
  (Forall (fun o => isinstance_Image o = true) images ->
   let ims := omap as_image images in
   images = map PyImage ims /\
   g = batch_loop E
         (detect_batch E proc (num_labels E) ims (map size ims))
         (plan_batches
            (map (fun sz => get_total_splits sz proc) (map size ims))
            (match batch_size with
             | None => get_batch_size settings
             | Some b => b
             end))).
Proof.
  intros g. split.
  - intros Hex.
    assert (Hg : g = GRaise AssertionError)
      by (apply non_image_raises; exact Hex).
    split; [exact Hg|]. split; [rewrite Hg; reflexivity|].
    intros par workers s Hr. unfold batch_text_detection in Hr.
    fold g in Hr. rewrite Hg in Hr.
    destruct (raise_at_start _ _ _ _ Hr) as (Hq & Hres & Hgen & _).
    pose proof (trace_inv_reachable E workers _ par s Hr) as (_ & Hinf & _).
    rewrite Hgen in Hinf. cbn in Hinf.
    repeat split; auto.
    + apply length_zero_iff_nil. lia.
    + intros r Hret.
      destruct (returned_after_joins E par workers
                  (started E (GRaise AssertionError)) s eq_refl Hr r Hret)
        as (-> & _). exact Hres.
  - intros Hall ims.
    assert (Himgs : images = map PyImage ims).
    { unfold ims. clear g. induction Hall as [|o l Ho _ IH]; [reflexivity|].
      destruct o; [|discriminate]. cbn. f_equal. exact IH. }
    split; [exact Himgs|].
    unfold g, batch_detection.
    assert (Hb : forallb isinstance_Image images = true).
    { clear -Hall. induction Hall as [|o l Ho _ IH]; [reflexivity|].
      cbn. rewrite Ho, IH. reflexivity. }
    rewrite Hb. reflexivity.
Qed.

(** After a generator that raises at once, the producer thread ends
    without putting the sentinel: the consumer, once in its loop, waits on
    the empty queue and the main thread waits on the consumer. *)
Lemma raise_blocks (e : exn) (par : bool) (workers : Z) (s : pipeline E) :
  (par = true -> 0 < workers) ->
  reachable E par workers (started E (GRaise e)) s ->
  returned s = None /\
  (consumer s = CEnter \/ exists pool, consumer s = CLoop pool).
Proof.
  intros Hpool Hr.
  assert (Hinv : batch_queue s = [] /\
                 detection_generator s = GRaise e /\
                 (producer s = PNext \/ producer s = PCrashed e) /\
                 returned s = None /\
                 (consumer s = CEnter \/ exists pool, consumer s = CLoop pool)).
  { revert s Hr.
    apply (reachable_inv E par workers (started E (GRaise e))
             (fun s => batch_queue s = [] /\
                       detection_generator s = GRaise e /\
                       (producer s = PNext \/ producer s = PCrashed e) /\
                       returned s = None /\
                       (consumer s = CEnter \/
                        exists pool, consumer s = CLoop pool))).
    - cbn. repeat split; auto.
    - intros s s' (Hq & Hg & Hp & Hret & Hc) H.
      destruct s as [g q pp cp rs ret tr]. cbn in Hq, Hg, Hp, Hret, Hc.
      step_cases H; try discriminate;
        try (destruct Hp; discriminate);
        try (destruct Hc as [Hc|[? Hc]]; discriminate);
        try (injection Hg as ->); tests;
        try (specialize (Hpool eq_refl); lia);
        try (unfold consumer_finished in *; cbn in *;
             destruct Hc as [->|[? ->]]; discriminate);
        repeat split; eauto. }
  tauto.
Qed.

(** So a call with an element that is not an image does not return. *)
Lemma invalid_input_never_returns (settings : Settings)
    (images : list (pyobj (pixels E))) (proc : processor)
    (batch_size : option Z) (par : bool) (workers : Z) (s : pipeline E) :
  Exists (fun o => isinstance_Image o = false) images ->
  (par = true -> 0 < workers) ->
  reachable E par workers
    (batch_text_detection E settings images proc batch_size) s ->
  returned s = None.
Proof.
  intros Hex Hpool Hr.
  unfold batch_text_detection in Hr.
  rewrite (non_image_raises settings images proc batch_size Hex) in Hr.
  apply (raise_blocks AssertionError par workers s Hpool Hr).
Qed.

End PoolAndErrors.

Section EmptyInput.
Variable E : externals.

(** On the empty list, when the in-process path is selected (the host is
    the interactive one or the parallel threshold is positive): the planner
    produces no batch, the generator stops without yielding, and
    [batch_text_detection] returns the empty list on every interleaving.
    Along the way the network is never run, the extractor is never called
    and no pool is opened; the only thing ever put on the queue is the
    sentinel, after which the producer is done, and the consumer is done
    by taking it. *)
Lemma empty_input_in_process (settings : Settings) (proc : processor)
    (batch_size : option Z) :
  IN_STREAMLIT settings = true \/ 0 < DETECTOR_MIN_PARALLEL_THRESH settings ->
  let par := parallelize settings 0 in
  let workers := max_workers settings 0 in
  let s0 := batch_text_detection E settings [] proc batch_size in
  (forall budget, plan_batches [] budget = []) /\
  batch_detection E settings [] proc batch_size = GStop /\
  par = false /\
  always_returns E par workers s0 [] /\
  forall s, reachable E par workers s0 s ->
    List.filter is_infer (trace s) = [] /\
    List.filter is_consumer_event (trace s) = [] /\
    results s = [] /\
    (exists rest, List.filter is_put (trace s) ++ rest = [EvPut true]) /\
    (consumer s = CDone -> producer s = PDone /\ batch_queue s = []) /\
    (forall r, returned s = Some r ->
       r = [] /\ producer s = PDone /\ consumer s = CDone /\
       List.filter is_put (trace s) = [EvPut true]).
Proof.
  intros Hthresh par workers s0.
  assert (Hpar : par = false).
  { unfold par, parallelize. apply andb_false_iff.
    destruct Hthresh as [Hs|Ht]; [left; rewrite Hs; reflexivity|].
    right. apply Z.leb_gt. cbn. lia. }
  assert (Hsafe : run_safe E par workers (@GStop (item E))).
  { split; [exact I|]. split; [exists []; reflexivity|].
    rewrite Hpar. discriminate. }
  split; [reflexivity|]. split; [reflexivity|]. split; [exact Hpar|].
  split.
  - apply (safe_run_always_returns E workers GStop par [] Hsafe). reflexivity.
  - intros s Hr. change s0 with (started E (@GStop (item E))) in Hr.
    pose proof (stream_inv_reachable E workers GStop par s Hr)
      as (consumed & Heq & Hview).
    pose proof (trace_inv_reachable E workers GStop par s Hr)
      as (Hput & Hinf & calls & Hcons).
    pose proof (consumer_safe E workers GStop par s Hsafe Hr) as Hcc.
    pose proof (pending_nil_done E par workers GStop s I Hr) as Hdone.
    cbn in Heq, Hput, Hinf.
    assert (Hnoput : List.filter is_put_batch (trace s) = []).
    { rewrite <- filter_put_batch_put.
      destruct (List.filter is_put (trace s)) as [|e [|e' l]];
        cbn in Hput |- *; [reflexivity | | ].
      - destruct (map put_event (pending E s)); [|destruct l; discriminate].
        injection Hput as ->. reflexivity.
      - destruct l; discriminate. }
    assert (Hbs : forall bs : list (item E),
               consumed = map Some bs \/ consumed = map Some bs ++ [None] ->
               bs = []).
    { intros [|b bs] [->| ->]; try reflexivity; discriminate. }
    unfold consumer_view in Hview. unfold batches_put in Hcons.
    rewrite Hnoput in Hcons. cbn in Hcons.
    assert (Hres : results s = [] /\
                   List.filter is_consumer_event (trace s) = []).
    { destruct (consumer s) as [|pool| |e] eqn:Hc.
      - split; [apply Hview | apply Hcons].
      - destruct Hview as (_ & bs & Hb & Hbs').
        rewrite (Hbs bs (or_introl Hb)) in Hbs'. cbn in Hbs'.
        destruct Hcons as (_ & Hev & Hcount).
        destruct calls; [|cbn in Hcount; lia].
        rewrite Hev, Hpar. split; [congruence | reflexivity].
      - destruct Hview as (bs & Hb & Hbs').
        rewrite (Hbs bs (or_intror Hb)) in Hbs'. cbn in Hbs'.
        destruct Hcons as (Hev & Hcount).
        destruct calls; [|cbn in Hcount; lia].
        rewrite Hev, Hpar. split; [congruence | reflexivity].
      - exfalso. eapply Hcc. reflexivity. }
    destruct Hres as [Hres Hev].
    split; [apply length_zero_iff_nil; lia|].
    split; [exact Hev|]. split; [exact Hres|].
    split; [eexists; exact Hput|]. split.
    + intros Hc. rewrite Hc in Hview. destruct Hview as (bs & -> & _).
      rewrite <- app_assoc in Heq. cbn in Heq.
      apply (to_push_sentinel E GStop) in Heq as [Hrest _].
      apply app_eq_nil in Hrest as [Hq Hpend].
      split; [apply Hdone; exact Hpend | exact Hq].
    + intros r Hret.
      destruct (safe_run_result E workers GStop par s [] r Hsafe eq_refl Hr Hret)
        as (-> & Hp & Hc & _).
      repeat split; auto.
      apply Hdone in Hp. rewrite Hp, app_nil_r in Hput. exact Hput.
Qed.

End EmptyInput.

(** ** Further properties of the code *)

(** *** The planner *)

Lemma adjacent_snoc {A : Type} (R : A -> A -> Prop) (l : list A) (y : A) :
  adjacent R l -> (forall x, last l = Some x -> R x y) -> adjacent R (l ++ [y]).
Proof.
  intros Hl Hy k x z Hx Hz.
  destruct (decide (S k < length l)%nat) as [Hlt|Hge].
  - rewrite lookup_app_l in Hx, Hz by lia. eapply Hl; eauto.
  - assert (Hk : S k = length l).
    { apply lookup_lt_Some in Hz. rewrite length_app in Hz. cbn in Hz. lia. }
    rewrite lookup_app_l in Hx by lia.
    rewrite lookup_app_r in Hz by lia.
    replace (S k - length l)%nat with 0%nat in Hz by lia. cbn in Hz.
    injection Hz as <-. apply Hy. rewrite last_lookup.
    replace (Nat.pred (length l)) with k by lia. exact Hx.
Qed.

Lemma adjacent_app_l {A : Type} (R : A -> A -> Prop) (l l' : list A) :
  adjacent R (l ++ l') -> adjacent R l.
Proof.
  intros H k x y Hx Hy. apply (H k).
  - apply lookup_app_l_Some. exact Hx.
  - apply lookup_app_l_Some. exact Hy.
Qed.

Lemma adjacent_last {A : Type} (R : A -> A -> Prop) (l : list A) (x y : A) :
  adjacent R (l ++ [y]) -> last l = Some x -> R x y.
Proof.
  intros H Hx. rewrite last_lookup in Hx.
  assert (Hlen : (0 < length l)%nat).
  { apply lookup_lt_Some in Hx. lia. }
  apply (H (Nat.pred (length l))).
  - apply lookup_app_l_Some. exact Hx.
  - rewrite lookup_app_r by lia.
    replace (S (Nat.pred (length l)) - length l)%nat with 0%nat by lia.
    reflexivity.
Qed.

(** The loop closes a batch only on an image that does not fit. *)
Lemma plan_loop_greedy splits batch_size n :
  let st := plan_loop splits batch_size n in
  adjacent (next_overflows splits batch_size) (batches st ++ [current_batch st]) /\
  (current_batch st = [] -> batches st = []).
Proof.
  induction n as [|n IH].
  - split; [|reflexivity]. intros [|k] x y Hx Hy; discriminate.
  - cbn zeta in *. rewrite plan_loop_S.
    destruct (plan_loop_inv splits batch_size n) as [_ _ _ Hs _].
    destruct IH as [Hadj Hnil].
    set (st := plan_loop splits batch_size n) in *.
    unfold plan_step.
    destruct (current_batch_size st + nth n splits 0 >? batch_size) eqn:Hgt.
    + assert (Hover : batch_size < current_batch_size st + nth n splits 0).
      { rewrite Z.gtb_ltb in Hgt. apply Z.ltb_lt in Hgt. exact Hgt. }
      destruct (current_batch st) as [|j cur] eqn:Hcur;
        cbn [length Nat.ltb Nat.leb batches current_batch current_batch_size app].
      * rewrite (Hnil eq_refl). split; [|reflexivity].
        intros [|k] x y Hx Hy; discriminate.
      * split; [|discriminate].
        apply adjacent_snoc; [exact Hadj|].
        intros x Hx. rewrite last_snoc in Hx. injection Hx as <-.
        unfold next_overflows. rewrite <- Hs. exact Hover.
    + cbn [batches current_batch current_batch_size]. split.
      * apply adjacent_snoc; [eapply adjacent_app_l; exact Hadj|].
        intros x Hx. pose proof (adjacent_last _ _ _ _ Hadj Hx) as Hlast.
        destruct (current_batch st) as [|j cur] eqn:Hcur; [|exact Hlast].
        rewrite (Hnil eq_refl) in Hx. discriminate.
      * intros Hnil'. destruct (current_batch st); discriminate.
Qed.

(** X2.  The planner closes a batch only on an image that does not fit:
    for two consecutive batches of the plan, the tiles of the first
    together with the tiles of the image [j] that opens the second exceed
    the budget. *)
Theorem X2_planner_closes_only_when_full (splits_per_image : list Z)
    (batch_size : Z) (k : nat) (b : list nat) (j : nat) (b' : list nat) :
  plan_batches splits_per_image batch_size !! k = Some b ->
  plan_batches splits_per_image batch_size !! S k = Some (j :: b') ->
  batch_size < batch_tiles splits_per_image b + nth j splits_per_image 0.
Proof.
  intros Hb Hb'.
  destruct (plan_loop_greedy splits_per_image batch_size (length splits_per_image))
    as [Hadj Hnil].
  unfold plan_batches in Hb, Hb'.
  set (st := plan_loop splits_per_image batch_size (length splits_per_image)) in *.
  destruct (current_batch st) as [|i cur] eqn:Hcur;
    cbn [length Nat.ltb Nat.leb] in Hb, Hb'.
  - rewrite (Hnil eq_refl) in Hb. discriminate.
  - exact (Hadj k b (j :: b') Hb Hb').
Qed.

Lemma zsum_nonneg (l : list Z) : Forall (fun n => 0 <= n) l -> 0 <= zsum l.
Proof. induction 1; cbn; [lia|]. unfold zsum in IHForall. lia. Qed.

Lemma zsum_take_S (l : list Z) (n : nat) :
  (n < length l)%nat -> zsum (take (S n) l) = zsum (take n l) + nth n l 0.
Proof.
  revert n. induction l as [|x l IH]; intros n Hn; cbn in Hn; [lia|].
  destruct n as [|n]; cbn [take nth zsum fold_right].
  - rewrite take_0. cbn. lia.
  - specialize (IH n ltac:(lia)). unfold zsum in IH.
    change (firstn (S n) l) with (take (S n) l). rewrite IH. lia.
Qed.

Lemma zsum_take_le (l : list Z) (n : nat) :
  Forall (fun n => 0 <= n) l -> zsum (take n l) <= zsum l.
Proof.
  intros Hl. rewrite <- (take_drop n l) at 2. rewrite zsum_app.
  pose proof (zsum_nonneg (drop n l) (Forall_drop _ _ _ Hl)). lia.
Qed.

(** While the running total stays within the budget no batch is closed. *)
Lemma plan_loop_one_batch splits batch_size n :
  Forall (fun n => 0 <= n) splits -> zsum splits <= batch_size ->
  (n <= length splits)%nat ->
  let st := plan_loop splits batch_size n in
  batches st = [] /\ current_batch st = seq 0 n /\
  current_batch_size st = zsum (take n splits).
Proof.
  intros Hpos Hfit. induction n as [|n IH]; intros Hn.
  - repeat split.
  - cbn zeta in *. rewrite plan_loop_S.
    destruct (IH ltac:(lia)) as (Hb & Hc & Hs).
    set (st := plan_loop splits batch_size n) in *.
    unfold plan_step.
    pose proof (zsum_take_S splits n ltac:(lia)) as HS.
    pose proof (zsum_take_le splits (S n) Hpos) as Hle.
    destruct (current_batch_size st + nth n splits 0 >? batch_size) eqn:Hgt.
    + rewrite Z.gtb_ltb in Hgt. apply Z.ltb_lt in Hgt. lia.
    + cbn [batches current_batch current_batch_size].
      rewrite Hb, Hc, Hs, HS, seq_S. repeat split.
Qed.

(** X4.  When the tiles of all the images together respect the budget
    (tile counts not negative, at least one image), the plan is the single
    batch of all the images. *)
Theorem X4_planner_single_batch (splits_per_image : list Z) (batch_size : Z) :
  splits_per_image <> [] ->
  Forall (fun n => 0 <= n) splits_per_image ->
  zsum splits_per_image <= batch_size ->
  plan_batches splits_per_image batch_size = [seq 0 (length splits_per_image)].
Proof.
  intros Hne Hpos Hfit.
  destruct (plan_loop_one_batch splits_per_image batch_size
              (length splits_per_image) Hpos Hfit (le_n _)) as (Hb & Hc & _).
  unfold plan_batches. rewrite Hb, Hc, length_seq.
  destruct splits_per_image; [contradiction | reflexivity].
Qed.

(** When every image alone exceeds the budget, every step closes the
    running batch. *)
Lemma plan_loop_alone splits batch_size n :
  Forall (fun n => 0 <= n /\ batch_size < n) splits ->
  (n <= length splits)%nat ->
  let st := plan_loop splits batch_size n in
  batches st = map (fun i => [i]) (seq 0 (Nat.pred n)) /\
  current_batch st = match n with O => [] | S m => [m] end /\
  current_batch_size st = batch_tiles splits (current_batch st).
Proof.
  intros Hall. induction n as [|n IH]; intros Hn.
  - repeat split.
  - cbn zeta in *. rewrite plan_loop_S.
    destruct (IH ltac:(lia)) as (Hb & Hc & Hs).
    set (st := plan_loop splits batch_size n) in *.
    assert (Hsn : 0 <= nth n splits 0 /\ batch_size < nth n splits 0).
    { rewrite List.Forall_forall in Hall. apply Hall. apply nth_In. lia. }
    assert (Hcur : 0 <= current_batch_size st).
    { rewrite Hs, Hc. destruct n as [|m]; [cbn; lia|].
      rewrite batch_tiles_single.
      assert (Hm : 0 <= nth m splits 0 /\ batch_size < nth m splits 0).
      { rewrite List.Forall_forall in Hall. apply Hall. apply nth_In. lia. }
      lia. }
    unfold plan_step.
    destruct (current_batch_size st + nth n splits 0 >? batch_size) eqn:Hgt.
    + rewrite Hb, Hc. destruct n as [|m];
        cbn [length Nat.ltb Nat.leb batches current_batch current_batch_size
             Nat.pred app].
      * repeat split. rewrite batch_tiles_single. lia.
      * rewrite seq_S, map_app. repeat split.
        rewrite batch_tiles_single. lia.
    + rewrite Z.gtb_ltb in Hgt. apply Z.ltb_ge in Hgt. lia.
Qed.

(** X5.  When every image alone exceeds the budget, as with a budget
    of zero or less and images of at least one tile, every image is a batch
    of its own: the loop neither fails nor drops an image. *)
Theorem X5_planner_oversized_images_alone (splits_per_image : list Z)
    (batch_size : Z) :
  Forall (fun n => 0 <= n /\ batch_size < n) splits_per_image ->
  plan_batches splits_per_image batch_size
  = map (fun i => [i]) (seq 0 (length splits_per_image)).
Proof.
  intros Hall.
  destruct (plan_loop_alone splits_per_image batch_size
              (length splits_per_image) Hall (le_n _)) as (Hb & Hc & _).
  unfold plan_batches. rewrite Hb, Hc.
  destruct (length splits_per_image) as [|m]; [reflexivity|].
  cbn [length Nat.ltb Nat.leb Nat.pred]. rewrite seq_S, map_app. reflexivity.
Qed.

(** *** The batch size *)

(** X1.  [get_batch_size], lines 20-28: a configured
    [DETECTOR_BATCH_SIZE] is returned as it is, on every device; when none
    is configured the result is 36 on the device ["cuda"] and 8 on every
    other device, ["mps"] included, hence positive.  [batch_detection]
    called without a batch size is [batch_detection] called with that
    value, and called with a batch size it reads no setting at all. *)
Theorem X1_get_batch_size_resolved (settings : Settings) :
  get_batch_size settings
  = match DETECTOR_BATCH_SIZE settings with
    | Some batch_size => batch_size
    | None => if String.eqb (TORCH_DEVICE_MODEL settings) "cuda" then 36 else 8
    end /\
  (DETECTOR_BATCH_SIZE settings = None -> 0 < get_batch_size settings) /\
  (forall (E : externals) images proc,
     batch_detection E settings images proc None
     = batch_detection E settings images proc (Some (get_batch_size settings))) /\
  (forall (E : externals) (other : Settings) images proc b,
     batch_detection E settings images proc (Some b)
     = batch_detection E other images proc (Some b)).
Proof.
  assert (Heq : get_batch_size settings
                = match DETECTOR_BATCH_SIZE settings with
                  | Some batch_size => batch_size
                  | None => if String.eqb (TORCH_DEVICE_MODEL settings) "cuda"
                            then 36 else 8
                  end).
  { unfold get_batch_size. destruct (DETECTOR_BATCH_SIZE settings); [reflexivity|].
    destruct (String.eqb (TORCH_DEVICE_MODEL settings) "mps");
      destruct (String.eqb (TORCH_DEVICE_MODEL settings) "cuda"); reflexivity. }
  split; [exact Heq|]. split; [|split].
  - intros Hnone. rewrite Heq, Hnone.
    destruct (String.eqb (TORCH_DEVICE_MODEL settings) "cuda"); lia.
  - reflexivity.
  - reflexivity.
Qed.

(** *** The adapter and the extractor *)

Section AdapterAndExtractor.
Variable E : externals.

(** X7.  The adaptation of lines 80-84 is idempotent, and it leaves the
    logits as they are exactly when they already have the shape of the
    processor. *)
Theorem X7_adapt_logits_idempotent (proc : processor) (logits : tensor (px E)) :
  adapt_logits E proc (adapt_logits E proc logits) = adapt_logits E proc logits /\
  (adapt_logits E proc logits = logits <->
   shape2 logits = [size_height proc; size_width proc]).
Proof.
  pose proof (adapt_logits_shape E proc logits) as Hs.
  split.
  - unfold adapt_logits at 1.
    destruct (decide _) as [Hne|_]; [contradiction | reflexivity].
  - split.
    + intros Heq. rewrite <- Heq. exact Hs.
    + intros Heq. unfold adapt_logits.
      destruct (decide _) as [Hne|_]; [contradiction | reflexivity].
Qed.

End AdapterAndExtractor.

(** *** What the generator yields *)

Section GeneratorValues.
Variable E : externals.
Variable proc : processor.
Variable images : list (image (pixels E)).

Hypothesis window_pos : 0 < size_height proc.
Hypothesis images_pos : Forall (fun im => 0 < im_height im) images.

#[local] Opaque split_image.

Lemma detect_batch_value (a m : nat) :
  (0 < m)%nat -> (a + m <= length images)%nat ->
  detect_batch E proc (num_labels E) images (map size images) (seq a m)
  = Ok (batch_item E proc images a m).
Proof using window_pos images_pos.
  intros Hm Hle. unfold detect_batch, batch_item, batch_logits, batch_tiles_of.
  rewrite rmap_subscript_seq by exact Hle. cbn.
  fold (batch_images_of E images a m).
  set (batch_images := batch_images_of E images a m).
  assert (Hlen : length batch_images = m).
  { unfold batch_images, batch_images_of.
    rewrite length_map, length_take, length_drop. lia. }
  assert (Hpos : Forall (fun im => 0 < im_height im) batch_images).
  { unfold batch_images, batch_images_of. apply Forall_map. cbn.
    apply Forall_take, Forall_drop. exact images_pos. }
  assert (Hne : Forall (fun im => snd (split_image im proc) <> []) batch_images).
  { eapply Forall_impl; [exact Hpos|]. cbn. intros im Him.
    apply split_image_nonempty; assumption. }
  pose proof (reassemble_batch E proc (num_labels E)) as Hre.
  pose proof (split_batch_spec E proc batch_images) as Hsp.
  destruct (split_batch E proc batch_images)
    as [[image_splits split_index] split_heights] eqn:Hsplit.
  assert (Hparts : image_splits
                   = concat (map (fun im => fst (split_image im proc)) batch_images))
    by congruence.
  assert (Htiles : image_splits <> []).
  { rewrite Hparts.
    destruct batch_images as [|im ims]; [cbn in Hlen; lia|].
    apply Forall_cons_1 in Hne as [Him _]. cbn [map concat].
    destruct (split_image_length im proc) as [H1 H2].
    intros Hnil. apply app_eq_nil in Hnil as [Hnil _].
    rewrite Hnil in H1. cbn [length] in H1. rewrite <- H1 in H2.
    destruct (snd (split_image im proc)); [contradiction | discriminate]. }
  unfold torch_stack.
  destruct (map (fun img => prepare_image_detection E img proc) image_splits)
    as [|batch0 batch] eqn:Hprep;
    [destruct image_splits; [contradiction | discriminate]|].
  cbn.
  specialize (Hre (adapt_logits E proc (model_logits E (batch0 :: batch)))
                  batch_images Hne).
  rewrite Hsplit in Hre. cbn [fst snd] in Hre. rewrite Hre. cbn.
  rewrite rmap_subscript_seq_id by (rewrite length_map; exact Hle). cbn.
  rewrite <- Hprep, Hparts. reflexivity.
Qed.

End GeneratorValues.

Lemma take_drop_nth {A : Type} (l : list A) (d : A) (a m : nat) :
  (a + m <= length l)%nat ->
  take m (drop a l) = map (fun j => nth j l d) (seq a m).
Proof.
  revert a. induction m as [|m IH]; intros a Hle; [reflexivity|].
  destruct (l !! a) as [x|] eqn:Hx; [|apply lookup_ge_None_1 in Hx; lia].
  rewrite (drop_S l x a Hx). cbn [take seq map]. f_equal.
  - symmetry. apply nth_lookup_Some with (d := d) in Hx. exact Hx.
  - apply IH. lia.
Qed.

Section GeneratorItems.
Variable E : externals.
Variable proc : processor.
Variable images : list (image (pixels E)).

Hypothesis window_pos : 0 < size_height proc.
Hypothesis images_pos : Forall (fun im => 0 < im_height im) images.

(** The batch loop over consecutive non-empty ranges of images yields the
    item of every range, in order, and stops. *)
Lemma batch_loop_values (bs : list (list nat)) :
  forall (a k : nat),
    concat bs = seq a k -> Forall (fun b => b <> []) bs ->
    (a + k <= length images)%nat ->
    let g := batch_loop E
               (detect_batch E proc (num_labels E) images (map size images)) bs in
    gen_ok g /\ gen_items g = map (item_of_batch E proc images) bs.
Proof using window_pos images_pos.
  induction bs as [|b bs IH]; intros a k Hcat Hne Hle g.
  - cbn. auto.
  - cbn [concat] in Hcat. apply app_eq_seq in Hcat as (Hb & Hrest & Hlen).
    apply Forall_cons_1 in Hne as [Hbne Hne].
    assert (Hm : (0 < length b)%nat) by (destruct b; [contradiction | cbn; lia]).
    pose proof (detect_batch_value E proc images window_pos images_pos
                  a (length b) Hm ltac:(lia)) as Hdet.
    destruct (IH _ _ Hrest Hne ltac:(lia)) as (Hok & Hitems).
    assert (Hhd : hd 0%nat b = a).
    { destruct b as [|x b']; [contradiction|]. cbn in Hb. injection Hb as Hx _.
      exact Hx. }
    unfold g. cbn [batch_loop]. rewrite Hb, Hdet, <- Hb. cbn [gen_ok gen_items map].
    split; [exact Hok|]. f_equal; [|exact Hitems].
    unfold item_of_batch. rewrite Hhd. reflexivity.
Qed.

Lemma batch_detection_values (settings : Settings) (batch_size : option Z) :
  let budget := match batch_size with
                | Some b => b
                | None => get_batch_size settings
                end in
  let plan := plan_batches
                (map (fun sz => get_total_splits sz proc) (map size images))
                budget in
  let g := batch_detection E settings (map PyImage images) proc batch_size in
  gen_ok g /\ gen_items g = map (item_of_batch E proc images) plan.
Proof using window_pos images_pos.
  intros budget plan g. unfold g, batch_detection.
  assert (Hall : forallb isinstance_Image (map (@PyImage (pixels E)) images) = true).
  { clear. induction images; cbn; auto. }
  assert (Homap : omap as_image (map (@PyImage (pixels E)) images) = images).
  { clear. induction images as [|im ims IH]; cbn; [reflexivity|].
    f_equal. exact IH. }
  rewrite Hall, Homap. cbn [negb].
  set (splits := map (fun sz => get_total_splits sz proc) (map size images)).
  destruct (plan_batches_inv splits budget) as (Hcat & Hne & _).
  assert (Hlen : length splits = length images).
  { unfold splits. rewrite !length_map. reflexivity. }
  rewrite Hlen in Hcat.
  apply (batch_loop_values (plan_batches splits budget) 0 (length images)
           Hcat Hne ltac:(lia)).
Qed.

End GeneratorItems.

(** A batch of a plan that concatenates to a range is itself a range. *)
Lemma concat_seq_range (l : list (list nat)) :
  forall (a k : nat) (b : list nat),
    concat l = seq a k -> In b l -> b <> [] ->
    b = seq (hd 0%nat b) (length b) /\
    (a <= hd 0%nat b)%nat /\ (hd 0%nat b + length b <= a + k)%nat.
Proof.
  induction l as [|c l IH]; intros a k b Hcat Hin Hne; [contradiction|].
  cbn [concat] in Hcat. apply app_eq_seq in Hcat as (Hc & Hrest & Hlen).
  destruct Hin as [->|Hin].
  - assert (Hhd : hd 0%nat b = a).
    { destruct b as [|x b']; [contradiction|]. cbn in Hc. injection Hc as Hx _.
      exact Hx. }
    rewrite Hhd. split; [exact Hc | lia].
  - destruct (IH _ _ b Hrest Hin Hne) as (Hb & Hlo & Hhi).
    split; [exact Hb | lia].
Qed.

Lemma map_nth_seq {A : Type} (l : list A) (d : A) :
  map (fun j => nth j l d) (seq 0 (length l)) = l.
Proof.
  rewrite <- (take_drop_nth l d 0 (length l)) by lia.
  rewrite drop_0. apply firstn_all.
Qed.

Lemma concat_map_map {A B : Type} (f : A -> B) (l : list (list A)) :
  concat (map (map f) l) = map f (concat l).
Proof.
  induction l as [|x l IH]; cbn; [reflexivity|]. rewrite IH, map_app. reflexivity.
Qed.

Section ImageShape.
Variable E : externals.
Variable proc : processor.
Variable heatmap_count : nat.
Variable logits : tensor (px E).

Hypothesis window_pos : 0 < size_height proc.
Hypothesis logits_rows : t_rows logits = size_height proc.
Hypothesis logits_cols : t_cols logits = size_width proc.

Lemma trim_padding_width (height : Z) (a : ndarray2 (px E)) :
  Forall (fun row => length row = Z.to_nat (size_width proc)) (nd_rows a) ->
  Forall (fun row => length row = Z.to_nat (size_width proc))
         (nd_rows (trim_padding (size_height proc) height a)).
Proof.
  intros Ha. unfold trim_padding, slice_rows.
  destruct (height <? size_height proc); [|exact Ha].
  cbn [nd_rows]. destruct (height <? 0); apply Forall_take; exact Ha.
Qed.

Lemma image_heatmaps_width (off : nat) (hs : list Z) :
  Forall (fun a => Forall (fun row => length row = Z.to_nat (size_width proc))
                          (nd_rows a) /\
                   nd_cols a = Z.to_nat (size_width proc))
         (image_heatmaps (size_height proc) heatmap_count logits off hs).
Proof using logits_cols.
  unfold image_heatmaps. apply Forall_map, Forall_forall. intros k _.
  cbn [nd_rows nd_cols]. split; [|rewrite logits_cols; reflexivity].
  apply Forall_app. split.
  - rewrite <- logits_cols. apply tile_heatmap_width.
  - generalize (tail hs). intros rest.
    assert (Hgen : forall (f : nat -> nat) ,
      Forall (fun row => length row = Z.to_nat (size_width proc))
        (concat (imap (fun t h =>
                         nd_rows (trim_padding (size_height proc) h
                                    (tile_heatmap logits (f t) k))) rest))).
    { induction rest as [|h rest IH]; intros f; [constructor|].
      rewrite imap_cons. cbn [concat]. apply Forall_app. split.
      - apply trim_padding_width. rewrite <- logits_cols.
        apply tile_heatmap_width.
      - apply (IH (f ∘ S)). }
    apply (Hgen (fun t => (off + S t)%nat)).
Qed.

(** The heatmaps of an image of [H] rows have [max H W] rows: the whole
    window of the first tile, then the valid rows of the others. *)
Lemma image_heatmaps_shape (off : nat) (im : image (pixels E)) :
  0 < im_height im ->
  Forall (heatmap_shaped (Z.max (im_height im) (size_height proc))
                         (size_width proc))
         (image_heatmaps (size_height proc) heatmap_count logits off
            (snd (split_image im proc))).
Proof using window_pos logits_rows logits_cols.
  intros Him.
  destruct (split_image_first im proc window_pos Him) as [rest Hrest].
  pose proof (split_image_sum im proc window_pos ltac:(lia)) as Hsum.
  pose proof (split_image_bounds im proc window_pos ltac:(lia)) as Hb.
  pose proof (image_heatmaps_width off (snd (split_image im proc))) as Hwidth.
  rewrite Hrest in Hsum, Hb, Hwidth |- *.
  apply Forall_cons_1 in Hb as [_ Hb].
  cbn [zsum fold_right] in Hsum.
  assert (Hrows := image_heatmaps_rows E proc heatmap_count logits off
                     (Z.min (size_height proc) (im_height im)) rest
                     logits_rows ltac:(lia)
                     ltac:(eapply Forall_impl; [exact Hb|]; cbn; lia)).
  replace (size_height proc + zsum rest)
    with (Z.max (im_height im) (size_height proc)) in Hrows
    by (unfold zsum in *; lia).
  rewrite List.Forall_forall in Hrows, Hwidth. apply List.Forall_forall.
  intros a Ha. split; [apply Hrows; exact Ha | apply Hwidth; exact Ha].
Qed.

Lemma batch_heatmaps_shape (ims : list (image (pixels E))) (off : nat) :
  Forall (fun im => 0 < im_height im) ims ->
  Forall2 (fun hms (sz : Z * Z) =>
             length hms = heatmap_count /\
             Forall (heatmap_shaped (Z.max (snd sz) (size_height proc))
                                    (size_width proc)) hms)
          (batch_heatmaps (size_height proc) heatmap_count logits off
             (map (fun im => snd (split_image im proc)) ims))
          (map size ims).
Proof using window_pos logits_rows logits_cols.
  intros Hpos. revert off. induction Hpos as [|im ims Him _ IH]; intros off.
  - constructor.
  - cbn [map batch_heatmaps]. constructor; [|apply IH].
    split; [apply image_heatmaps_length|].
    apply image_heatmaps_shape. exact Him.
Qed.

End ImageShape.

Section GeneratorTheorems.
Variable E : externals.

Lemma size_convert (mode : string) (im : image (pixels E)) :
  size (convert E mode im) = size im.
Proof. reflexivity. Qed.

Lemma batch_images_sizes (images : list (image (pixels E))) (a m : nat) :
  map size (batch_images_of E images a m) = take m (drop a (map size images)).
Proof.
  unfold batch_images_of. rewrite map_map.
  change (map ?f ?l) with (f <$> l).
  rewrite fmap_take, fmap_drop. reflexivity.
Qed.

Lemma batch_images_length (images : list (image (pixels E))) (a m : nat) :
  (a + m <= length images)%nat -> length (batch_images_of E images a m) = m.
Proof.
  intros Hle. unfold batch_images_of.
  rewrite length_map, length_take, length_drop. lia.
Qed.

(** X9.  On a list of images (each with at least one row, window of
    positive height, tiles as in C5) the generator of [batch_detection]
    stops without raising after one item per planned batch, in the order
    of the plan; the item of a batch has one entry per image of the batch
    and carries the original sizes of exactly these images, so that the
    sizes yielded, put end to end, are the sizes of the input in input
    order. *)
Theorem X9_generator_yields_one_item_per_batch (settings : Settings)
    (images : list (image (pixels E))) (proc : processor)
    (batch_size : option Z) :
  0 < size_height proc ->
  Forall (fun im => 0 < im_height im) images ->
  let budget := match batch_size with
                | Some b => b
                | None => get_batch_size settings
                end in
  let sizes := map size images in
  let plan := plan_batches (map (fun sz => get_total_splits sz proc) sizes)
                           budget in
  let g := batch_detection E settings (map PyImage images) proc batch_size in
  gen_ok g /\
  length (gen_items g) = length plan /\
  Forall2 (fun (it : item E) b => length (fst it) = length b) (gen_items g) plan /\
  map snd (gen_items g) = map (map (fun j => nth j sizes (0, 0))) plan /\
  concat (map snd (gen_items g)) = sizes.
Proof.
  intros Hw Hims budget sizes plan g.
  destruct (batch_detection_values E proc images Hw Hims settings batch_size)
    as [Hok Hitems].
  fold budget sizes plan g in Hitems, Hok.
  destruct (plan_batches_inv (map (fun sz => get_total_splits sz proc) sizes)
              budget) as (Hcat & Hne & _).
  fold plan in Hcat, Hne. unfold sizes in Hcat at 1. rewrite !length_map in Hcat.
  assert (Hrange : forall b, In b plan ->
            b = seq (hd 0%nat b) (length b) /\
            (hd 0%nat b + length b <= length images)%nat).
  { intros b Hb.
    destruct (concat_seq_range plan 0 (length images) b Hcat Hb) as (H1 & _ & H2).
    - rewrite List.Forall_forall in Hne. apply Hne. exact Hb.
    - split; [exact H1 | lia]. }
  assert (Hsnd : map snd (gen_items g)
                 = map (map (fun j => nth j sizes (0, 0))) plan).
  { rewrite Hitems, map_map. apply map_ext_in. intros b Hb.
    destruct (Hrange b Hb) as [Hseq Hle].
    unfold item_of_batch, batch_item. cbn [snd]. fold sizes.
    rewrite (take_drop_nth sizes (0, 0))
      by (unfold sizes; rewrite length_map; exact Hle).
    rewrite <- Hseq. reflexivity. }
  split; [exact Hok|]. split; [rewrite Hitems; apply length_map|].
  split; [|split; [exact Hsnd|]].
  - rewrite Hitems. apply Forall2_fmap_l, Forall_Forall2_diag, List.Forall_forall.
    intros b Hb. destruct (Hrange b Hb) as [_ Hle].
    unfold item_of_batch, batch_item. cbn.
    rewrite batch_heatmaps_length, length_map.
    apply batch_images_length. exact Hle.
  - rewrite Hsnd, concat_map_map, Hcat.
    replace (length images) with (length sizes)
      by (unfold sizes; apply length_map).
    apply map_nth_seq.
Qed.

(** The items the generator yields have the shape of the processor. *)
Lemma yielded_items_shaped (settings : Settings)
    (images : list (image (pixels E))) (proc : processor)
    (batch_size : option Z) :
  0 < size_height proc ->
  Forall (fun im => 0 < im_height im) images ->
  Forall (item_shaped E proc (num_labels E))
         (gen_items (batch_detection E settings (map PyImage images) proc
                       batch_size)).
Proof.
  intros Hw Hims.
  destruct (batch_detection_values E proc images Hw Hims settings batch_size)
    as [_ Hitems].
  cbn zeta in Hitems. rewrite Hitems. apply Forall_map, List.Forall_forall.
  intros b _. unfold item_shaped, item_of_batch, batch_item. cbn [fst snd].
  rewrite <- batch_images_sizes.
  apply batch_heatmaps_shape.
  - exact Hw.
  - apply adapt_logits_rows.
  - pose proof (adapt_logits_shape E proc
                  (model_logits E
                     (map (fun t => prepare_image_detection E t proc)
                          (batch_tiles_of E proc images (hd 0%nat b) (length b)))))
      as Hs.
    unfold shape2 in Hs. unfold batch_logits. congruence.
  - unfold batch_images_of. apply Forall_map. cbn.
    apply Forall_take, Forall_drop. exact Hims.
Qed.

(** X8.  Every item the generator yields on a list of images (each with
    at least one row, window of positive height, tiles as in C5) pairs
    every original size [(w, h)] with one heatmap per label, and each of
    these heatmaps has [max h H] rows of [W] entries, [H] and [W] being the
    height and width of the processor: an image lower than the window keeps
    the rows of the padding, a higher one has exactly its own rows. *)
Theorem X8_yielded_heatmaps_shape (settings : Settings)
    (images : list (image (pixels E))) (proc : processor)
    (batch_size : option Z) :
  0 < size_height proc ->
  Forall (fun im => 0 < im_height im) images ->
  Forall (item_shaped E proc (num_labels E))
         (gen_items (batch_detection E settings (map PyImage images) proc
                       batch_size)).
Proof.
  intros Hw Hims.
  exact (yielded_items_shaped settings images proc batch_size Hw Hims).
Qed.

(** X10.  [parallel_get_lines], lines 108-124, returns a result exactly
    when it is given two heatmaps and raises [ValueError] for any other
    number (the unpacking of line 109).  The result carries the bounding
    box [[0, 0, width, height]] of the original size and the two heatmaps
    as images; both extractors are called on their heatmap with its size
    as [[columns, rows]], also for a heatmap without rows, and with the
    original size.  In the pipeline (images with at least one row, window
    of positive height and of a width that is not negative, network of two
    labels) the call for an image of size [(w, h)] succeeds, and the size
    the extractors are given is [[W, max h H]], [H] and [W] being the
    height and the width of the processor. *)
Theorem X10_parallel_get_lines_two_heatmaps (preds : list (ndarray2 (px E)))
    (orig_sizes : Z * Z) :
  ((exists r, parallel_get_lines E preds orig_sizes = Ok r) <->
   length preds = 2%nat) /\
  (length preds <> 2%nat ->
   parallel_get_lines E preds orig_sizes = Raise ValueError) /\
  (forall heatmap_arr affinity_arr r,
     preds = [heatmap_arr; affinity_arr] ->
     parallel_get_lines E preds orig_sizes = Ok r ->
     image_bbox r = [0; 0; fst orig_sizes; snd orig_sizes] /\
     heatmap r = fromarray_uint8 E heatmap_arr /\
     affinity_map r = fromarray_uint8 E affinity_arr /\
     bboxes r
     = get_and_clean_boxes E heatmap_arr
         [Z.of_nat (nd_cols heatmap_arr);
          Z.of_nat (length (nd_rows heatmap_arr))]
         orig_sizes /\
     vertical_lines r
     = get_vertical_lines E affinity_arr
         [Z.of_nat (nd_cols affinity_arr);
          Z.of_nat (length (nd_rows affinity_arr))]
         orig_sizes) /\
  (forall (cols : nat) (a : ndarray2 (px E)),
     nd_cols a = cols -> nd_rows a = [] ->
     reversed_shape a = [Z.of_nat cols; 0]) /\
  (forall (settings : Settings) (images : list (image (pixels E)))
          (proc : processor) (batch_size : option Z) (it : item E) (p : nat),
     0 < size_height proc -> 0 <= size_width proc ->
     Forall (fun im => 0 < im_height im) images ->
     num_labels E = 2%nat ->
     In it (gen_items (batch_detection E settings (map PyImage images) proc
                         batch_size)) ->
     fst it !! p = Some preds -> snd it !! p = Some orig_sizes ->
     exists heatmap_arr affinity_arr r,
       preds = [heatmap_arr; affinity_arr] /\
       parallel_get_lines E preds orig_sizes = Ok r /\
       let shape := [size_width proc;
                     Z.max (snd orig_sizes) (size_height proc)] in
       reversed_shape heatmap_arr = shape /\
       reversed_shape affinity_arr = shape /\
       bboxes r = get_and_clean_boxes E heatmap_arr shape orig_sizes /\
       vertical_lines r = get_vertical_lines E affinity_arr shape orig_sizes).
Proof.
  split; [|split; [|split; [|split]]].
  - split.
    + intros [r Hr]. destruct preds as [|h [|a [|? ?]]]; try discriminate.
      reflexivity.
    + intros Hlen. destruct preds as [|h [|a [|? ?]]]; try discriminate.
      eexists. reflexivity.
  - intros Hlen. destruct preds as [|h [|a [|? ?]]]; try reflexivity.
    contradiction.
  - intros h a r -> Hr. cbn in Hr. injection Hr as <-. repeat split.
  - intros cols a Hc Hr. unfold reversed_shape. rewrite Hc, Hr. reflexivity.
  - intros settings images proc batch_size it p Hw Hwd Hims Hlabels Hin Hp Hs.
    pose proof (yielded_items_shaped settings images proc batch_size Hw Hims)
      as Hall.
    rewrite List.Forall_forall in Hall. specialize (Hall it Hin).
    unfold item_shaped in Hall.
    pose proof (Forall2_lookup_lr _ _ _ _ _ _ Hall Hp Hs) as [Hlen Hshape].
    rewrite Hlabels in Hlen.
    destruct preds as [|h [|a [|? ?]]]; try discriminate.
    apply Forall_cons_1 in Hshape as [Hh Hshape].
    apply Forall_cons_1 in Hshape as [Ha _].
    assert (Hrev : forall x : ndarray2 (px E),
              heatmap_shaped (Z.max (snd orig_sizes) (size_height proc))
                             (size_width proc) x ->
              reversed_shape x
              = [size_width proc; Z.max (snd orig_sizes) (size_height proc)]).
    { intros x (Hrows & _ & Hcols). unfold reversed_shape.
      rewrite Hrows, Hcols, !Z2Nat.id by lia. reflexivity. }
    exists h, a. eexists. split; [reflexivity|]. split; [reflexivity|].
    cbn zeta. cbn [bboxes vertical_lines].
    rewrite (Hrev h Hh), (Hrev a Ha). repeat split.
Qed.

End GeneratorTheorems.

Lemma batch_tiles_zsum (splits : list Z) (b : list nat) :
  batch_tiles splits b = zsum (map (fun j => nth j splits 0) b).
Proof. unfold batch_tiles, zsum. induction b; cbn; congruence. Qed.

Section PlannedTiles.
Variable E : externals.
Variable proc : processor.

Hypothesis window_pos : 0 < size_height proc.




End PlannedTiles.

(** *** What the call returns *)

Section Account.
Variable E : externals.
Variable workers : Z.
Variable g0 : gen (item E).

Lemma account_inv_reachable (par : bool) (s : pipeline E) :
  reachable E par workers (started E g0) s ->
  account_inv E par workers g0 s.
Proof.
  revert s. apply reachable_inv.
  - exists []. split; [reflexivity|]. split; reflexivity.
  - intros s s' (consumed & Heq & Hview) H.
    destruct s as [g q pp cp rs ret tr].
    unfold account_inv, consumer_account, pending in *. cbn in Heq, Hview.
    step_cases H.
    all: try (exists consumed; split; [|exact Hview];
              rewrite <- ?app_assoc; cbn; exact Heq).
    + (* the pool is created *)
      destruct Hview as [-> ->]. exists []. split; [exact Heq|]. tests.
      split; [reflexivity|]. split; [auto|]. exists []. split; reflexivity.
    + (* the pool is refused *)
      destruct Hview as [-> ->]. exists []. split; [exact Heq|]. left. tests.
      repeat split; auto.
    + (* the in-process path *)
      destruct Hview as [-> ->]. exists []. split; [exact Heq|].
      split; [reflexivity|]. split; [discriminate|].
      exists []. split; reflexivity.
    + (* a batch, through the pool *)
      destruct Hview as (<- & Hw & bs & -> & Hbs).
      exists (map Some (bs ++ [i])). split.
      * rewrite map_app, <- app_assoc. exact Heq.
      * split; [reflexivity|]. split; [exact Hw|].
        exists (bs ++ [i]). split; [reflexivity|].
        apply postprocess_all_snoc; assumption.
    + (* a batch, in process *)
      destruct Hview as (<- & Hw & bs & -> & Hbs).
      exists (map Some (bs ++ [i])). split.
      * rewrite map_app, <- app_assoc. exact Heq.
      * split; [reflexivity|]. split; [exact Hw|].
        exists (bs ++ [i]). split; [reflexivity|].
        apply postprocess_all_snoc; assumption.
    + (* a batch whose post-processing raises *)
      destruct Hview as (-> & Hw & bs & -> & Hbs).
      exists (map Some (bs ++ [i])). split.
      * rewrite map_app, <- app_assoc. exact Heq.
      * right. split; [exact Hw|]. exists bs, i. auto.
    + (* the sentinel *)
      destruct Hview as (-> & Hw & bs & -> & Hbs).
      exists (map Some bs ++ [None]). split.
      * rewrite <- app_assoc. exact Heq.
      * split; [exact Hw|]. exists bs. split; [reflexivity | assumption].
Qed.

End Account.

Section Fate.
Variable E : externals.

(** What was taken from the stream of a generator are the first items it
    yields. *)
Lemma to_push_prefix (g : gen (item E)) (bs : list (item E))
    (rest : list (option (item E))) :
  map Some bs ++ rest = to_push g ->
  exists items, gen_items g = bs ++ items.
Proof.
  revert bs. induction g as [x g IH| |e]; intros bs H; cbn in H.
  - destruct bs as [|b bs]; cbn in H; [eexists; reflexivity|].
    injection H as -> H. destruct (IH _ H) as [items Hitems].
    exists items. cbn. rewrite Hitems. reflexivity.
  - destruct bs as [|b bs]; [eexists; reflexivity | discriminate].
  - destruct bs as [|b bs]; [eexists; reflexivity | discriminate].
Qed.

Lemma run_reachable (par : bool) (workers : Z) (s0 : pipeline E)
    (schedule : list actor) :
  forall s, reachable E par workers s0 s ->
            reachable E par workers s0 (run E par workers schedule s).
Proof.
  induction schedule as [|a schedule IH]; intros s Hr; [exact Hr|].
  cbn [run]. destruct (actor_step E par workers a s) as [s'|] eqn:Hs.
  - apply IH. eapply reach_step; [exact Hr|]. exists a. exact Hs.
  - apply IH. exact Hr.
Qed.

(** A system that is never stuck before the return does return. *)
Lemma progress_returns (par : bool) (workers : Z) (s0 : pipeline E) :
  (forall s, reachable E par workers s0 s -> returned s = None ->
             exists s', step E par workers s s') ->
  exists s r, reachable E par workers s0 s /\ returned s = Some r.
Proof.
  intros Hprog.
  assert (Hgen : forall (n : nat) (s : pipeline E),
            (steps_left E s <= n)%nat -> reachable E par workers s0 s ->
            exists s' r, reachable E par workers s0 s' /\ returned s' = Some r).
  { induction n as [|n IH]; intros s Hn Hr.
    - destruct (returned s) as [r|] eqn:Hret; [eauto|].
      destruct (Hprog s Hr Hret) as [s' Hs'].
      apply (step_decreases E par workers) in Hs'. lia.
    - destruct (returned s) as [r|] eqn:Hret; [eauto|].
      destruct (Hprog s Hr Hret) as [s' Hs'].
      apply (IH s').
      + apply (step_decreases E par workers) in Hs'. lia.
      + eapply reach_step; eauto. }
  apply (Hgen _ s0 (le_n _)). constructor.
Qed.

Lemma always_returns_intro (par : bool) (workers : Z) (s0 : pipeline E)
    (rs : list (TextDetectionResult E)) :
  (forall s, reachable E par workers s0 s -> returned s = None ->
             exists s', step E par workers s s') ->
  (forall s r, reachable E par workers s0 s -> returned s = Some r -> r = rs) ->
  always_returns E par workers s0 rs.
Proof.
  intros Hprog Hres. split; [|split; [|split]].
  - destruct (progress_returns par workers s0 Hprog) as (s & r & Hr & Hret).
    exists s. split; [exact Hr|]. rewrite Hret, (Hres s r Hr Hret). reflexivity.
  - exact Hres.
  - exact Hprog.
  - intros s s' _ Hs. apply (step_decreases E par workers s s' Hs).
Qed.

(** The producer can move unless it has ended or waits on a full queue. *)
Lemma producer_moves (s : pipeline E) :
  producer_finished E s = false ->
  (length (batch_queue s) < maxsize)%nat ->
  exists s', inference_producer E s = Some s'.
Proof.
  unfold producer_finished, inference_producer.
  destruct (producer s) as [|b| | |e]; intros Hfin Hlen; try discriminate.
  - destruct (detection_generator s); eauto.
  - destruct (length (batch_queue s) <? maxsize)%nat eqn:Hlt; [eauto|].
    tests. lia.
  - destruct (length (batch_queue s) <? maxsize)%nat eqn:Hlt; [eauto|].
    tests. lia.
Qed.

(** A producer that has not ended still has something to put, unless its
    generator is about to raise: in both cases it moves when what is queued
    and what is to come fit into the queue. *)
Lemma producer_moves_fitting (s : pipeline E) :
  producer_finished E s = false ->
  (length (batch_queue s ++ pending E s) <= maxsize)%nat ->
  exists s', inference_producer E s = Some s'.
Proof.
  intros Hfin Hlen. rewrite length_app in Hlen.
  destruct (producer s) as [|b| | |e] eqn:Hp.
  - unfold inference_producer. rewrite Hp.
    destruct (detection_generator s); eauto.
  - apply producer_moves; [exact Hfin|].
    unfold pending in Hlen. rewrite Hp in Hlen. cbn [length] in Hlen. lia.
  - apply producer_moves; [exact Hfin|].
    unfold pending in Hlen. rewrite Hp in Hlen. cbn [length] in Hlen. lia.
  - unfold producer_finished in Hfin. rewrite Hp in Hfin. discriminate.
  - unfold producer_finished in Hfin. rewrite Hp in Hfin. discriminate.
Qed.

Lemma producer_finished_pending (s : pipeline E) :
  producer_finished E s = true -> pending E s = [].
Proof.
  unfold producer_finished, pending.
  destruct (producer s); intros H; try discriminate; reflexivity.
Qed.

Lemma main_moves (s : pipeline E) :
  returned s = None ->
  producer_finished E s = true -> consumer_finished E s = true ->
  exists s', main_step E s = Some s'.
Proof.
  intros Hret Hp Hc. unfold main_step. rewrite Hret, Hp, Hc. eauto.
Qed.

End Fate.

Section Outcomes.
Variable E : externals.

(** What the call returns, when it returns: the results of the first
    batches, complete unless the consumer ended by an exception. *)
Lemma returned_prefix (par : bool) (workers : Z) (g0 : gen (item E))
    (s : pipeline E) (r : list (TextDetectionResult E)) :
  reachable E par workers (started E g0) s ->
  returned s = Some r ->
  producer_finished E s = true /\
  exists bs rest,
    gen_items g0 = bs ++ rest /\
    postprocess_all E par bs = Ok r /\
    ((consumer s = CDone /\ rest = [] /\ gen_ok g0) \/
     (exists e, consumer s = CCrashed e)).
Proof.
  intros Hr Hret.
  destruct (returned_after_joins E par workers (started E g0) s eq_refl Hr r Hret)
    as (-> & Hp & Hc).
  split; [exact Hp|].
  destruct (account_inv_reachable E workers g0 par s Hr)
    as (consumed & Heq & Hacc).
  unfold consumer_account in Hacc. unfold consumer_finished in Hc.
  destruct (consumer s) as [|pool| |e] eqn:Hcons; try discriminate.
  - destruct Hacc as (_ & bs & -> & Hbs).
    rewrite <- app_assoc in Heq. cbn in Heq.
    destruct (to_push_sentinel E g0 _ _ Heq) as [_ Hok].
    rewrite (to_push_ok E g0 Hok) in Heq.
    apply sentinel_last in Heq as [-> _].
    exists (gen_items g0), []. rewrite app_nil_r.
    split; [reflexivity|]. split; [exact Hbs|]. left. auto.
  - destruct Hacc as [(_ & _ & _ & -> & ->)|(_ & bs & b & -> & Hbs & _)].
    + exists [], (gen_items g0).
      split; [reflexivity|]. split; [reflexivity|]. right. eauto.
    + rewrite map_app, <- !app_assoc in Heq.
      destruct (to_push_prefix E g0 bs _ Heq) as [items Hitems].
      exists bs, items.
      split; [exact Hitems|]. split; [exact Hbs|]. right. eauto.
Qed.

(** X11.  Whatever the input and the settings, a list returned by
    [batch_text_detection] is the post-processing, batch after batch, of
    the first batches the generator yields, in the order in which it yields
    them: of all of them when the consumer left its loop by the sentinel
    (the generator then did not raise), of those before the failure when
    the consumer thread was ended by an exception. *)
Theorem X11_returned_results_are_a_prefix (settings : Settings)
    (images : list (pyobj (pixels E))) (proc : processor)
    (batch_size : option Z) (s : pipeline E)
    (r : list (TextDetectionResult E)) :
  let par := parallelize settings (length images) in
  let workers := max_workers settings (length images) in
  let g := batch_detection E settings images proc batch_size in
  reachable E par workers
    (batch_text_detection E settings images proc batch_size) s ->
  returned s = Some r ->
  exists bs rest,
    gen_items g = bs ++ rest /\
    postprocess_all E par bs = Ok r /\
    ((consumer s = CDone /\ rest = [] /\ gen_ok g) \/
     (exists e, consumer s = CCrashed e)).
Proof.
  intros par workers g Hr Hret.
  exact (proj2 (returned_prefix par workers g s r Hr Hret)).
Qed.

(** A generator that raises leaves the call waiting for ever, unless the
    consumer ends by an exception too. *)
Lemma raising_generator_blocks (par : bool) (workers : Z) (g0 : gen (item E))
    (s : pipeline E) :
  ~ gen_ok g0 ->
  (par = true -> 0 < workers) ->
  Forall (fun b => exists rs, postprocess E par b = Ok rs) (gen_items g0) ->
  reachable E par workers (started E g0) s ->
  returned s = None /\ consumer s <> CDone /\
  forall e, consumer s <> CCrashed e.
Proof.
  intros Hraise Hpool Hpost Hr.
  destruct (account_inv_reachable E workers g0 par s Hr)
    as (consumed & Heq & Hacc).
  unfold consumer_account in Hacc.
  assert (Hdone : consumer s <> CDone).
  { intros Hc. rewrite Hc in Hacc. destruct Hacc as (_ & bs & -> & _).
    rewrite <- app_assoc in Heq. cbn in Heq.
    apply to_push_sentinel in Heq as [_ Hok]. contradiction. }
  assert (Hcrash : forall e, consumer s <> CCrashed e).
  { intros e Hc. rewrite Hc in Hacc.
    destruct Hacc as [(Hpar & Hle & _)|(_ & bs & b & -> & _ & Hb)].
    - specialize (Hpool Hpar). lia.
    - destruct (to_push_prefix E g0 _ _ Heq) as [items Hitems].
      rewrite List.Forall_forall in Hpost.
      destruct (Hpost b) as [rs Hrs]; [|congruence].
      rewrite Hitems. apply in_or_app. left. apply in_or_app. right.
      left. reflexivity. }
  split; [|split; assumption].
  destruct (returned s) as [r|] eqn:Hret; [|reflexivity].
  destruct (returned_after_joins E par workers (started E g0) s eq_refl Hr r Hret)
    as (_ & _ & Hc).
  unfold consumer_finished in Hc.
  destruct (consumer s) eqn:Hcons; try discriminate.
  - exfalso. apply Hdone. reflexivity.
  - exfalso. eapply Hcrash. reflexivity.
Qed.

Lemma sentinel_put_ok (par : bool) (workers : Z) (g0 : gen (item E))
    (s : pipeline E) :
  reachable E par workers (started E g0) s ->
  In (EvPut true) (trace s) -> gen_ok g0.
Proof.
  intros Hr Hin.
  destruct (trace_inv_reachable E workers g0 par s Hr) as (Hput & _).
  assert (Hin' : In (EvPut true) (map put_event (to_push g0))).
  { rewrite <- Hput. apply in_or_app. left.
    apply filter_In. split; [exact Hin | reflexivity]. }
  apply in_map_iff in Hin' as ([b|] & Hev & Hb); [discriminate|].
  apply in_split in Hb as (l1 & l2 & Hsplit).
  symmetry in Hsplit. apply to_push_sentinel in Hsplit. tauto.
Qed.

(** X12.  An exception in the generator (a failed input check, a
    failing batch) is not passed on to the caller: the producer thread ends
    without putting the sentinel, and when nothing ends the consumer thread
    (the pool can be created, every yielded batch post-processes) the
    consumer never leaves its loop and the call never returns, on any
    interleaving. *)
Theorem X12_inference_error_never_returns (settings : Settings)
    (images : list (pyobj (pixels E))) (proc : processor)
    (batch_size : option Z) :
  let par := parallelize settings (length images) in
  let workers := max_workers settings (length images) in
  let g := batch_detection E settings images proc batch_size in
  ~ gen_ok g ->
  (par = true -> 0 < workers) ->
  Forall (fun b => exists rs, postprocess E par b = Ok rs) (gen_items g) ->
  forall s,
    reachable E par workers
      (batch_text_detection E settings images proc batch_size) s ->
    returned s = None /\
    (consumer s = CEnter \/ exists pool, consumer s = CLoop pool) /\
    ~ In (EvPut true) (trace s).
Proof.
  intros par workers g Hraise Hpool Hpost s Hr.
  destruct (raising_generator_blocks par workers g s Hraise Hpool Hpost Hr)
    as (Hret & Hdone & Hcrash).
  split; [exact Hret|]. split.
  - destruct (consumer s) as [|pool| |e] eqn:Hc; eauto.
    + contradiction.
    + exfalso. eapply Hcrash. reflexivity.
  - intros Hin. apply Hraise.
    exact (sentinel_put_ok par workers g s Hr Hin).
Qed.

End Outcomes.

(** *** A consumer thread ended by an exception *)

Section DeadConsumer.
Variable E : externals.
Variable workers : Z.

(** A pool that cannot be created. *)

Lemma pool_refused_inv (g0 : gen (item E)) (s : pipeline E) :
  workers <= 0 ->
  reachable E true workers (started E g0) s ->
  results s = [] /\
  (consumer s = CEnter \/ consumer s = CCrashed ValueError) /\
  batch_queue s ++ pending E s = to_push g0.
Proof.
  intros Hw Hr.
  destruct (account_inv_reachable E workers g0 true s Hr)
    as (consumed & Heq & Hacc).
  unfold consumer_account in Hacc.
  destruct (consumer s) as [|pool| |e] eqn:Hc.
  - destruct Hacc as [-> ->]. auto.
  - destruct Hacc as (_ & Hpos & _). specialize (Hpos eq_refl). lia.
  - destruct Hacc as (Hpos & _). specialize (Hpos eq_refl). lia.
  - destruct Hacc as [(_ & _ & -> & -> & ->)|(Hpos & _)].
    + auto.
    + specialize (Hpos eq_refl). lia.
Qed.

Lemma pool_refused_trace (g0 : gen (item E)) (s : pipeline E) :
  workers <= 0 ->
  reachable E true workers (started E g0) s ->
  List.filter is_consumer_event (trace s) = [].
Proof.
  intros Hw Hr.
  assert (Hinv : List.filter is_consumer_event (trace s) = [] /\
                 (consumer s = CEnter \/ consumer s = CCrashed ValueError));
    [|exact (proj1 Hinv)].
  revert s Hr.
  apply (reachable_inv E true workers (started E g0)
           (fun s => List.filter is_consumer_event (trace s) = [] /\
                     (consumer s = CEnter \/ consumer s = CCrashed ValueError))).
  - cbn. auto.
  - intros s s' [Hev Hc] H. destruct s as [g q pp cp rs ret tr].
    cbn in Hev, Hc.
    step_cases H; rewrite ?List.filter_app, ?Hev; cbn; tests;
      try lia; try (destruct Hc; discriminate); auto.
Qed.

Lemma pool_refused_returns (g0 : gen (item E)) :
  workers <= 0 ->
  (length (to_push g0) <= maxsize)%nat ->
  always_returns E true workers (started E g0) [].
Proof.
  intros Hw Hfit. apply always_returns_intro.
  - intros s Hr Hret.
    destruct (pool_refused_inv g0 s Hw Hr) as (_ & Hc & Hq).
    destruct Hc as [Hc|Hc].
    + assert (exists s', postprocessing_consumer E true workers s = Some s')
        as [s' Hs'].
      { unfold postprocessing_consumer. rewrite Hc.
        destruct (0 <? workers); eauto. }
      exists s'. exists Consumer. exact Hs'.
    + destruct (producer_finished E s) eqn:Hp.
      * destruct (main_moves E s Hret Hp) as [s' Hs'].
        { unfold consumer_finished. rewrite Hc. reflexivity. }
        exists s'. exists Main. exact Hs'.
      * destruct (producer_moves_fitting E s Hp) as [s' Hs'].
        { rewrite Hq. exact Hfit. }
        exists s'. exists Producer. exact Hs'.
  - intros s r Hr Hret.
    destruct (pool_refused_inv g0 s Hw Hr) as (Hres & _).
    destruct (returned_after_joins E true workers (started E g0) s eq_refl Hr
                r Hret) as (-> & _).
    exact Hres.
Qed.


End DeadConsumer.

Section RefusedPool.
Variable E : externals.


(** X15.  On the empty list [batch_text_detection] returns the empty
    list on every interleaving, under every configuration.  When the
    settings select the pool path (threshold of zero or less outside the
    interactive host) the pool is asked for [min(workers, 0)] workers and
    refused: the consumer thread ends with [ValueError], and the sentinel
    is still in the queue when the call returns. *)
Theorem X15_empty_input_returns_empty (settings : Settings) (proc : processor)
    (batch_size : option Z) :
  let par := parallelize settings 0 in
  let workers := max_workers settings 0 in
  let s0 := batch_text_detection E settings [] proc batch_size in
  always_returns E par workers s0 [] /\
  (par = true ->
   forall s, reachable E par workers s0 s ->
     (consumer s = CEnter \/ consumer s = CCrashed ValueError) /\
     (forall r, returned s = Some r -> batch_queue s = [None])).
Proof.
  intros par workers s0.
  assert (Hw : workers <= 0) by (unfold workers, max_workers; cbn; lia).
  change s0 with (started E (@GStop (item E))).
  split.
  - destruct par eqn:Hpar.
    + apply (pool_refused_returns E workers GStop Hw). cbn. unfold maxsize. lia.
    + apply (safe_run_always_returns E workers GStop false []); [|reflexivity].
      split; [exact I|]. split; [exists []; reflexivity | discriminate].
  - intros Hpar s Hr. rewrite Hpar in Hr.
    destruct (pool_refused_inv E workers GStop s Hw Hr) as (_ & Hc & Hq).
    split; [exact Hc|].
    intros r Hret.
    destruct (returned_after_joins E true workers (started E GStop) s eq_refl Hr
                r Hret) as (_ & Hp & _).
    rewrite (producer_finished_pending E s Hp), app_nil_r in Hq. exact Hq.
Qed.

End RefusedPool.

Section FirstBatchFails.
Variable E : externals.
Variable par : bool.
Variable workers : Z.
Variable b : item E.
Variable g' : gen (item E).
Variable e : exn.

Hypothesis pool_ok : par = true -> 0 < workers.
Hypothesis first_fails : postprocess E par b = Raise e.

Lemma first_fails_prefix (bs : list (item E)) (rest : list (option (item E)))
    (rs : list (TextDetectionResult E)) :
  map Some bs ++ rest = to_push (GYield b g') ->
  postprocess_all E par bs = Ok rs ->
  bs = [] /\ rs = [].
Proof using first_fails.
  intros Heq Hbs. destruct bs as [|b1 bs].
  - cbn in Hbs. injection Hbs as <-. auto.
  - cbn in Heq. injection Heq as -> _.
    unfold postprocess_all in Hbs. cbn [rmap] in Hbs.
    rewrite first_fails in Hbs. discriminate.
Qed.

Lemma first_fails_inv (s : pipeline E) :
  reachable E par workers (started E (GYield b g')) s ->
  results s = [] /\
  (((consumer s = CEnter \/ exists pool, consumer s = CLoop pool) /\
    batch_queue s ++ pending E s = to_push (GYield b g')) \/
   (consumer s = CCrashed e /\
    batch_queue s ++ pending E s = to_push g')).
Proof using pool_ok first_fails.
  intros Hr.
  destruct (account_inv_reachable E workers (GYield b g') par s Hr)
    as (consumed & Heq & Hacc).
  unfold consumer_account in Hacc.
  destruct (consumer s) as [|pool| |e'] eqn:Hc.
  - destruct Hacc as [-> ->]. split; [reflexivity|]. left. auto.
  - destruct Hacc as (_ & _ & bs & -> & Hbs).
    destruct (first_fails_prefix bs _ _ Heq Hbs) as [-> Hres].
    split; [exact Hres|]. left. split; [eauto | exact Heq].
  - destruct Hacc as (_ & bs & -> & Hbs). exfalso.
    rewrite <- app_assoc in Heq.
    destruct (first_fails_prefix bs _ _ Heq Hbs) as [-> _]. discriminate.
  - destruct Hacc as [(Hpar & Hle & _)|(_ & bs & b' & -> & Hbs & Hb')].
    + specialize (pool_ok Hpar). lia.
    + rewrite map_app, <- app_assoc in Heq.
      destruct (first_fails_prefix bs _ _ Heq Hbs) as [-> Hres].
      cbn in Heq. injection Heq as -> Heq.
      split; [exact Hres|]. right. split; [|exact Heq]. congruence.
Qed.

Lemma first_fails_returns :
  (length (to_push g') <= maxsize)%nat ->
  always_returns E par workers (started E (GYield b g')) [].
Proof using pool_ok first_fails.
  intros Hfit. apply always_returns_intro.
  - intros s Hr Hret.
    destruct (first_fails_inv s Hr) as (_ & [[Hc Hq]|[Hc Hq]]).
    + destruct Hc as [Hc|[pool Hc]].
      * assert (exists s', postprocessing_consumer E par workers s = Some s')
          as [s' Hs'].
        { unfold postprocessing_consumer. rewrite Hc.
          destruct par; [destruct (0 <? workers)|]; eauto. }
        exists s'. exists Consumer. exact Hs'.
      * destruct (batch_queue s) as [|o q] eqn:Hqueue.
        -- destruct (producer_finished E s) eqn:Hp.
           ++ rewrite (producer_finished_pending E s Hp) in Hq. discriminate.
           ++ destruct (producer_moves E s Hp) as [s' Hs'].
              { rewrite Hqueue. cbn. unfold maxsize. lia. }
              exists s'. exists Producer. exact Hs'.
        -- assert (exists s', postprocessing_consumer E par workers s = Some s')
             as [s' Hs'].
           { unfold postprocessing_consumer. rewrite Hc, Hqueue.
             destruct o as [x|]; [destruct (postprocess E pool x)|]; eauto. }
           exists s'. exists Consumer. exact Hs'.
    + destruct (producer_finished E s) eqn:Hp.
      * destruct (main_moves E s Hret Hp) as [s' Hs'].
        { unfold consumer_finished. rewrite Hc. reflexivity. }
        exists s'. exists Main. exact Hs'.
      * destruct (producer_moves_fitting E s Hp) as [s' Hs'].
        { rewrite Hq. exact Hfit. }
        exists s'. exists Producer. exact Hs'.
  - intros s r Hr Hret.
    destruct (first_fails_inv s Hr) as (Hres & _).
    destruct (returned_after_joins E par workers (started E (GYield b g')) s
                eq_refl Hr r Hret) as (-> & _).
    exact Hres.
Qed.

Lemma first_fails_blocks (s : pipeline E) :
  (maxsize < length (to_push g'))%nat ->
  reachable E par workers (started E (GYield b g')) s ->
  returned s = None.
Proof using pool_ok first_fails.
  intros Hlong Hr.
  destruct (returned s) as [r|] eqn:Hret; [|reflexivity]. exfalso.
  destruct (returned_after_joins E par workers (started E (GYield b g')) s
              eq_refl Hr r Hret) as (_ & Hp & Hc).
  destruct (first_fails_inv s Hr) as (_ & [[Hcons _]|[_ Hq]]).
  - unfold consumer_finished in Hc.
    destruct Hcons as [Hcons|[pool Hcons]]; rewrite Hcons in Hc; discriminate.
  - rewrite (producer_finished_pending E s Hp), app_nil_r in Hq.
    pose proof (queue_bounded E par workers (started E (GYield b g')) s
                  ltac:(cbn; unfold maxsize; lia) Hr) as Hb.
    rewrite Hq in Hb. lia.
Qed.

End FirstBatchFails.

Section WrongLabels.
Variable E : externals.

Lemma parallel_get_lines_arity (preds : list (ndarray2 (px E)))
    (orig_sizes : Z * Z) :
  length preds <> 2%nat ->
  parallel_get_lines E preds orig_sizes = Raise ValueError.
Proof.
  intros Hlen. destruct preds as [|h [|a [|? ?]]]; try reflexivity.
  contradiction.
Qed.

(** With a label count other than two, the first image of a batch already
    fails in the extractor. *)
Lemma wrong_labels_item (proc : processor) (images : list (image (pixels E)))
    (a m : nat) (pool : bool) :
  num_labels E <> 2%nat ->
  (0 < m)%nat -> (a + m <= length images)%nat ->
  postprocess E pool (batch_item E proc images a m) = Raise ValueError.
Proof.
  intros Hlabels Hm Hle. unfold batch_item.
  rewrite <- batch_images_sizes.
  pose proof (batch_images_length E images a m Hle) as Hlen.
  destruct (batch_images_of E images a m) as [|im ims]; [cbn in Hlen; lia|].
  cbn [map batch_heatmaps].
  assert (Hfirst : parallel_get_lines E
                     (image_heatmaps (size_height proc) (num_labels E)
                        (batch_logits E proc images a m) 0
                        (snd (split_image im proc))) (size im)
                   = Raise ValueError).
  { apply parallel_get_lines_arity. rewrite image_heatmaps_length. exact Hlabels. }
  destruct pool; unfold postprocess, postprocess_parallel,
    postprocess_sequential, executor_map; cbn [combine rmap];
    rewrite Hfirst; reflexivity.
Qed.

(** X13.  With a network whose label count is not two, on a non-empty
    list of images (each with at least one row, window of positive height,
    a pool that can be created): the consumer thread is ended by the
    [ValueError] of the first image of the first batch and no result is
    ever accumulated.  With at most four planned batches the producer can
    still put everything, and the call returns the empty list on every
    interleaving, without any exception; with five or more the producer
    ends up waiting on the full queue and the call never returns. *)
Theorem X13_wrong_label_count_fate (settings : Settings)
    (images : list (image (pixels E))) (proc : processor)
    (batch_size : option Z) :
  0 < size_height proc ->
  Forall (fun im => 0 < im_height im) images ->
  images <> [] ->
  num_labels E <> 2%nat ->
  let par := parallelize settings (length images) in
  let workers := max_workers settings (length images) in
  let budget := match batch_size with
                | Some b => b
                | None => get_batch_size settings
                end in
  let plan := plan_batches
                (map (fun sz => get_total_splits sz proc) (map size images))
                budget in
  let s0 := batch_text_detection E settings (map PyImage images) proc batch_size in
  (par = true -> 0 < workers) ->
  ((length plan <= 4)%nat -> always_returns E par workers s0 []) /\
  ((4 < length plan)%nat ->
   forall s, reachable E par workers s0 s -> returned s = None) /\
  forall s, reachable E par workers s0 s ->
    results s = [] /\ consumer s <> CDone /\
    forall e, consumer s = CCrashed e -> e = ValueError.
Proof.
  intros Hw Hims Hne Hlabels par workers budget plan s0 Hpool.
  destruct (batch_detection_values E proc images Hw Hims settings batch_size)
    as [Hok Hitems].
  fold budget plan in Hitems.
  destruct (plan_batches_inv
              (map (fun sz => get_total_splits sz proc) (map size images)) budget)
    as (Hcat & Hnonempty & _).
  fold plan in Hcat, Hnonempty. rewrite !length_map in Hcat.
  destruct plan as [|b0 plan'] eqn:Hplan.
  { cbn in Hcat. destruct images; [contradiction | discriminate]. }
  destruct (concat_seq_range (b0 :: plan') 0 (length images) b0 Hcat
              ltac:(left; reflexivity)
              ltac:(apply Forall_cons_1 in Hnonempty; tauto))
    as (Hseq & _ & Hle).
  assert (Hm : (0 < length b0)%nat).
  { apply Forall_cons_1 in Hnonempty as [Hb0 _].
    destruct b0; [contradiction | cbn; lia]. }
  unfold s0, batch_text_detection.
  destruct (batch_detection E settings (map PyImage images) proc batch_size)
    as [x g1| |e0]; cbn in Hok, Hitems; try discriminate; try contradiction.
  injection Hitems as -> Hitems.
  assert (Hfail : postprocess E par (item_of_batch E proc images b0)
                  = Raise ValueError).
  { apply wrong_labels_item; [exact Hlabels | exact Hm | lia]. }
  assert (Hlen : length (to_push g1) = S (length plan')).
  { rewrite (to_push_ok E g1 Hok), length_app, length_map, Hitems, length_map.
    cbn. lia. }
  split; [|split].
  - intros Hfit. apply (first_fails_returns E par workers _ g1 ValueError Hpool Hfail).
    rewrite Hlen. cbn in Hfit. unfold maxsize. lia.
  - intros Hlong s Hr.
    apply (first_fails_blocks E par workers _ g1 ValueError Hpool Hfail s);
      [|exact Hr].
    rewrite Hlen. cbn in Hlong. unfold maxsize. lia.
  - intros s Hr.
    destruct (first_fails_inv E par workers _ g1 ValueError Hpool Hfail s Hr)
      as (Hres & [[Hc _]|[Hc _]]).
    + split; [exact Hres|].
      destruct Hc as [Hc|[pool Hc]]; rewrite Hc; split; discriminate.
    + split; [exact Hres|]. rewrite Hc. split; [discriminate|].
      intros e' He'. congruence.
Qed.

End WrongLabels.

(** *** Backpressure *)

Lemma filter_postprocess_consumer (tr : list event) :
  List.filter is_postprocess (List.filter is_consumer_event tr)
  = List.filter is_postprocess tr.
Proof.
  induction tr as [|e tr IH]; cbn; [reflexivity|].
  destruct e; cbn; rewrite IH; reflexivity.
Qed.

Lemma postprocess_session (pool : bool) (workers : Z) (calls : list nat)
    (closing : list event) :
  closing = [] \/ closing = leave_pool pool ->
  length (List.filter is_postprocess
            (open_pool pool workers ++ map (batch_event pool) calls ++ closing))
  = length calls.
Proof.
  intros Hclosing. rewrite !List.filter_app, !length_app.
  assert (H1 : List.filter is_postprocess (open_pool pool workers) = [])
    by (destruct pool; reflexivity).
  assert (H2 : List.filter is_postprocess closing = [])
    by (destruct Hclosing as [->| ->]; [|destruct pool]; reflexivity).
  assert (H3 : List.filter is_postprocess (map (batch_event pool) calls)
               = map (batch_event pool) calls).
  { induction calls as [|c calls IH]; cbn; [reflexivity|].
    destruct pool; cbn; f_equal; exact IH. }
  rewrite H1, H2, H3, length_map. cbn. lia.
Qed.

Section Backpressure.
Variable E : externals.
Variable par : bool.
Variable workers : Z.
Variable g0 : gen (item E).

(** The model has been run on what was put and on what the producer has
    in hand; after the last batch the generator is exhausted. *)
Lemma infer_put_inv (s : pipeline E) :
  reachable E par workers (started E g0) s ->
  inferred E s = (batches_put E s + in_hand E s)%nat /\
  (producer s = PPutNone \/ producer s = PDone ->
   detection_generator s = GStop).
Proof.
  revert s. apply reachable_inv.
  - split; [reflexivity|]. intros [H|H]; discriminate.
  - intros s s' [Hinf Hstop] H. destruct s as [g q pp cp rs ret tr].
    unfold inferred, batches_put, in_hand in *. cbn in Hinf, Hstop.
    step_cases H; rewrite ?List.filter_app, ?length_app; cbn.
    all: try match goal with
             | pool : bool |- context [leave_pool ?p] =>
                 is_var p; destruct p; cbn
             end.
    all: try match goal with
             | |- context [if ?p then EvPoolMap _ else EvInProcess _] =>
                 destruct p; cbn
             end.
    all: rewrite ?app_nil_r, ?Nat.add_0_r.
    all: split; [lia|].
    all: try (intros [?|?]; discriminate).
    all: try exact Hstop.
    all: auto.
Qed.

End Backpressure.

Section BackpressureTheorem.
Variable E : externals.

Lemma batches_queued_bound (s : pipeline E) :
  (batches_queued E s <= length (batch_queue s))%nat.
Proof. unfold batches_queued. apply List.filter_length_le. Qed.

(** X16.  Backpressure.  On a list of images (each with at least one
    row, window of positive height, two labels, a pool that can be
    created), at every moment of every interleaving the network has been
    run on at most five batches more than the consumer has taken up (four
    in the queue, one in the producer's hand) and on no more batches than
    planned; when the call returns, it has been run exactly once per
    planned batch and every batch has been post-processed. *)
Theorem X16_inference_at_most_five_batches_ahead (settings : Settings)
    (images : list (image (pixels E))) (proc : processor)
    (batch_size : option Z) :
  0 < size_height proc ->
  Forall (fun im => 0 < im_height im) images ->
  num_labels E = 2%nat ->
  let par := parallelize settings (length images) in
  let workers := max_workers settings (length images) in
  let budget := match batch_size with
                | Some b => b
                | None => get_batch_size settings
                end in
  let plan := plan_batches
                (map (fun sz => get_total_splits sz proc) (map size images))
                budget in
  let s0 := batch_text_detection E settings (map PyImage images) proc batch_size in
  (par = true -> 0 < workers) ->
  forall s, reachable E par workers s0 s ->
    (postprocessed E s <= inferred E s <= postprocessed E s + 5)%nat /\
    (inferred E s <= length plan)%nat /\
    (forall r, returned s = Some r ->
       inferred E s = length plan /\ postprocessed E s = length plan).
Proof.
  intros Hw Hims Hlabels par workers budget plan s0 Hpool s Hr.
  set (g := batch_detection E settings (map PyImage images) proc batch_size).
  destruct (batch_detection_valid E proc images Hw Hims Hlabels settings batch_size)
    as [Hok Hpost]. fold g in Hok, Hpost.
  destruct (Hpost par) as (rs & Hrs & _).
  assert (Hsafe : run_safe E par workers g).
  { split; [exact Hok|]. split; [eauto | exact Hpool]. }
  destruct (batch_detection_values E proc images Hw Hims settings batch_size)
    as [_ Hitems].
  fold budget plan g in Hitems.
  change s0 with (started E g) in Hr.
  destruct (trace_inv_reachable E workers g par s Hr)
    as (_ & Hinf & calls & Hcons).
  destruct (infer_put_inv E par workers g s Hr) as [Hput Hstop].
  pose proof (consumer_safe E workers g par s Hsafe Hr) as Hcc.
  pose proof (queue_bounded E par workers (started E g) s
                ltac:(cbn; lia) Hr) as Hq.
  pose proof (batches_queued_bound s) as Hqb.
  unfold maxsize in Hq.
  rewrite Hitems, length_map in Hinf.
  fold (inferred E s) in Hinf.
  assert (Hhand : (in_hand E s <= 1)%nat).
  { unfold in_hand. destruct (producer s); lia. }
  assert (Hcalls : postprocessed E s = length calls /\
                   (length calls + batches_queued E s = batches_put E s)%nat).
  { unfold postprocessed. rewrite <- filter_postprocess_consumer.
    destruct (consumer s) as [|pool| |e] eqn:Hc.
    - destruct Hcons as (-> & -> & Hcount). split; [reflexivity | cbn; lia].
    - destruct Hcons as (_ & -> & Hcount). split; [|exact Hcount].
      rewrite <- (app_nil_r (map (batch_event par) calls)).
      apply postprocess_session. left. reflexivity.
    - destruct Hcons as (-> & Hcount). split; [|exact Hcount].
      apply postprocess_session. right. reflexivity.
    - exfalso. eapply Hcc. reflexivity. }
  destruct Hcalls as [Hpp Hcount].
  split; [lia|]. split; [lia|].
  intros r Hret.
  destruct (safe_run_result E workers g par s rs r Hsafe Hrs Hr Hret)
    as (_ & Hp & _ & Hqueue).
  rewrite (Hstop (or_intror Hp)) in Hinf. cbn in Hinf.
  unfold batches_queued in Hcount. rewrite Hqueue in Hcount. cbn in Hcount.
  unfold in_hand in Hput. rewrite Hp in Hput. lia.
Qed.

End BackpressureTheorem.

(** *** The plan against other batchings *)

Lemma plan_batches_greedy (splits : list Z) (batch_size : Z) :
  adjacent (next_overflows splits batch_size) (plan_batches splits batch_size).
Proof.
  destruct (plan_loop_greedy splits batch_size (length splits)) as [Hadj Hnil].
  unfold plan_batches.
  set (st := plan_loop splits batch_size (length splits)) in *.
  destruct (current_batch st) as [|i cur] eqn:Hcur;
    cbn [length Nat.ltb Nat.leb].
  - rewrite (Hnil eq_refl). intros [|k] x y Hx Hy; discriminate.
  - exact Hadj.
Qed.

Section Partition.
Variable splits : list Z.
Hypothesis splits_nonneg : Forall (fun n => 0 <= n) splits.

Lemma tiles_before_mono (i j : nat) :
  (i <= j)%nat -> tiles_before splits i <= tiles_before splits j.
Proof using splits_nonneg.
  intros Hij. unfold tiles_before.
  replace j with (i + (j - i))%nat by lia.
  rewrite <- take_take_drop, zsum_app.
  pose proof (zsum_nonneg (take (j - i) (drop i splits))
                (Forall_take _ _ _ (Forall_drop _ _ _ splits_nonneg))).
  lia.
Qed.

Lemma batch_tiles_range (a m : nat) :
  (a + m <= length splits)%nat ->
  batch_tiles splits (seq a m)
  = tiles_before splits (a + m) - tiles_before splits a.
Proof.
  intros Hle. rewrite batch_tiles_zsum, <- (take_drop_nth splits 0) by exact Hle.
  unfold tiles_before. rewrite <- take_take_drop, zsum_app. lia.
Qed.

Lemma images_before_batch (l : list (list nat)) (n k : nat) (b : list nat) :
  concat l = seq 0 n -> l !! k = Some b ->
  b = seq (images_before l k) (length b) /\
  images_before l (S k) = (images_before l k + length b)%nat /\
  (images_before l (S k) <= n)%nat.
Proof.
  intros Hcat Hb. unfold images_before.
  rewrite (take_S_r l k b Hb), concat_app, length_app. cbn [concat].
  rewrite app_nil_r.
  rewrite <- (take_drop_middle l k b Hb), concat_app in Hcat. cbn [concat] in Hcat.
  apply app_eq_seq in Hcat as (_ & Hrest & Hlen).
  apply app_eq_seq in Hrest as (Hseq & _ & Hlen').
  cbn in Hseq. split; [exact Hseq|]. split; [reflexivity | lia].
Qed.

Lemma images_before_all (l : list (list nat)) (n : nat) :
  concat l = seq 0 n -> images_before l (length l) = n.
Proof.
  intros Hcat. unfold images_before.
  rewrite firstn_all, Hcat, length_seq. reflexivity.
Qed.

Variable batch_size : Z.
Variable other : list (list nat).
Hypothesis other_order : concat other = seq 0 (length splits).
Hypothesis other_fits : Forall (fun b => batch_tiles splits b <= batch_size) other.

(** The planner stays ahead: its first [k] batches hold at least as many
    images as the first [k] batches of any batching within the budget. *)
Lemma planner_stays_ahead (k : nat) :
  (k <= length (plan_batches splits batch_size))%nat ->
  (k <= length other)%nat ->
  (images_before other k
   <= images_before (plan_batches splits batch_size) k)%nat.
Proof using splits_nonneg other_order other_fits.
  destruct (plan_batches_inv splits batch_size) as (Hcat & Hne & _).
  pose proof (plan_batches_greedy splits batch_size) as Hgreedy.
  set (plan := plan_batches splits batch_size) in *.
  induction k as [|k IH]; intros Hkp Hkq;
    [unfold images_before; rewrite !take_0; cbn; lia|].
  specialize (IH ltac:(lia) ltac:(lia)).
  destruct (lookup_lt_is_Some_2 plan k ltac:(lia)) as [bp Hbp].
  destruct (lookup_lt_is_Some_2 other k ltac:(lia)) as [bq Hbq].
  destruct (images_before_batch plan _ k bp Hcat Hbp) as (Hpseq & HpS & Hpn).
  destruct (images_before_batch other _ k bq other_order Hbq)
    as (Hqseq & HqS & Hqn).
  destruct (decide (images_before other (S k) <= images_before plan (S k))%nat)
    as [Hle|Hgt]; [exact Hle|]. exfalso.
  assert (Hmore : (S k < length plan)%nat).
  { destruct (decide (S k < length plan)%nat) as [Hlt|Hge]; [exact Hlt|].
    replace (S k) with (length plan) in Hgt at 2 by lia.
    rewrite (images_before_all plan _ Hcat) in Hgt. lia. }
  destruct (lookup_lt_is_Some_2 plan (S k) Hmore) as [bp' Hbp'].
  destruct (images_before_batch plan _ (S k) bp' Hcat Hbp') as (Hp'seq & _ & _).
  assert (Hbp'ne : bp' <> []).
  { rewrite List.Forall_forall in Hne. apply Hne.
    apply list_elem_of_In. eapply list_elem_of_lookup_2. exact Hbp'. }
  destruct bp' as [|j rest]; [contradiction|].
  cbn [length seq] in Hp'seq. injection Hp'seq as Hj _.
  pose proof (Hgreedy k bp (j :: rest) Hbp Hbp') as Hover.
  unfold next_overflows in Hover.
  rewrite List.Forall_forall in other_fits.
  pose proof (other_fits bq ltac:(apply list_elem_of_In;
                                  eapply list_elem_of_lookup_2; exact Hbq)) as Hfit.
  rewrite Hpseq in Hover. rewrite Hqseq in Hfit.
  rewrite batch_tiles_range in Hover, Hfit by lia.
  rewrite <- HpS in Hover. rewrite <- HqS in Hfit.
  assert (Hnth : nth j splits 0
                 = tiles_before splits (S j) - tiles_before splits j).
  { unfold tiles_before. rewrite zsum_take_S by lia. lia. }
  rewrite Hnth, Hj in Hover.
  pose proof (tiles_before_mono (images_before other k) (images_before plan k) IH).
  pose proof (tiles_before_mono (S (images_before plan (S k)))
                (images_before other (S k)) ltac:(lia)).
  lia.
Qed.

Lemma planner_fewest :
  (length (plan_batches splits batch_size) <= length other)%nat.
Proof using splits_nonneg other_order other_fits.
  destruct (plan_batches_inv splits batch_size) as (Hcat & Hne & _).
  destruct (decide (length (plan_batches splits batch_size) <= length other)%nat)
    as [Hle|Hgt]; [exact Hle|]. exfalso.
  pose proof (planner_stays_ahead (length other) ltac:(lia) (le_n _)) as Hahead.
  rewrite (images_before_all other _ other_order) in Hahead.
  destruct (lookup_lt_is_Some_2 (plan_batches splits batch_size) (length other)
              ltac:(lia)) as [b Hb].
  destruct (images_before_batch _ _ _ b Hcat Hb) as (_ & HS & Hn).
  assert (Hbne : b <> []).
  { rewrite List.Forall_forall in Hne. apply Hne.
    apply list_elem_of_In. eapply list_elem_of_lookup_2. exact Hb. }
  destruct b; [contradiction|]. cbn [length] in HS. lia.
Qed.

End Partition.

(** X3.  The planner uses as few batches as can be: whenever the tile
    counts are not negative, every way [other] of cutting the images
    [0, ..., n-1], in order, into batches that all respect the budget has
    at least as many batches as the plan. *)
Theorem X3_planner_uses_fewest_batches (splits_per_image : list Z)
    (batch_size : Z) (other : list (list nat)) :
  Forall (fun n => 0 <= n) splits_per_image ->
  concat other = seq 0 (length splits_per_image) ->
  Forall (fun b => batch_tiles splits_per_image b <= batch_size) other ->
  (length (plan_batches splits_per_image batch_size) <= length other)%nat.
Proof.
  intros Hpos Hcat Hfit.
  exact (planner_fewest splits_per_image Hpos batch_size other Hcat Hfit).
Qed.

(** ** The results of a call *)

(** *** The session of the consumer *)

Lemma rmap_Forall2 {A B : Type} (f : A -> res B) (l : list A) :
  forall ys, rmap f l = Ok ys -> Forall2 (fun x y => f x = Ok y) l ys.
Proof.
  induction l as [|x l IH]; cbn; intros ys H.
  - injection H as <-. constructor.
  - destruct (f x) as [y|] eqn:Hx; cbn in H; [|discriminate].
    destruct (rmap f l) as [ys'|]; cbn in H; [|discriminate].
    injection H as <-. constructor; [exact Hx | apply IH; reflexivity].
Qed.

Section Session.
Variable E : externals.
Variable workers : Z.
Variable g0 : gen (item E).

Lemma session_inv_reachable (par : bool) (s : pipeline E) :
  reachable E par workers (started E g0) s ->
  session_inv E par workers g0 s.
Proof.
  revert s. apply reachable_inv.
  - exists []. split; [reflexivity|]. split; reflexivity.
  - intros s s' (consumed & Heq & Hev) H.
    destruct s as [g q pp cp rs ret tr].
    unfold session_inv, consumer_events, pending in *. cbn in Heq, Hev.
    step_cases H; rewrite ?List.filter_app; cbn; rewrite ?app_nil_r.
    all: try (exists consumed; split;
              [rewrite ?app_nil_r in Heq; rewrite <- ?app_assoc; cbn; exact Heq
              | exact Hev]).
    + (* the pool is created *)
      destruct Hev as [-> Hev]. exists []. split; [exact Heq|].
      split; [reflexivity|]. exists [], []. rewrite Hev. auto.
    + (* the pool is refused *)
      exists consumed. split; [exact Heq | exact I].
    + (* the in-process path *)
      destruct Hev as [-> Hev]. exists []. split; [exact Heq|].
      split; [reflexivity|]. exists [], []. rewrite Hev. auto.
    + (* a batch, through the pool *)
      destruct Hev as (<- & bs & rss & -> & Hrss & Hev).
      exists (map Some (bs ++ [i])). split.
      * rewrite map_app, <- app_assoc. exact Heq.
      * split; [reflexivity|]. exists (bs ++ [i]), (rss ++ [a]).
        split; [reflexivity|]. split.
        -- rewrite rmap_app, Hrss. cbn. rewrite Heqr. reflexivity.
        -- rewrite Hev, !map_app, app_assoc. reflexivity.
    + (* a batch, in process *)
      destruct Hev as (<- & bs & rss & -> & Hrss & Hev).
      exists (map Some (bs ++ [i])). split.
      * rewrite map_app, <- app_assoc. exact Heq.
      * split; [reflexivity|]. exists (bs ++ [i]), (rss ++ [a]).
        split; [reflexivity|]. split.
        -- rewrite rmap_app, Hrss. cbn. rewrite Heqr. reflexivity.
        -- rewrite Hev, !map_app, app_assoc. reflexivity.
    + (* a batch whose post-processing raises *)
      exists (consumed ++ [Some i]). split; [|exact I].
      rewrite <- app_assoc. exact Heq.
    + (* the sentinel *)
      destruct Hev as (-> & bs & rss & -> & Hrss & Hev).
      exists (map Some bs ++ [None]). split.
      * rewrite <- app_assoc. exact Heq.
      * exists bs, rss. split; [reflexivity|]. split; [exact Hrss|].
        rewrite Hev. unfold consumer_session. rewrite app_assoc.
        destruct par; reflexivity.
Qed.


End Session.

(** *** The result of one image *)

(** A block of a concatenation, found by what comes before it. *)
Lemma concat_lookup_block {A : Type} (l : list (list A)) :
  forall (k p : nat) (x : list A) (y : A),
    l !! k = Some x -> x !! p = Some y ->
    concat l !! (length (concat (take k l)) + p)%nat = Some y.
Proof.
  induction l as [|x0 l IH]; intros k p x y Hk Hp; [discriminate|].
  destruct k as [|k]; cbn in Hk |- *.
  - injection Hk as ->. apply lookup_app_l_Some. exact Hp.
  - rewrite length_app, <- Nat.add_assoc, lookup_app_r by lia.
    replace (length x0 + (length (concat (take k l)) + p) - length x0)%nat
      with (length (concat (take k l)) + p)%nat by lia.
    apply (IH k p x y Hk Hp).
Qed.

Lemma concat_block {A : Type} (l : list (list A)) :
  forall (p : nat) (x : list A),
    l !! p = Some x ->
    take (length x) (drop (length (concat (take p l))) (concat l)) = x.
Proof.
  induction l as [|x0 l IH]; intros p x Hp; [discriminate|].
  destruct p as [|p]; cbn in Hp |- *.
  - injection Hp as ->. apply take_app_length.
  - rewrite length_app, drop_app_add'; [|reflexivity]. apply IH. exact Hp.
Qed.

Lemma concat_take_length {A B : Type} (l1 : list (list A)) (l2 : list (list B)) :
  Forall2 (fun x y => length x = length y) l1 l2 ->
  forall k, length (concat (take k l1)) = length (concat (take k l2)).
Proof.
  induction 1 as [|x y l1 l2 Hxy _ IH]; intros [|k]; cbn; try reflexivity.
  rewrite !length_app, Hxy, IH. reflexivity.
Qed.

Section ImageResults.
Variable E : externals.

Lemma postprocess_zip (pool : bool) (preds : list (list (ndarray2 (px E))))
    (sizes : list (Z * Z)) :
  postprocess E pool (preds, sizes)
  = rmap (fun '(pred, orig_size) => parallel_get_lines E pred orig_size)
         (combine preds sizes).
Proof. destruct pool; reflexivity. Qed.

(** The extractor is called on the heatmaps and the size at the same
    position of the batch, and its result is kept at this position. *)
Lemma postprocess_lookup (pool : bool) (preds : list (list (ndarray2 (px E)))) :
  forall (sizes : list (Z * Z)) (rs : list (TextDetectionResult E)) (p : nat)
         (hms : list (ndarray2 (px E))) (sz : Z * Z),
    postprocess E pool (preds, sizes) = Ok rs ->
    preds !! p = Some hms -> sizes !! p = Some sz ->
    exists r, rs !! p = Some r /\ parallel_get_lines E hms sz = Ok r.
Proof.
  induction preds as [|h preds IH]; intros sizes rs p hms sz Hpost Hh Hs;
    [discriminate|].
  destruct sizes as [|s sizes]; [discriminate|].
  rewrite postprocess_zip in Hpost. cbn in Hpost.
  destruct (parallel_get_lines E h s) as [r0|] eqn:H0; cbn in Hpost;
    [|discriminate].
  destruct (rmap _ (combine preds sizes)) as [rs'|] eqn:Hrest; cbn in Hpost;
    [|discriminate].
  injection Hpost as <-.
  destruct p as [|p]; cbn in Hh, Hs |- *.
  - injection Hh as <-. injection Hs as <-. exists r0. auto.
  - apply (IH sizes rs' p hms sz); auto. rewrite postprocess_zip. exact Hrest.
Qed.

Lemma postprocess_length (pool : bool) (preds : list (list (ndarray2 (px E))))
    (sizes : list (Z * Z)) (rs : list (TextDetectionResult E)) :
  postprocess E pool (preds, sizes) = Ok rs ->
  length rs = Nat.min (length preds) (length sizes).
Proof.
  rewrite postprocess_zip. intros H. apply rmap_Forall2 in H.
  apply Forall2_length in H. rewrite <- H. apply length_combine.
Qed.

End ImageResults.

Section BatchResults.
Variable E : externals.
Variable proc : processor.
Variable images : list (image (pixels E)).

Lemma split_image_lengths (im : image (pixels E)) :
  length (fst (split_image im proc)) = length (snd (split_image im proc)).
Proof. unfold split_image. cbn. rewrite !length_map. reflexivity. Qed.

Lemma batch_images_lookup (a m p : nat) (im : image (pixels E)) :
  images !! (a + p)%nat = Some im -> (p < m)%nat ->
  batch_images_of E images a m !! p = Some (convert E "RGB" im).
Proof.
  intros Him Hp. unfold batch_images_of.
  change (map (convert E "RGB") (take m (drop a images)))
    with (convert E "RGB" <$> take m (drop a images)).
  rewrite list_lookup_fmap, lookup_take_lt, lookup_drop, Him by exact Hp.
  reflexivity.
Qed.

Lemma batch_images_take (a m p : nat) :
  (p <= m)%nat ->
  take p (batch_images_of E images a m) = batch_images_of E images a p.
Proof.
  intros Hp. unfold batch_images_of.
  change (map (convert E "RGB") (take m (drop a images)))
    with (convert E "RGB" <$> take m (drop a images)).
  rewrite <- fmap_take, take_take, Nat.min_l by exact Hp. reflexivity.
Qed.

(** The tiles and the valid heights of a batch go in parallel: the tiles
    of the images before position [p] are as many as their heights. *)
Lemma tile_offset_tiles (a m p : nat) :
  (p <= m)%nat ->
  tile_offset (map (fun im => snd (split_image im proc))
                   (batch_images_of E images a m)) p
  = tiles_offset E proc images a p.
Proof.
  intros Hp. unfold tile_offset, tiles_offset, batch_tiles_of.
  rewrite <- (batch_images_take a m p Hp).
  change (map (fun im => snd (split_image im proc)) (batch_images_of E images a m))
    with ((fun im => snd (split_image im proc)) <$> batch_images_of E images a m).
  rewrite <- fmap_take.
  generalize (take p (batch_images_of E images a m)) as l.
  induction l as [|im l IH]; [reflexivity|].
  rewrite fmap_cons. cbn [map concat].
  rewrite !length_app, IH, split_image_lengths. reflexivity.
Qed.

(** The tiles of the image at position [p] of a batch stand in the input
    of the network from the position [tiles_offset] on. *)
Lemma image_tiles_in_batch (a m p : nat) (im : image (pixels E)) :
  images !! (a + p)%nat = Some im -> (p < m)%nat ->
  take (length (fst (split_image (convert E "RGB" im) proc)))
       (drop (tiles_offset E proc images a p) (batch_tiles_of E proc images a m))
  = fst (split_image (convert E "RGB" im) proc).
Proof.
  intros Him Hp. unfold tiles_offset, batch_tiles_of.
  rewrite <- (batch_images_take a m p) by lia.
  change (map (fun im => fst (split_image im proc))
              (take p (batch_images_of E images a m)))
    with ((fun im => fst (split_image im proc)) <$>
          take p (batch_images_of E images a m)).
  rewrite fmap_take. apply concat_block.
  rewrite list_lookup_fmap, (batch_images_lookup a m p im Him Hp). reflexivity.
Qed.

(** The result at position [p] of a batch is the extractor's, on the
    heatmaps reassembled from the logits of the tiles of the image at this
    position and on the original size of this image. *)
Lemma item_result (pool : bool) (a m p : nat) (im : image (pixels E))
    (rs_b : list (TextDetectionResult E)) :
  images !! (a + p)%nat = Some im -> (p < m)%nat ->
  postprocess E pool (batch_item E proc images a m) = Ok rs_b ->
  exists r,
    rs_b !! p = Some r /\
    parallel_get_lines E
      (image_heatmaps (size_height proc) (num_labels E)
         (batch_logits E proc images a m) (tiles_offset E proc images a p)
         (snd (split_image (convert E "RGB" im) proc)))
      (size im) = Ok r.
Proof.
  intros Him Hp Hpost. unfold batch_item in Hpost.
  eapply (postprocess_lookup E pool _ _ rs_b p _ (size im) Hpost).
  - rewrite (batch_heatmaps_lookup E proc (num_labels E) _ _ 0 p
               (snd (split_image (convert E "RGB" im) proc))).
    + rewrite Nat.add_0_l, (tile_offset_tiles a m p) by lia. reflexivity.
    + change (map (fun im => snd (split_image im proc)) (batch_images_of E images a m))
        with ((fun im => snd (split_image im proc)) <$> batch_images_of E images a m).
      rewrite list_lookup_fmap, (batch_images_lookup a m p im Him Hp).
      reflexivity.
  - rewrite lookup_take_lt, lookup_drop by exact Hp.
    change (map size images) with (size <$> images).
    rewrite list_lookup_fmap, Him. reflexivity.
Qed.

Lemma item_result_length (pool : bool) (a m : nat)
    (rs_b : list (TextDetectionResult E)) :
  (a + m <= length images)%nat ->
  postprocess E pool (batch_item E proc images a m) = Ok rs_b ->
  length rs_b = m.
Proof.
  intros Hle Hpost. unfold batch_item in Hpost.
  apply postprocess_length in Hpost. rewrite Hpost.
  rewrite batch_heatmaps_length, length_map, batch_images_length by exact Hle.
  rewrite length_take, length_drop, length_map. lia.
Qed.

End BatchResults.

(** Every planned batch is a range of images: it starts where the batches
    before it end. *)
Lemma plan_batches_ranges (splits : list Z) (batch_size : Z) (k : nat)
    (b : list nat) :
  plan_batches splits batch_size !! k = Some b ->
  b <> [] /\
  b = seq (hd 0%nat b) (length b) /\
  hd 0%nat b = images_before (plan_batches splits batch_size) k /\
  (hd 0%nat b + length b <= length splits)%nat.
Proof.
  intros Hk. destruct (plan_batches_inv splits batch_size) as (Hcat & Hne & _).
  assert (Hb : b <> []).
  { rewrite Forall_forall in Hne. apply Hne.
    eapply list_elem_of_lookup_2. exact Hk. }
  destruct (images_before_batch _ _ k b Hcat Hk) as (Hseq & HS & Hle).
  assert (Hhd : hd 0%nat b = images_before (plan_batches splits batch_size) k).
  { rewrite Hseq. destruct (length b) eqn:Hl; [|reflexivity].
    destruct b; [contradiction | discriminate]. }
  split; [exact Hb|]. split; [rewrite Hhd; exact Hseq|].
  split; [exact Hhd|]. rewrite Hhd. lia.
Qed.

Section PipelineResults.
Variable E : externals.
Variable proc : processor.
Variable images : list (image (pixels E)).

Hypothesis window_pos : 0 < size_height proc.
Hypothesis images_pos : Forall (fun im => 0 < im_height im) images.

(** What the call returns is made of one block of results per planned
    batch, of one result per image of the batch. *)
Lemma batch_results (pool : bool) (settings : Settings) (batch_size : option Z)
    (rs : list (TextDetectionResult E)) :
  let budget := match batch_size with
                | Some b => b
                | None => get_batch_size settings
                end in
  let plan := plan_batches
                (map (fun sz => get_total_splits sz proc) (map size images))
                budget in
  let g := batch_detection E settings (map PyImage images) proc batch_size in
  postprocess_all E pool (gen_items g) = Ok rs ->
  exists rss,
    rmap (postprocess E pool) (gen_items g) = Ok rss /\
    rs = concat rss /\
    Forall2 (fun b rs_b =>
               postprocess E pool (item_of_batch E proc images b) = Ok rs_b /\
               length rs_b = length b) plan rss.
Proof using window_pos images_pos.
  intros budget plan g Hrs.
  destruct (batch_detection_values E proc images window_pos images_pos
              settings batch_size) as (_ & Hitems).
  fold budget plan g in Hitems.
  unfold postprocess_all in Hrs.
  change (rbind (rmap (postprocess E pool) (gen_items g))
                (fun rs => Ok (concat rs)) = Ok rs) in Hrs.
  destruct (rmap (postprocess E pool) (gen_items g)) as [rss|] eqn:Hrss;
    cbn in Hrs; [|discriminate].
  injection Hrs as <-. exists rss. split; [reflexivity|].
  split; [reflexivity|].
  apply rmap_Forall2 in Hrss. rewrite Hitems in Hrss.
  change (map (item_of_batch E proc images) plan)
    with (item_of_batch E proc images <$> plan) in Hrss.
  apply Forall2_fmap_l in Hrss.
  apply Forall2_same_length_lookup_2; [eapply Forall2_length; exact Hrss|].
  intros k b rs_b Hb Hr.
  pose proof (Forall2_lookup_lr _ _ _ _ _ _ Hrss Hb Hr) as Hpost.
  cbn in Hpost. split; [exact Hpost|].
  destruct (plan_batches_ranges _ _ k b Hb) as (_ & _ & _ & Hle).
  rewrite !length_map in Hle.
  apply (item_result_length E proc images pool (hd 0%nat b) (length b) rs_b Hle).
  exact Hpost.
Qed.

(** The result of every image stands at the index of the image, and is
    the extractor's, on the heatmaps reassembled from the outputs of the
    network for the tiles of this image and on the original size of this
    image. *)
Lemma result_of_image (pool : bool) (settings : Settings)
    (batch_size : option Z) (rs : list (TextDetectionResult E)) :
  let budget := match batch_size with
                | Some b => b
                | None => get_batch_size settings
                end in
  let plan := plan_batches
                (map (fun sz => get_total_splits sz proc) (map size images))
                budget in
  let g := batch_detection E settings (map PyImage images) proc batch_size in
  postprocess_all E pool (gen_items g) = Ok rs ->
  forall (k p i : nat) (b : list nat),
    plan !! k = Some b -> b !! p = Some i ->
    let a := hd 0%nat b in
    let off := tiles_offset E proc images a p in
    exists im r,
      images !! i = Some im /\ rs !! i = Some r /\
      take (length (fst (split_image (convert E "RGB" im) proc)))
           (drop off (batch_tiles_of E proc images a (length b)))
      = fst (split_image (convert E "RGB" im) proc) /\
      parallel_get_lines E
        (image_heatmaps (size_height proc) (num_labels E)
           (batch_logits E proc images a (length b)) off
           (snd (split_image (convert E "RGB" im) proc)))
        (size im) = Ok r.
Proof using window_pos images_pos.
  intros budget plan g Hrs k p i b Hb Hp a off.
  destruct (batch_results pool settings batch_size rs Hrs)
    as (rss & _ & -> & Hall).
  fold budget plan in Hall.
  destruct (plan_batches_ranges _ _ k b Hb) as (_ & Hseq & Hhd & Hle).
  fold budget plan a in Hseq, Hhd, Hle.
  rewrite !length_map in Hle.
  assert (Hpi : i = (a + p)%nat /\ (p < length b)%nat).
  { rewrite Hseq in Hp. apply lookup_seq in Hp. lia. }
  destruct Hpi as [-> Hplt].
  destruct (images !! (a + p)%nat) as [im|] eqn:Him;
    [|apply lookup_ge_None_1 in Him; lia].
  destruct (Forall2_lookup_l _ _ _ _ _ Hall Hb) as (rs_b & Hrb & Hpost & Hlen).
  destruct (item_result E proc images pool a (length b) p im rs_b Him Hplt Hpost)
    as (r & Hr & Hres).
  exists im, r. split; [reflexivity|]. split.
  - assert (Hbefore : length (concat (take k rss)) = a).
    { rewrite Hhd. unfold images_before. apply concat_take_length.
      apply Forall2_flip. eapply Forall2_impl; [exact Hall|].
      intros x y [_ Hxy]. exact Hxy. }
    rewrite <- Hbefore. apply (concat_lookup_block rss k p rs_b r Hrb Hr).
  - split; [|exact Hres].
    apply (image_tiles_in_batch E proc images a (length b) p im Him Hplt).
Qed.

End PipelineResults.

(** *** The claims on the whole call *)

Section ResultOrder.
Variable E : externals.

(** C3, amended.  For every list of N images that have each at least one
    row (the window being of positive height and the network having two
    labels), [batch_text_detection] returns one and the same list of
    exactly N results on every interleaving and on either path, provided
    the pool, on the pool path, can be created.  Every image lies in one
    planned batch, and the result at the index of an image is the
    extractor's, on the heatmaps reassembled from the outputs of the
    network for the tiles of this very image (which stand in the input of
    the network from the position of these outputs on) and on the original
    size of this image, whose box it carries.  A pool delivers for a batch
    what the in-process comprehension computes, in whatever order its
    workers finish. *)
Theorem C3_results_in_input_order (settings : Settings)
    (images : list (image (pixels E))) (proc : processor)
    (batch_size : option Z) :
  0 < size_height proc ->
  Forall (fun im => 0 < im_height im) images ->
  num_labels E = 2%nat ->
  let budget := match batch_size with
                | Some b => b
                | None => get_batch_size settings
                end in
  let plan := plan_batches
                (map (fun sz => get_total_splits sz proc) (map size images))
                budget in
  exists rs : list (TextDetectionResult E),
    length rs = length images /\
    (forall i im, images !! i = Some im ->
       exists r, rs !! i = Some r /\
                 image_bbox r = [0; 0; im_width im; im_height im]) /\
    (forall i, (i < length images)%nat ->
       exists k p b, plan !! k = Some b /\ b !! p = Some i) /\
    (forall (k p i : nat) (b : list nat),
       plan !! k = Some b -> b !! p = Some i ->
       let a := hd 0%nat b in
       let off := tiles_offset E proc images a p in
       exists im r,
         images !! i = Some im /\ rs !! i = Some r /\
         take (length (fst (split_image (convert E "RGB" im) proc)))
              (drop off (batch_tiles_of E proc images a (length b)))
         = fst (split_image (convert E "RGB" im) proc) /\
         parallel_get_lines E
           (image_heatmaps (size_height proc) (num_labels E)
              (batch_logits E proc images a (length b)) off
              (snd (split_image (convert E "RGB" im) proc)))
           (size im) = Ok r) /\
    (forall pool,
       postprocess_all E pool
         (gen_items (batch_detection E settings (map PyImage images) proc
                       batch_size)) = Ok rs) /\
    (forall (preds : list (list (ndarray2 (px E)))) (orig_sizes : list (Z * Z))
            (completion : list nat),
       (forall i, (i < length (combine preds orig_sizes))%nat ->
                  In i completion) ->
       executor_map_completed completion (parallel_get_lines E) preds orig_sizes
       = Some (postprocess_sequential E (preds, orig_sizes))) /\
    forall (par : bool) (workers : Z),
      (par = true -> 0 < workers) ->
      always_returns E par workers
        (batch_text_detection E settings (map PyImage images) proc batch_size)
        rs.
Proof.
  intros Hw Hims Hlabels budget plan.
  destruct (results_carry_input_boxes E settings images proc batch_size
              Hw Hims Hlabels) as (rs & Hlen & Hbox & Hpost & Hmap & Hret).
  exists rs. split; [exact Hlen|]. split; [exact Hbox|]. split.
  - intros i Hi.
    destruct (plan_batches_inv
                (map (fun sz => get_total_splits sz proc) (map size images))
                budget) as (Hcat & _).
    fold plan in Hcat. rewrite !length_map in Hcat.
    assert (Hin : In i (concat plan)).
    { rewrite Hcat. apply in_seq. lia. }
    apply in_concat in Hin as (b & Hb & Hib).
    apply list_elem_of_In, list_elem_of_lookup_1 in Hb as [k Hk].
    apply list_elem_of_In, list_elem_of_lookup_1 in Hib as [p Hp].
    exists k, p, b. auto.
  - split; [|split; [exact Hpost|split; [exact Hmap | exact Hret]]].
    apply (result_of_image E proc images Hw Hims false settings batch_size rs
             (Hpost false)).
Qed.

End ResultOrder.

(** C3, as stated, fails in two ways.  An image without rows has no tile,
    so the reassembler opens no entry for it: for an image of seven rows
    followed by one without rows the call returns a single result for two
    images.  And where the pool path is selected with no worker for the
    pool, the pool is refused and the call returns no result at all for
    three images, which the in-process path would have served. *)
Lemma C3_counterexample :
  (let images := demo_images_one_empty in
   let s0 := batch_text_detection demo_externals demo_settings
               (map PyImage images) demo_processor None in
   length images = 2%nat /\
   exists rs,
     always_returns demo_externals
       (parallelize demo_settings (length images))
       (max_workers demo_settings (length images)) s0 rs /\
     length rs = 1%nat) /\
  (let images := demo_images in
   let s0 := batch_text_detection demo_externals demo_settings_no_workers
               (map PyImage images) demo_processor None in
   length images = 3%nat /\
   parallelize demo_settings_no_workers (length images) = true /\
   always_returns demo_externals
     (parallelize demo_settings_no_workers (length images))
     (max_workers demo_settings_no_workers (length images)) s0 []).
Proof.
  split.
  - intros images s0. split; [reflexivity|].
    set (g := batch_detection demo_externals demo_settings (map PyImage images)
                demo_processor None).
    destruct (postprocess_all demo_externals false (gen_items g))
      as [rs|e] eqn:Hrs; [|vm_compute in Hrs; discriminate].
    exists rs. split.
    + apply (safe_run_always_returns demo_externals _ g false rs); [|exact Hrs].
      split; [vm_compute; exact I|].
      split; [exists rs; exact Hrs | discriminate].
    + vm_compute in Hrs. injection Hrs as <-. reflexivity.
  - intros images s0. split; [reflexivity|]. split; [reflexivity|].
    apply (pool_refused_returns demo_externals 0).
    + lia.
    + vm_compute. lia.
Qed.

(** C6, on the code.  For a list that holds something else than an image
    (here an image followed by the path of one) the check of line 37 does
    fail at once, [AssertionError], before anything is planned; but
    [batch_detection] is a generator, so the check runs where the
    generator is first resumed, in the producer thread.  The exception ends
    that thread and goes no further: nothing is put on the queue, the
    sentinel included, the consumer waits on the empty queue, the main
    thread waits on the consumer, and no thread can move any more.  On no
    interleaving does the call return, with an error or otherwise. *)
Theorem C6_assertion_stays_in_producer :
  let images := demo_images_and_path in
  let g := batch_detection demo_externals demo_settings images
             demo_processor None in
  let s0 := batch_text_detection demo_externals demo_settings images
              demo_processor None in
  let par := parallelize demo_settings (length images) in
  let workers := max_workers demo_settings (length images) in
  let s := run demo_externals par workers (round_robin 2) s0 in
  g = GRaise AssertionError /\
  reachable demo_externals par workers s0 s /\
  producer s = PCrashed AssertionError /\
  consumer s = CLoop false /\
  batch_queue s = [] /\ results s = [] /\ trace s = [] /\
  returned s = None /\
  (forall a, actor_step demo_externals par workers a s = None) /\
  forall s', reachable demo_externals par workers s0 s' -> returned s' = None.
Proof.
  intros images g s0 par workers s.
  split; [reflexivity|].
  split; [apply run_reachable; constructor|].
  split; [reflexivity|]. split; [reflexivity|]. split; [reflexivity|].
  split; [reflexivity|]. split; [reflexivity|]. split; [reflexivity|].
  split; [intros [| |]; reflexivity|].
  intros s' Hr.
  apply (invalid_input_never_returns demo_externals demo_settings images
           demo_processor None par workers s').
  - right. left. reflexivity.
  - discriminate.
  - exact Hr.
Qed.

Section PoolLifecycle.
Variable E : externals.


End PoolLifecycle.


Section EmptyInputTheorem.
Variable E : externals.

(** C10, amended.  On the empty list the planner produces no batch and the
    generator stops without yielding; [batch_text_detection] returns the
    empty list on every interleaving, whatever the settings; along the way
    the network is never run, the extractor is never called, and the only
    thing the producer ever puts on the queue is the sentinel, after which
    it is done.  When the in-process path is selected (the host is the
    interactive one or the parallel threshold is positive) no pool is
    opened and the consumer ends by taking the sentinel, before the call
    returns. *)
Theorem C10_empty_input (settings : Settings) (proc : processor)
    (batch_size : option Z) :
  let par := parallelize settings 0 in
  let workers := max_workers settings 0 in
  let s0 := batch_text_detection E settings [] proc batch_size in
  (forall budget, plan_batches [] budget = []) /\
  batch_detection E settings [] proc batch_size = GStop /\
  always_returns E par workers s0 [] /\
  (forall s, reachable E par workers s0 s ->
     List.filter is_infer (trace s) = [] /\
     List.filter is_postprocess (trace s) = [] /\
     results s = [] /\
     (exists rest, List.filter is_put (trace s) ++ rest = [EvPut true]) /\
     (forall r, returned s = Some r ->
        r = [] /\ producer s = PDone /\
        List.filter is_put (trace s) = [EvPut true])) /\
  (IN_STREAMLIT settings = true \/ 0 < DETECTOR_MIN_PARALLEL_THRESH settings ->
   par = false /\
   forall s, reachable E par workers s0 s ->
     List.filter is_consumer_event (trace s) = [] /\
     (consumer s = CDone -> producer s = PDone /\ batch_queue s = []) /\
     (forall r, returned s = Some r -> consumer s = CDone)).
Proof.
  intros par workers s0.
  split; [reflexivity|]. split; [reflexivity|].
  assert (Hpar : par = true -> workers <= 0).
  { intros _. unfold workers, max_workers. cbn. lia. }
  assert (Hret : always_returns E par workers s0 []).
  { destruct par eqn:Hp.
    - apply (pool_refused_returns E workers GStop (Hpar eq_refl)).
      cbn. unfold maxsize. lia.
    - apply (safe_run_always_returns E workers GStop false []); [|reflexivity].
      split; [exact I|]. split; [exists []; reflexivity | discriminate]. }
  split; [exact Hret|]. split.
  - intros s Hr. change s0 with (started E (@GStop (item E))) in Hr.
    pose proof (trace_inv_reachable E workers GStop par s Hr)
      as (Hput & Hinf & _).
    pose proof (account_inv_reachable E workers GStop par s Hr)
      as (consumed & Heq & Hacc).
    pose proof (pending_nil_done E par workers GStop s I Hr) as Hdone.
    cbn in Heq, Hput, Hinf.
    assert (Hbs : forall bs : list (item E),
               consumed = map Some bs \/ consumed = map Some bs ++ [None] \/
               (exists b, consumed = map Some (bs ++ [b])) ->
               bs = [] /\ forall b, consumed <> map Some (bs ++ [b])).
    { intros [|b bs] Hc.
      - split; [reflexivity|]. intros b ->. discriminate.
      - exfalso. destruct Hc as [->|[->|[b' ->]]]; discriminate. }
    assert (Hnone : results s = [] /\ List.filter is_postprocess (trace s) = []).
    { pose proof (trace_inv_reachable E workers GStop par s Hr)
        as (_ & _ & calls & Hcons).
      pose proof (session_inv_reachable E workers GStop par s Hr)
        as (consumed' & Heq' & Hev).
      cbn in Heq'.
      assert (Hbs' : forall bs : list (item E),
                 consumed' = map Some bs \/ consumed' = map Some bs ++ [None] ->
                 bs = []).
      { intros [|b bs] [->| ->]; try reflexivity; discriminate. }
      rewrite <- filter_postprocess_consumer.
      unfold consumer_account in Hacc. unfold consumer_events in Hev.
      destruct (consumer s) as [|pool| |e] eqn:Hc.
      - destruct Hev as [_ ->]. split; [apply Hacc | reflexivity].
      - destruct Hacc as (_ & _ & bs & Hb & Hres).
        destruct (Hbs bs (or_introl Hb)) as [-> _]. cbn in Hres.
        destruct Hev as (_ & bs' & rss & Hb' & Hrss & ->).
        rewrite (Hbs' bs' (or_introl Hb')) in Hrss. cbn in Hrss.
        injection Hrss as <-. split; [congruence|].
        destruct par; reflexivity.
      - destruct Hacc as (_ & bs & Hb & Hres).
        destruct (Hbs bs (or_intror (or_introl Hb))) as [-> _]. cbn in Hres.
        destruct Hev as (bs' & rss & Hb' & Hrss & ->).
        rewrite (Hbs' bs' (or_intror Hb')) in Hrss. cbn in Hrss.
        injection Hrss as <-. split; [congruence|].
        destruct par; reflexivity.
      - destruct Hacc as [(-> & Hw & _ & _ & Hres)|(_ & bs & b & Hb & _)].
        + split; [exact Hres|].
          rewrite (pool_refused_trace E workers GStop s Hw Hr). reflexivity.
        + exfalso. destruct (Hbs bs (or_intror (or_intror (ex_intro _ b Hb))))
            as [_ Hno]. apply (Hno b Hb). }
    destruct Hnone as [Hres Hpp].
    split; [apply length_zero_iff_nil; lia|].
    split; [exact Hpp|]. split; [exact Hres|].
    split; [eexists; exact Hput|].
    intros r Hr'.
    destruct (returned_after_joins E par workers (started E (@GStop (item E)))
                s eq_refl Hr r Hr') as (-> & Hpf & _).
    split; [exact Hres|].
    assert (Hp : producer s = PDone).
    { pose proof (producer_safe E workers GStop par s I Hr) as [_ Hpc].
      unfold producer_finished in Hpf.
      destruct (producer s) as [| | | |e]; try discriminate; [reflexivity|].
      exfalso. apply (Hpc e). reflexivity. }
    split; [exact Hp|].
    apply Hdone in Hp. rewrite Hp, app_nil_r in Hput. exact Hput.
  - intros Hthresh.
    destruct (empty_input_in_process E settings proc batch_size Hthresh)
      as (_ & _ & Hfalse & _ & Hall).
    split; [exact Hfalse|]. intros s Hr.
    destruct (Hall s Hr) as (_ & Hev & _ & _ & Hdone & Hfin).
    split; [exact Hev|]. split; [exact Hdone|].
    intros r Hr'. apply (Hfin r Hr').
Qed.

End EmptyInputTheorem.

(** C10, as stated, fails where the parallel threshold is zero (and the
    host is not the interactive one): the empty list then selects the pool
    path with [min(8, 0) = 0] workers, the pool is refused, and the consumer
    ends by [ValueError] without ever taking the sentinel, which is still
    in the queue when the call returns the empty list. *)
Lemma C10_counterexample :
  let par := parallelize demo_settings_eager 0 in
  let workers := max_workers demo_settings_eager 0 in
  let s0 := batch_text_detection demo_externals demo_settings_eager []
              demo_processor None in
  let s := run demo_externals par workers (round_robin 3) s0 in
  par = true /\ workers = 0 /\
  returned s = Some [] /\
  producer s = PDone /\
  consumer s = CCrashed ValueError /\
  batch_queue s = [None] /\
  ~ (exists s', reachable demo_externals par workers s0 s' /\
                consumer s' = CDone).
Proof.
  intros par workers s0 s.
  split; [reflexivity|]. split; [reflexivity|]. split; [reflexivity|].
  split; [reflexivity|]. split; [reflexivity|]. split; [reflexivity|].
  intros (s' & Hr & Hc).
  destruct (pool_refused_inv demo_externals 0 GStop s' ltac:(lia) Hr)
    as (_ & [Hc'|Hc'] & _); rewrite Hc in Hc'; discriminate.
Qed.

(** ** The definitions at work *)

(** Three images of 7, 3 and 9 rows, window of 4 rows, budget of 4 tiles:
    tile counts 2, 1 and 3, hence the batches [[0; 1]] and [[2]]. *)
Example demo_plan :
  plan_batches
    (map (fun sz => get_total_splits sz demo_processor) (map size demo_images)) 4
  = [[0; 1]; [2]]%nat.
Proof. reflexivity. Qed.

(** One run on the pool path: the results come in input order and the pool
    is opened once, serves both batches and is closed. *)
Example demo_run_pool :
  let s := run demo_externals true 3 (round_robin 20)
             (batch_text_detection demo_externals demo_settings
                (map PyImage demo_images) demo_processor None) in
  option_map (map image_bbox) (returned s)
    = Some [[0; 0; 2; 7]; [0; 0; 2; 3]; [0; 0; 2; 9]] /\
  trace s = [EvInfer; EvPoolOpen 3; EvPut false; EvPoolMap 2; EvInfer;
             EvPut false; EvPoolMap 1; EvPut true; EvPoolClose].
Proof. split; vm_compute; reflexivity. Qed.

(** Another interleaving, in process, with the producer running ahead: the
    same results. *)
Example demo_run_in_process :
  let s := run demo_externals false 3 (repeat Producer 30 ++ round_robin 20)
             (batch_text_detection demo_externals demo_settings
                (map PyImage demo_images) demo_processor None) in
  option_map (map image_bbox) (returned s)
    = Some [[0; 0; 2; 7]; [0; 0; 2; 3]; [0; 0; 2; 9]] /\
  trace s = [EvInfer; EvPut false; EvInfer; EvPut false; EvPut true;
             EvInProcess 2; EvInProcess 1].
Proof. split; vm_compute; reflexivity. Qed.

(** The workers finishing the third job first and the first job last. *)
Example demo_pool_order :
  executor_map_completed [2; 1; 0]%nat (fun x y => Ok (x + y))
                         [1; 2; 3] [10; 20; 30]
  = Some (Ok [11; 22; 33]).
Proof. vm_compute. reflexivity. Qed.

(** ** Instances of the theorems with hypotheses *)

Lemma C5_tile_count_witness :
  0 < size_height demo_processor /\
  0 <= im_height (demo_image 7) /\
  get_total_splits (size (demo_image 7)) demo_processor = 2 /\
  length (fst (split_image (demo_image 7) demo_processor)) = 2%nat /\
  zsum (snd (split_image (demo_image 7) demo_processor)) = 7.
Proof.
  assert (H1 : 0 < size_height demo_processor) by (cbn; lia).
  assert (H2 : 0 <= im_height (demo_image 7)) by (cbn; lia).
  split; [exact H1|]. split; [exact H2|].
  destruct (C5_tile_count (demo_image 7) demo_processor H1 H2)
    as (_ & Hn & Hlen & _ & Hsum).
  split; [rewrite Hn; reflexivity|].
  split; [rewrite Hlen, Hn; reflexivity | exact Hsum].
Defined.


Lemma C3_results_in_input_order_witness :
  0 < size_height demo_processor /\
  Forall (fun im : image unit => 0 < im_height im) demo_images /\
  num_labels demo_externals = 2%nat /\
  exists rs : list (TextDetectionResult demo_externals),
    length rs = 3%nat /\
    map image_bbox rs = [[0; 0; 2; 7]; [0; 0; 2; 3]; [0; 0; 2; 9]] /\
    always_returns demo_externals true 3
      (batch_text_detection demo_externals demo_settings
         (map PyImage demo_images) demo_processor None) rs /\
    always_returns demo_externals false 3
      (batch_text_detection demo_externals demo_settings
         (map PyImage demo_images) demo_processor None) rs.
Proof.
  assert (H1 : 0 < size_height demo_processor) by (cbn; lia).
  assert (H2 : Forall (fun im : image unit => 0 < im_height im) demo_images)
    by (repeat constructor).
  split; [exact H1|]. split; [exact H2|]. split; [reflexivity|].
  destruct (C3_results_in_input_order demo_externals demo_settings demo_images
              demo_processor None H1 H2 eq_refl)
    as (rs & Hlen & Hbox & _ & _ & _ & _ & Hret).
  exists rs. split; [exact Hlen|]. split.
  - destruct (Hbox 0%nat _ eq_refl) as (r0 & Hr0 & Hb0).
    destruct (Hbox 1%nat _ eq_refl) as (r1 & Hr1 & Hb1).
    destruct (Hbox 2%nat _ eq_refl) as (r2 & Hr2 & Hb2).
    destruct rs as [|x0 [|x1 [|x2 [|x3 rs]]]]; try discriminate.
    cbn in Hr0, Hr1, Hr2. injection Hr0 as ->. injection Hr1 as ->.
    injection Hr2 as ->. cbn. rewrite Hb0, Hb1, Hb2. reflexivity.
  - split; apply Hret; [intros _; lia | discriminate].
Defined.


Lemma C10_empty_input_witness :
  let par := parallelize demo_settings 0 in
  let workers := max_workers demo_settings 0 in
  let s0 := batch_text_detection demo_externals demo_settings []
              demo_processor None in
  let s := run demo_externals par workers (round_robin 3) s0 in
  (IN_STREAMLIT demo_settings = true \/
   0 < DETECTOR_MIN_PARALLEL_THRESH demo_settings) /\
  always_returns demo_externals par workers s0 [] /\
  returned s = Some [] /\
  consumer s = CDone /\
  trace s = [EvPut true].
Proof.
  intros par workers s0 s.
  assert (H1 : IN_STREAMLIT demo_settings = true \/
               0 < DETECTOR_MIN_PARALLEL_THRESH demo_settings)
    by (right; cbn; lia).
  split; [exact H1|].
  destruct (C10_empty_input demo_externals demo_settings demo_processor None)
    as (_ & _ & Hret & _ & Hin).
  split; [exact Hret|]. split; [reflexivity|].
  destruct (Hin H1) as [_ Hall].
  assert (Hr : reachable demo_externals par workers s0 s)
    by (apply run_reachable; constructor).
  destruct (Hall s Hr) as (_ & _ & Hfin).
  split; [apply (Hfin [] eq_refl) | reflexivity].
Defined.

Lemma X2_planner_closes_only_when_full_witness :
  plan_batches scenario_splits 4 !! 0%nat = Some [0%nat] /\
  plan_batches scenario_splits 4 !! 1%nat = Some [1; 2]%nat /\
  4 < batch_tiles scenario_splits [0%nat] + nth 1 scenario_splits 0.
Proof.
  assert (H1 : plan_batches scenario_splits 4 !! 0%nat = Some [0%nat])
    by reflexivity.
  assert (H2 : plan_batches scenario_splits 4 !! 1%nat = Some [1; 2]%nat)
    by reflexivity.
  split; [exact H1|]. split; [exact H2|].
  exact (X2_planner_closes_only_when_full scenario_splits 4 0 [0%nat] 1 [2%nat] H1 H2).
Defined.

Lemma X4_planner_single_batch_witness :
  [2; 1; 3] <> [] /\ Forall (fun n => 0 <= n) [2; 1; 3] /\
  zsum [2; 1; 3] <= 6 /\
  plan_batches [2; 1; 3] 6 = [[0; 1; 2]%nat].
Proof.
  assert (H1 : [2; 1; 3] <> @nil Z) by discriminate.
  assert (H2 : Forall (fun n => 0 <= n) [2; 1; 3]) by (repeat constructor; lia).
  assert (H3 : zsum [2; 1; 3] <= 6) by (cbn; lia).
  split; [exact H1|]. split; [exact H2|]. split; [exact H3|].
  exact (X4_planner_single_batch [2; 1; 3] 6 H1 H2 H3).
Defined.

Lemma X5_planner_oversized_images_alone_witness :
  Forall (fun n => 0 <= n /\ 0 < n) [2; 1; 3] /\
  plan_batches [2; 1; 3] 0 = [[0]; [1]; [2]]%nat.
Proof.
  assert (H1 : Forall (fun n => 0 <= n /\ 0 < n) [2; 1; 3])
    by (repeat constructor; lia).
  split; [exact H1|].
  exact (X5_planner_oversized_images_alone [2; 1; 3] 0 H1).
Defined.

Lemma X3_planner_uses_fewest_batches_witness :
  Forall (fun n => 0 <= n) scenario_splits /\
  concat [[0]; [1]; [2; 3; 4; 5]; [6; 7; 8; 9]]%nat
    = seq 0 (length scenario_splits) /\
  Forall (fun b => batch_tiles scenario_splits b <= 4)
         [[0]; [1]; [2; 3; 4; 5]; [6; 7; 8; 9]]%nat /\
  (length (plan_batches scenario_splits 4) <= 4)%nat.
Proof.
  assert (H1 : Forall (fun n => 0 <= n) scenario_splits)
    by (repeat constructor; lia).
  assert (H2 : concat [[0]; [1]; [2; 3; 4; 5]; [6; 7; 8; 9]]%nat
               = seq 0 (length scenario_splits)) by reflexivity.
  assert (H3 : Forall (fun b => batch_tiles scenario_splits b <= 4)
                      [[0]; [1]; [2; 3; 4; 5]; [6; 7; 8; 9]]%nat)
    by (repeat constructor; vm_compute; discriminate).
  split; [exact H1|]. split; [exact H2|]. split; [exact H3|].
  exact (X3_planner_uses_fewest_batches scenario_splits 4
           [[0]; [1]; [2; 3; 4; 5]; [6; 7; 8; 9]]%nat H1 H2 H3).
Defined.

Lemma X9_generator_yields_one_item_per_batch_witness :
  0 < size_height demo_processor /\
  Forall (fun im : image unit => 0 < im_height im) demo_images /\
  let g := batch_detection demo_externals demo_settings
             (map PyImage demo_images) demo_processor None in
  length (gen_items g) = 2%nat /\
  map snd (gen_items g) = [[(2, 7); (2, 3)]; [(2, 9)]].
Proof.
  assert (H1 : 0 < size_height demo_processor) by (cbn; lia).
  assert (H2 : Forall (fun im : image unit => 0 < im_height im) demo_images)
    by (repeat constructor).
  split; [exact H1|]. split; [exact H2|].
  destruct (X9_generator_yields_one_item_per_batch demo_externals demo_settings
              demo_images demo_processor None H1 H2)
    as (_ & Hlen & _ & Hsnd & _).
  split; [exact Hlen | exact Hsnd].
Defined.

Lemma X8_yielded_heatmaps_shape_witness :
  0 < size_height demo_processor /\
  Forall (fun im : image unit => 0 < im_height im) demo_images /\
  Forall (item_shaped demo_externals demo_processor 2)
         (gen_items (batch_detection demo_externals demo_settings
                       (map PyImage demo_images) demo_processor None)).
Proof.
  assert (H1 : 0 < size_height demo_processor) by (cbn; lia).
  assert (H2 : Forall (fun im : image unit => 0 < im_height im) demo_images)
    by (repeat constructor).
  split; [exact H1|]. split; [exact H2|].
  exact (X8_yielded_heatmaps_shape demo_externals demo_settings demo_images
           demo_processor None H1 H2).
Defined.


Lemma X11_returned_results_are_a_prefix_witness :
  let s0 := batch_text_detection demo_externals demo_settings
              (map PyImage demo_images) demo_processor None in
  let s := run demo_externals true 3 (round_robin 20) s0 in
  reachable demo_externals true 3 s0 s /\
  exists r, returned s = Some r /\
    exists bs rest,
      gen_items (batch_detection demo_externals demo_settings
                   (map PyImage demo_images) demo_processor None) = bs ++ rest /\
      postprocess_all demo_externals true bs = Ok r /\
      consumer s = CDone /\ rest = [].
Proof.
  intros s0 s.
  assert (Hr : reachable demo_externals true 3 s0 s)
    by (apply run_reachable; constructor).
  split; [exact Hr|].
  destruct (returned s) as [r|] eqn:Hret; [|vm_compute in Hret; discriminate].
  exists r. split; [reflexivity|].
  destruct (X11_returned_results_are_a_prefix demo_externals demo_settings
              (map PyImage demo_images) demo_processor None s r Hr Hret)
    as (bs & rest & Hitems & Hbs & Hend).
  exists bs, rest. split; [exact Hitems|]. split; [exact Hbs|].
  destruct Hend as [(Hc & Hrest & _)|[e He]]; [auto|].
  vm_compute in He. discriminate.
Defined.

Lemma X12_inference_error_never_returns_witness :
  let images := map PyImage demo_images_one_empty in
  let g := batch_detection demo_externals demo_settings images
             demo_processor (Some 1) in
  let s0 := batch_text_detection demo_externals demo_settings images
              demo_processor (Some 1) in
  let s := run demo_externals false 2 (round_robin 20) s0 in
  ~ gen_ok g /\
  length (gen_items g) = 1%nat /\
  Forall (fun b => exists rs, postprocess demo_externals false b = Ok rs)
         (gen_items g) /\
  reachable demo_externals false 2 s0 s /\
  returned s = None /\ length (results s) = 1%nat.
Proof.
  intros images g s0 s.
  assert (H1 : ~ gen_ok g) by (vm_compute; tauto).
  assert (H2 : parallelize demo_settings (length images) = true ->
               0 < max_workers demo_settings (length images))
    by (vm_compute; discriminate).
  assert (H3 : Forall (fun b => exists rs,
                         postprocess demo_externals
                           (parallelize demo_settings (length images)) b = Ok rs)
                      (gen_items g)).
  { vm_compute. repeat constructor. eexists. reflexivity. }
  assert (Hr : reachable demo_externals false 2 s0 s)
    by (apply run_reachable; constructor).
  split; [exact H1|]. split; [reflexivity|]. split; [exact H3|].
  split; [exact Hr|].
  destruct (X12_inference_error_never_returns demo_externals demo_settings images
              demo_processor (Some 1) H1 H2 H3 s Hr) as (Hret & _).
  split; [exact Hret | reflexivity].
Defined.


Lemma X13_wrong_label_count_fate_witness :
  0 < size_height demo_processor /\
  Forall (fun im : image unit => 0 < im_height im) demo_images /\
  demo_images <> [] /\
  num_labels demo_externals_one_label <> 2%nat /\
  always_returns demo_externals_one_label true 3
    (batch_text_detection demo_externals_one_label demo_settings
       (map PyImage demo_images) demo_processor None) [].
Proof.
  assert (H1 : 0 < size_height demo_processor) by (cbn; lia).
  assert (H2 : Forall (fun im : image unit => 0 < im_height im) demo_images)
    by (repeat constructor).
  assert (H3 : demo_images <> []) by discriminate.
  assert (H4 : num_labels demo_externals_one_label <> 2%nat) by discriminate.
  assert (H5 : parallelize demo_settings (length demo_images) = true ->
               0 < max_workers demo_settings (length demo_images))
    by (intros _; reflexivity).
  split; [exact H1|]. split; [exact H2|]. split; [exact H3|]. split; [exact H4|].
  destruct (X13_wrong_label_count_fate demo_externals_one_label demo_settings
              demo_images demo_processor None H1 H2 H3 H4 H5) as (Hret & _).
  apply Hret. vm_compute. lia.
Defined.

Lemma X16_inference_at_most_five_batches_ahead_witness :
  let s0 := batch_text_detection demo_externals demo_settings
              (map PyImage demo_images) demo_processor None in
  let s := run demo_externals true 3 (repeat Producer 30) s0 in
  0 < size_height demo_processor /\
  Forall (fun im : image unit => 0 < im_height im) demo_images /\
  num_labels demo_externals = 2%nat /\
  reachable demo_externals true 3 s0 s /\
  inferred demo_externals s = 2%nat /\
  postprocessed demo_externals s = 0%nat /\
  (postprocessed demo_externals s <= inferred demo_externals s
   <= postprocessed demo_externals s + 5)%nat.
Proof.
  intros s0 s.
  assert (H1 : 0 < size_height demo_processor) by (cbn; lia).
  assert (H2 : Forall (fun im : image unit => 0 < im_height im) demo_images)
    by (repeat constructor).
  assert (H5 : parallelize demo_settings (length demo_images) = true ->
               0 < max_workers demo_settings (length demo_images))
    by (intros _; reflexivity).
  assert (Hr : reachable demo_externals true 3 s0 s)
    by (apply run_reachable; constructor).
  split; [exact H1|]. split; [exact H2|]. split; [reflexivity|].
  split; [exact Hr|]. split; [reflexivity|]. split; [reflexivity|].
  destruct (X16_inference_at_most_five_batches_ahead demo_externals demo_settings
              demo_images demo_processor None H1 H2 eq_refl H5 s Hr)
    as (Hbound & _).
  exact Hbound.
Defined.

Lemma X10_parallel_get_lines_two_heatmaps_witness :
  let g := batch_detection demo_externals demo_settings
             (map PyImage demo_images) demo_processor None in
  let it := item_of_batch demo_externals demo_processor demo_images
              [0; 1]%nat in
  let preds := image_heatmaps 4 2
                 (batch_logits demo_externals demo_processor demo_images 0 2)
                 0 [4; 3] in
  In it (gen_items g) /\
  fst it !! 0%nat = Some preds /\
  snd it !! 0%nat = Some (2, 7) /\
  exists heatmap_arr affinity_arr r,
    preds = [heatmap_arr; affinity_arr] /\
    parallel_get_lines demo_externals preds (2, 7) = Ok r /\
    reversed_shape heatmap_arr = [2; 7] /\
    bboxes r = [2; 7] /\ vertical_lines r = [2; 7].
Proof.
  intros g it preds.
  assert (H1 : In it (gen_items g)) by (left; vm_compute; reflexivity).
  assert (H2 : fst it !! 0%nat = Some preds) by (vm_compute; reflexivity).
  assert (H3 : snd it !! 0%nat = Some (2, 7)) by reflexivity.
  split; [exact H1|]. split; [exact H2|]. split; [exact H3|].
  destruct (X10_parallel_get_lines_two_heatmaps demo_externals preds (2, 7))
    as (_ & _ & _ & _ & Hpipe).
  destruct (Hpipe demo_settings demo_images demo_processor None it 0%nat
              ltac:(cbn; lia) ltac:(cbn; lia) ltac:(repeat constructor)
              eq_refl H1 H2 H3)
    as (h & a & r & Hp & Hr & Hh & _ & Hb & Hv).
  exists h, a, r. split; [exact Hp|]. split; [exact Hr|].
  split; [exact Hh|]. split.
  - rewrite Hb. reflexivity.
  - rewrite Hv. reflexivity.
Defined.
